(** * AmbulanceSim: junction preemption and reactive car logic

  A shallow embedding of the simulation core of the repository
  (js/main.js, js/TrafficLight.js, js/SmartReflector.js, js/Road.js,
  js/Ambulance.js, js/ProceduralCar.js, js/ProceduralPedestrian.js,
  js/Config.js) and the properties of its junction state machine,
  light cycle, reflector chain, ambulance, cars, pedestrians, road
  geometry and building placement.

  Conventions of the embedding.
  - A JavaScript number is an exact rational ([Q]); NaN and infinities
    are outside the model, and so is rounding, except for the timer of
    the light cycle, whose double arithmetic is written out in
    [Binary64].  Comparisons are the boolean tests of the source.
  - An object that the source mutates in place is a record that is
    passed in and returned.  The array [Simulation.junctions] is a
    list that is updated by position; the lookup by [id] of
    [controlTrafficLightsForJunction] is kept as a lookup.
  - A reflector object is named by its position in
    [junction.reflectors]; [junction.reflectorChain] holds such
    references.
  - Scene graph data (meshes, materials other than the three lamps of
    a traffic light, rotations, camera, audio, DOM status text) is not
    read by any decision of the logic and is left out. *)

From Stdlib Require Import QArith Qabs Qminmax Qround ZArith List Bool String Lia Lqa.
From stdpp Require Import base list strings pretty.
Import ListNotations.

Open Scope Q_scope.

(** ** JavaScript numbers *)

Module JS.

Definition ltb (a b : Q) : bool := negb (Qle_bool b a).
Definition leb (a b : Q) : bool := Qle_bool a b.
Definition gtb (a b : Q) : bool := ltb b a.
Definition geb (a b : Q) : bool := leb b a.
Definition eqb (a b : Q) : bool := Qeq_bool a b.

(** [Math.sign]. *)
Definition sign (a : Q) : Q :=
  if ltb 0 a then 1 else if ltb a 0 then -1 else 0.

(** [Math.abs]. *)
Definition abs (a : Q) : Q := Qabs a.

(** [a || d] on numbers: [d] replaces a falsy [a], that is 0. *)
Definition orElse (a d : Q) : Q := if eqb a 0 then d else a.

(** [a || d] on integer colour codes. *)
Definition orElseZ (a d : Z) : Z := if Z.eqb a 0 then d else a.

(** [Math.floor] as a natural number of loop iterations. *)
Definition floorNat (a : Q) : nat := Z.to_nat (Qfloor a).

End JS.

Infix "<?" := JS.ltb (at level 70, no associativity) : Q_scope.
Infix "<=?" := JS.leb (at level 70, no associativity) : Q_scope.
Infix ">?" := JS.gtb (at level 70, no associativity) : Q_scope.
Infix ">=?" := JS.geb (at level 70, no associativity) : Q_scope.
Infix "=?" := JS.eqb (at level 70, no associativity) : Q_scope.

(** ** Double arithmetic

    The timer of the light cycle is the one number of the logic that
    is accumulated over many frames, so that the rounding of each
    subtraction decides on which frame a phase ends.  For it the
    arithmetic of the source is written out: a JavaScript number is an
    IEEE 754 binary64 value, and an operation gives the double nearest
    to the exact result, a tie going to the one with an even
    significand.  The doubles are the rationals [k / 2 ^ e] with [k] of
    at most 53 bits, between the spacing [2 ^ -1074] of the smallest
    ones and the largest finite one; overflow is left out, no timer
    gets near it. *)

Module Binary64.

(** The spacing of the smallest doubles is [2 ^ -1074]. *)
Definition minExponent : Z := 1074.

(** The number of bits of a significand. *)
Definition precision : Z := 53.

(** The nearest integer, a tie going to the even one. *)
Definition roundHalfEven (a : Q) : Z :=
  let f := Qfloor a in
  let r := a - inject_Z f in
  if r <? 1 / 2 then f
  else if 1 / 2 <? r then (f + 1)%Z
  else if Z.even f then f else (f + 1)%Z.

(** The double nearest to [a], for [0 <= a].  In units of
    [2 ^ -1074], a value below [2 ^ 53] is rounded to an integer, and a
    larger one to a multiple of the power of two that leaves 53 bits. *)
Definition roundPos (a : Q) : Q :=
  let u := a * inject_Z (2 ^ minExponent) in
  let F := Qfloor u in
  if (F <? 2 ^ precision)%Z
  then inject_Z (roundHalfEven u) / inject_Z (2 ^ minExponent)
  else
    let s := (Z.log2 F - (precision - 1))%Z in
    inject_Z (roundHalfEven (u / inject_Z (2 ^ s)) * 2 ^ s)
    / inject_Z (2 ^ minExponent).

(** The double nearest to [a]. *)
Definition round (a : Q) : Q :=
  Qred (if a <? 0 then - roundPos (- a) else roundPos a).

(** [a - b] and [a / b] on doubles. *)
Definition sub (a b : Q) : Q := round (a - b).
Definition div (a b : Q) : Q := round (a / b).

End Binary64.

(** ** The browser console *)

Module Console.

Inductive msg : Type :=
| log (text : string)
| warn (text : string).

End Console.

(** ** THREE.Vector3 *)

Module Vector3.

Record t : Type := mk { x : Q; y : Q; z : Q }.

Definition distanceToSquared (a b : t) : Q :=
  (x a - x b) * (x a - x b) + (y a - y b) * (y a - y b)
  + (z a - z b) * (z a - z b).

Definition lengthSq (a : t) : Q := x a * x a + y a * y a + z a * z a.

Definition subVectors (a b : t) : t :=
  mk (x a - x b) (y a - y b) (z a - z b).

Definition addScaledVector (a v : t) (s : Q) : t :=
  mk (x a + x v * s) (y a + y v * s) (z a + z v * s).

(** [a.distanceTo(b) < r].  The distance is a square root; the test is
    taken on the squares, which is the same test for every [r]: the
    distance is never negative, so the test fails for [r <= 0]. *)
Definition distanceLt (a b : t) (r : Q) : bool :=
  (0 <? r) && (distanceToSquared a b <? r * r).

End Vector3.

(** ** js/Config.js *)

Module Config.

Definition roadSurfaceY : Q := 5 / 100.
Definition roadWidth : Q := 8.
Definition roadLength : Q := 70.
Definition junctionSize : Q := 12.
Definition numJunctions : nat := 3.

Definition ambulanceSpeed : Q := 25 / 100.
Definition ambulanceFadeOutDuration : Q := 2.
Definition sirenDetectionRadius : Q := 60.
Definition ambulancePreemptionRadius : Q := 150.
Definition ambulanceLaneOffsetZ : Q := - (175 / 100).

Definition trafficLightGreenDuration : Q := 8000.
Definition trafficLightYellowDuration : Q := 2000.

Definition reflectorSpacing : Q := 6.
Definition reflectorDetectionChainRadius : Q := 4.

Definition laneWidth : Q := 35 / 10.
Definition carEvadeDistance : Q := 25.
Definition carEvadeShiftZ : Q := 25 / 10.
Definition carStopDistanceToJunction : Q := 8.
Definition carDetectionDistanceToJunction : Q := 25.

Definition footpathWidth : Q := 2.
Definition footpathHeightOffset : Q := 5 / 100.

Module colors.
Definition redLightOn : Z := 0xff0000.
Definition redLightOff : Z := 0x440000.
Definition yellowLightOn : Z := 0xffff00.
Definition yellowLightOff : Z := 0x444400.
Definition greenLightOn : Z := 0x00ff00.
Definition greenLightOff : Z := 0x004400.
End colors.

End Config.

(** ** js/TrafficLight.js *)

Module TrafficLight.

Inductive LIGHT_STATE : Type := RED | YELLOW | GREEN | OFF.

Definition stateName (s : LIGHT_STATE) : string :=
  match s with
  | RED => "RED" | YELLOW => "YELLOW" | GREEN => "GREEN" | OFF => "OFF"
  end.

(** The part of a lamp's [MeshStandardMaterial] that [setLightState]
    writes. *)
Record Material : Type :=
  { color : Z; emissive : Z; emissiveIntensity : Q }.

Record Lamps : Type :=
  { red : Material; yellow : Material; green : Material }.

Record t : Type :=
  { id : string;
    currentState : LIGHT_STATE;
    isOverridden : bool;
    lights : Lamps }.

Definition offIntensity : Q := 2 / 10.
Definition onIntensity : Q := 1.

Definition lamp (c : Z) (intensity : Q) : Material :=
  {| color := c; emissive := c; emissiveIntensity := intensity |}.

Definition redOffColor : Z := JS.orElseZ Config.colors.redLightOff 0x440000.
Definition yellowOffColor : Z := JS.orElseZ Config.colors.yellowLightOff 0x444400.
Definition greenOffColor : Z := JS.orElseZ Config.colors.greenLightOff 0x004400.
Definition redOnColor : Z := JS.orElseZ Config.colors.redLightOn 0xff0000.
Definition yellowOnColor : Z := JS.orElseZ Config.colors.yellowLightOn 0xffff00.
Definition greenOnColor : Z := JS.orElseZ Config.colors.greenLightOn 0x00ff00.

(** The appearance written by [setLightState]: every lamp off, then
    the lamp of [state] on. *)
Definition appearance (state : LIGHT_STATE) : Lamps :=
  let off := {| red := lamp redOffColor offIntensity;
                yellow := lamp yellowOffColor offIntensity;
                green := lamp greenOffColor offIntensity |} in
  match state with
  | RED => {| red := lamp redOnColor onIntensity;
              yellow := yellow off; green := green off |}
  | YELLOW => {| red := red off;
                 yellow := lamp yellowOnColor onIntensity;
                 green := green off |}
  | GREEN => {| red := red off; yellow := yellow off;
                green := lamp greenOnColor onIntensity |}
  | OFF => off
  end.

(** [setLightState(state, isPriorityOverride, forceSilent)]: the light
    after the call and the lines written to the console. *)
Definition setLightState (state : LIGHT_STATE)
    (isPriorityOverride forceSilent : bool) (l : t) : t * list Console.msg :=
  if negb isPriorityOverride && isOverridden l then
    (l, if forceSilent then []
        else [Console.log ("[" +:+ id l +:+ "] State change to "
                           +:+ stateName state +:+ " blocked by override.")])
  else
    ({| id := id l; currentState := state;
        isOverridden := isOverridden l; lights := appearance state |},
     if forceSilent then []
     else [Console.log ("[" +:+ id l +:+ "] Setting state to: "
                        +:+ stateName state
                        +:+ (if isPriorityOverride then " (Priority)" else ""))]).

(** [setPriority(makeGreen)]. *)
Definition setPriority (makeGreen : bool) (l : t) : t :=
  let l1 := {| id := id l; currentState := currentState l;
               isOverridden := true; lights := lights l |} in
  if makeGreen then fst (setLightState GREEN true false l1)
  else fst (setLightState RED true false l1).

(** [releasePriority()]. *)
Definition releasePriority (l : t) : t :=
  {| id := id l; currentState := currentState l;
     isOverridden := false; lights := lights l |}.

(** [new TrafficLight(position, rotationY)] followed by the assignment
    of [id] in [setupEnvironment]. *)
Definition create (name : string) : t :=
  fst (setLightState RED false true
         {| id := name; currentState := RED; isOverridden := false;
            lights := {| red := lamp redOffColor offIntensity;
                         yellow := lamp yellowOffColor offIntensity;
                         green := lamp greenOffColor offIntensity |} |}).

End TrafficLight.

(** ** js/SmartReflector.js *)

Module SmartReflector.

Record t : Type :=
  { position : Vector3.t;   (* [group.position], a copy of [position] *)
    isSignaling : bool }.

Definition create (pos : Vector3.t) : t :=
  {| position := pos; isSignaling := false |}.

(** [triggerSignal()]: the pulse starts unless one is running. *)
Definition triggerSignal (r : t) : t :=
  if isSignaling r then r
  else {| position := position r; isSignaling := true |}.

(** The callback that [triggerSignal] hands to [setTimeout]: the pulse
    ends [Config.reflectorSignalDuration] milliseconds later. *)
Definition signalTimeout (r : t) : t :=
  {| position := position r; isSignaling := false |}.

Definition canDetectAmbulance (r : t) (ambulancePosition : Vector3.t) : bool :=
  Vector3.distanceLt (position r) ambulancePosition
    (JS.orElse Config.sirenDetectionRadius 40).

Definition isAmbulanceNear (r : t) (otherReflectorPosition : Vector3.t) : bool :=
  Vector3.distanceLt (position r) otherReflectorPosition
    (JS.orElse Config.reflectorDetectionChainRadius 3).

End SmartReflector.

(** ** js/Road.js *)

Module Road.

Record t : Type :=
  { junctionCenters : list Vector3.t;
    roadSurfaceY : Q }.

(** [Array.prototype.sort] with the comparator [(a, b) => a.x - b.x]:
    a stable sort by [x], here by insertion from the right, each point
    going before the points of the same [x] that followed it. *)
Fixpoint insertByX (p : Vector3.t) (l : list Vector3.t) : list Vector3.t :=
  match l with
  | [] => [p]
  | q :: l' =>
      if Vector3.x p <=? Vector3.x q then p :: l else q :: insertByX p l'
  end.

Definition sortByX (l : list Vector3.t) : list Vector3.t :=
  foldr insertByX [] l.

(** The junction centres pushed by the loop of [createRoadLayout],
    [currentX] being the west end of the next east-west segment. *)
Fixpoint layoutCenters (surfaceY currentX : Q) (remaining : nat) : list Vector3.t :=
  match remaining with
  | O => []
  | S n =>
      let currentX := currentX + Config.roadLength in
      let junctionCenterX := currentX + Config.junctionSize / 2 in
      Vector3.mk junctionCenterX surfaceY 0
        :: layoutCenters surfaceY (currentX + Config.junctionSize) n
  end.

(** [new Road(scene)]: the part of [createRoadLayout] that the logic
    reads. *)
Definition create : t :=
  let totalLengthOverall :=
    (inject_Z (Z.of_nat Config.numJunctions) + 1) * Config.roadLength
    + inject_Z (Z.of_nat Config.numJunctions) * Config.junctionSize in
  {| junctionCenters :=
       sortByX (layoutCenters Config.roadSurfaceY
                  (- totalLengthOverall / 2) Config.numJunctions);
     roadSurfaceY := Config.roadSurfaceY |}.

Definition vecEquals (a b : Vector3.t) : bool :=
  (Vector3.x a =? Vector3.x b) && (Vector3.y a =? Vector3.y b)
  && (Vector3.z a =? Vector3.z b).

(** [path.filter((point, i, arr) => i === 0 || !point.equals(arr[i-1]))],
    [prev] being [arr[i-1]]. *)
Fixpoint dropRepeats (prev : option Vector3.t) (l : list Vector3.t) : list Vector3.t :=
  match l with
  | [] => []
  | p :: l' =>
      match prev with
      | Some q => if vecEquals p q then dropRepeats (Some p) l'
                  else p :: dropRepeats (Some p) l'
      | None => p :: dropRepeats (Some p) l'
      end
  end.

Definition getAmbulancePath (road : t) : list Vector3.t :=
  let ambulanceY := roadSurfaceY road + 2 / 10 in
  let totalRoadLengthEW :=
    (inject_Z (Z.of_nat Config.numJunctions) + 1) * Config.roadLength
    + inject_Z (Z.of_nat Config.numJunctions) * Config.junctionSize in
  let startX := - totalRoadLengthEW / 2 - Config.roadLength * (2 / 10) in
  let endX := totalRoadLengthEW / 2 + Config.roadLength * (2 / 10) in
  let ambulanceLaneZ := Config.ambulanceLaneOffsetZ in
  let through :=
    match junctionCenters road with
    | [] => [Vector3.mk 0 ambulanceY ambulanceLaneZ]
    | centers =>
        flat_map (fun center =>
          [Vector3.mk (Vector3.x center - Config.junctionSize) ambulanceY ambulanceLaneZ;
           Vector3.mk (Vector3.x center) ambulanceY ambulanceLaneZ;
           Vector3.mk (Vector3.x center + Config.junctionSize) ambulanceY ambulanceLaneZ])
          centers
    end in
  dropRepeats None
    ([Vector3.mk startX ambulanceY ambulanceLaneZ] ++ through
     ++ [Vector3.mk endX ambulanceY ambulanceLaneZ]).

(** The body of the [for] loops of [getReflectorPositions]: one
    position for each [i] below [numReflectors]. *)
Definition reflectorLine (numReflectors : nat) (place : Q -> Vector3.t)
    : list Vector3.t :=
  map (fun i : nat => place (inject_Z (Z.of_nat i))) (seq 0 numReflectors).

(** [getReflectorPositions(junctionIndex, approachDirection)]: the
    positions and the lines written to the console. *)
Definition getReflectorPositions (road : t) (junctionIndex : Z)
    (approachDirection : string) : list Vector3.t * list Console.msg :=
  if (junctionIndex <? 0)%Z
     || (Z.of_nat (length (junctionCenters road)) <=? junctionIndex)%Z
  then ([], [Console.warn ("getReflectorPositions: Invalid junctionIndex "
                           +:+ pretty junctionIndex)])
  else
    match junctionCenters road !! Z.to_nat junctionIndex with
    | None => ([], [Console.warn ("getReflectorPositions: No center found for junctionIndex "
                                  +:+ pretty junctionIndex)])
    | Some junctionCenter =>
        let reflectorYPosition := roadSurfaceY road - 425 / 10000 in
        let roadSegmentLength := Config.roadLength in
        let reflectorSpacing := Config.reflectorSpacing in
        let numReflectors := JS.floorNat (roadSegmentLength / reflectorSpacing) in
        let reflectorLocalZ := 0 in
        if String.eqb approachDirection "west" then
          let segmentStartX :=
            Vector3.x junctionCenter - Config.junctionSize / 2 - roadSegmentLength in
          (rev (reflectorLine numReflectors (fun i =>
             Vector3.mk (segmentStartX + (i + 5 / 10) * reflectorSpacing)
               reflectorYPosition (Vector3.z junctionCenter + reflectorLocalZ))), [])
        else if String.eqb approachDirection "east" then
          let segmentStartX := Vector3.x junctionCenter + Config.junctionSize / 2 in
          (reflectorLine numReflectors (fun i =>
             Vector3.mk (segmentStartX + (i + 5 / 10) * reflectorSpacing)
               reflectorYPosition (Vector3.z junctionCenter + reflectorLocalZ)), [])
        else if String.eqb approachDirection "south" then
          let segmentStartZ :=
            Vector3.z junctionCenter - Config.junctionSize / 2 - roadSegmentLength in
          (rev (reflectorLine numReflectors (fun i =>
             Vector3.mk (Vector3.x junctionCenter + reflectorLocalZ)
               reflectorYPosition (segmentStartZ + (i + 5 / 10) * reflectorSpacing))), [])
        else if String.eqb approachDirection "north" then
          let segmentStartZ := Vector3.z junctionCenter + Config.junctionSize / 2 in
          (reflectorLine numReflectors (fun i =>
             Vector3.mk (Vector3.x junctionCenter + reflectorLocalZ)
               reflectorYPosition (segmentStartZ + (i + 5 / 10) * reflectorSpacing)), [])
        else ([], [])
    end.

(** [getJunctionCenter(junctionIndex)]: [None] is the source's [null]. *)
Definition getJunctionCenter (road : t) (junctionIndex : Z)
    : option Vector3.t * list Console.msg :=
  if (0 <=? junctionIndex)%Z
     && (junctionIndex <? Z.of_nat (length (junctionCenters road)))%Z
  then (junctionCenters road !! Z.to_nat junctionIndex, [])
  else (None, [Console.warn ("Requested junction center for invalid index: "
                             +:+ pretty junctionIndex)]).

End Road.

(** ** The functions of three.js that the logic calls *)

(** [THREE.MathUtils.damp] is an exponential and [Vector3.normalize] a
    square root: both belong to the library, not to the repository, and
    are taken as given. *)
Class Three : Type :=
  { damp : Q -> Q -> Q -> Q -> Q;
    normalize : Vector3.t -> Vector3.t }.

(** ** js/Ambulance.js *)

Module Ambulance.

Record t : Type :=
  { path : list Vector3.t;
    currentPathIndex : nat;
    speed : Q;
    position : Vector3.t;        (* [group.position] *)
    model : bool;                (* [model] is set once the asset is loaded *)
    isDeactivating : bool;
    fadeOutTimer : Q;
    hasFadedOut : bool }.

Definition set_currentPathIndex (i : nat) (a : t) : t :=
  {| path := path a; currentPathIndex := i; speed := speed a;
     position := position a; model := model a;
     isDeactivating := isDeactivating a; fadeOutTimer := fadeOutTimer a;
     hasFadedOut := hasFadedOut a |}.

Definition set_position (p : Vector3.t) (a : t) : t :=
  {| path := path a; currentPathIndex := currentPathIndex a; speed := speed a;
     position := p; model := model a;
     isDeactivating := isDeactivating a; fadeOutTimer := fadeOutTimer a;
     hasFadedOut := hasFadedOut a |}.

Definition set_model (b : bool) (a : t) : t :=
  {| path := path a; currentPathIndex := currentPathIndex a; speed := speed a;
     position := position a; model := b;
     isDeactivating := isDeactivating a; fadeOutTimer := fadeOutTimer a;
     hasFadedOut := hasFadedOut a |}.

Definition set_isDeactivating (b : bool) (a : t) : t :=
  {| path := path a; currentPathIndex := currentPathIndex a; speed := speed a;
     position := position a; model := model a;
     isDeactivating := b; fadeOutTimer := fadeOutTimer a;
     hasFadedOut := hasFadedOut a |}.

Definition set_fadeOutTimer (q : Q) (a : t) : t :=
  {| path := path a; currentPathIndex := currentPathIndex a; speed := speed a;
     position := position a; model := model a;
     isDeactivating := isDeactivating a; fadeOutTimer := q;
     hasFadedOut := hasFadedOut a |}.

Definition set_hasFadedOut (b : bool) (a : t) : t :=
  {| path := path a; currentPathIndex := currentPathIndex a; speed := speed a;
     position := position a; model := model a;
     isDeactivating := isDeactivating a; fadeOutTimer := fadeOutTimer a;
     hasFadedOut := b |}.

(** [new Ambulance(scene, camera, pathPoints)]; the model is loaded
    later. *)
Definition create (pathPoints : list Vector3.t) : t :=
  {| path := pathPoints; currentPathIndex := 0;
     speed := Config.ambulanceSpeed;
     position := match pathPoints with
                 | p :: _ => p
                 | [] => Vector3.mk 0 0 0
                 end;
     model := false; isDeactivating := false; fadeOutTimer := 0;
     hasFadedOut := false |}.

(** The end of [loadAndCreateModel]: [model] is set, to the asset or to
    the placeholder box. *)
Definition modelLoaded (a : t) : t := set_model true a.

Definition deactivate (a : t) : t := set_isDeactivating true a.

Definition activate (a : t) : t :=
  let a := set_currentPathIndex 0 a in
  let a := set_isDeactivating false a in
  let a := set_hasFadedOut false a in
  let a := set_fadeOutTimer 0 a in
  match path a with
  | p :: _ => set_position p a
  | [] => a
  end.

Definition update `{Three} (deltaTime : Q) (a : t) : t :=
  if hasFadedOut a then a
  else if isDeactivating a then
    let a := set_fadeOutTimer (fadeOutTimer a + deltaTime) a in
    let fadeDuration := JS.orElse Config.ambulanceFadeOutDuration 2 in
    let fadeProgress := Qmin 1 (fadeOutTimer a / fadeDuration) in
    if fadeProgress >=? 1 then set_hasFadedOut true a else a
  else
    match path a !! currentPathIndex a with
    | None => a          (* empty path, or index at or past the end *)
    | Some targetPosition =>
        if negb (model a) then a
        else
          let directionToTarget :=
            Vector3.subVectors targetPosition (position a) in
          let distanceToTargetSq := Vector3.lengthSq directionToTarget in
          let moveSpeed := speed a in
          if (distanceToTargetSq <? moveSpeed * moveSpeed * (1 / 10))
             || (distanceToTargetSq <? 1 / 100)
          then
            let a := set_currentPathIndex (S (currentPathIndex a)) a in
            if (length (path a) <=? currentPathIndex a)%nat
            then deactivate a else a
          else
            set_position
              (Vector3.addScaledVector (position a)
                 (normalize directionToTarget) moveSpeed) a
    end.

Definition getPosition (a : t) : Vector3.t := position a.

End Ambulance.

(** ** js/ProceduralCar.js *)

Module ProceduralCar.

Record t : Type :=
  { position : Vector3.t;        (* [group.position] *)
    length : Q;
    carWidth : Q;
    height : Q;
    lane : Q;
    initialZ : Q;
    speed : Q;
    isEvading : bool;
    targetZ : Q;
    currentSpeed : Q;
    isStoppedForLight : bool }.

Definition set_position (p : Vector3.t) (c : t) : t :=
  {| position := p; length := length c; carWidth := carWidth c;
     height := height c; lane := lane c; initialZ := initialZ c;
     speed := speed c; isEvading := isEvading c; targetZ := targetZ c;
     currentSpeed := currentSpeed c;
     isStoppedForLight := isStoppedForLight c |}.

Definition set_isEvading (b : bool) (c : t) : t :=
  {| position := position c; length := length c; carWidth := carWidth c;
     height := height c; lane := lane c; initialZ := initialZ c;
     speed := speed c; isEvading := b; targetZ := targetZ c;
     currentSpeed := currentSpeed c;
     isStoppedForLight := isStoppedForLight c |}.

Definition set_targetZ (q : Q) (c : t) : t :=
  {| position := position c; length := length c; carWidth := carWidth c;
     height := height c; lane := lane c; initialZ := initialZ c;
     speed := speed c; isEvading := isEvading c; targetZ := q;
     currentSpeed := currentSpeed c;
     isStoppedForLight := isStoppedForLight c |}.

Definition set_currentSpeed (q : Q) (c : t) : t :=
  {| position := position c; length := length c; carWidth := carWidth c;
     height := height c; lane := lane c; initialZ := initialZ c;
     speed := speed c; isEvading := isEvading c; targetZ := targetZ c;
     currentSpeed := q;
     isStoppedForLight := isStoppedForLight c |}.

Definition set_isStoppedForLight (b : bool) (c : t) : t :=
  {| position := position c; length := length c; carWidth := carWidth c;
     height := height c; lane := lane c; initialZ := initialZ c;
     speed := speed c; isEvading := isEvading c; targetZ := targetZ c;
     currentSpeed := currentSpeed c;
     isStoppedForLight := b |}.

Definition set_x (q : Q) (c : t) : t :=
  set_position
    (Vector3.mk q (Vector3.y (position c)) (Vector3.z (position c))) c.

Definition set_z (q : Q) (c : t) : t :=
  set_position
    (Vector3.mk (Vector3.x (position c)) (Vector3.y (position c)) q) c.

(** [new ProceduralCar(scene, position, color)] with the default
    length, width and height. *)
Definition create (pos : Vector3.t) : t :=
  let height := 11 / 10 in
  let wheelRadius := height * (25 / 100) in
  {| position := Vector3.mk (Vector3.x pos)
                   (Config.roadSurfaceY + wheelRadius) (Vector3.z pos);
     length := 28 / 10; carWidth := 13 / 10; height := height;
     lane := 0; initialZ := Vector3.z pos; speed := 1 / 10;
     isEvading := false; targetZ := Vector3.z pos;
     currentSpeed := 1 / 10; isStoppedForLight := false |}.

Definition update `{Three} (deltaTime : Q) (c : t) : t :=
  let c :=
    if negb (isStoppedForLight c) || isEvading c
    then set_x (Vector3.x (position c) + currentSpeed c * deltaTime * 60) c
    else c in
  let roadExtentX :=
    (inject_Z (Z.of_nat Config.numJunctions) * Config.junctionSize
     + (inject_Z (Z.of_nat Config.numJunctions) + 1) * Config.roadLength) / 2
    + length c * 2 in
  let c :=
    if (currentSpeed c >? 0) && (Vector3.x (position c) >? roadExtentX)
    then set_x (- roadExtentX) c
    else if (currentSpeed c <? 0) && (Vector3.x (position c) <? - roadExtentX)
    then set_x roadExtentX c
    else c in
  let c :=
    if JS.abs (Vector3.z (position c) - targetZ c) >? 1 / 100
    then set_z (damp (Vector3.z (position c)) (targetZ c) 5 deltaTime) c
    else
      let c := set_z (targetZ c) c in
      if negb (isEvading c) && negb (Vector3.z (position c) =? initialZ c)
      then set_targetZ (initialZ c) c
      else c in
  let c :=
    if negb (isStoppedForLight c) && negb (isEvading c)
       && (JS.abs (currentSpeed c) <? JS.abs (speed c))
    then set_currentSpeed (speed c) c
    else c in
  if isStoppedForLight c && negb (isEvading c)
  then set_currentSpeed 0 c
  else c.

(** [checkAndHandleTrafficLight(junctionData, trafficLight,
    ambulanceIsVeryCloseAndNeedsWay)]: of [junctionData] the method
    reads [center] only. *)
Definition checkAndHandleTrafficLight (junctionCenter : option Vector3.t)
    (trafficLight : option TrafficLight.t)
    (ambulanceIsVeryCloseAndNeedsWay : bool) (c : t) : t :=
  match junctionCenter, trafficLight with
  | Some center, Some light =>
      let carDirectionSign := JS.sign (speed c) in
      let distToJunctionCenterX :=
        (Vector3.x center - Vector3.x (position c)) * carDirectionSign in
      if ambulanceIsVeryCloseAndNeedsWay
         && (isStoppedForLight c || (currentSpeed c <? JS.abs (speed c)))
         && isEvading c
      then
        set_currentSpeed (speed c * (3 / 10)) (set_isStoppedForLight false c)
      else if (distToJunctionCenterX >? 0)
              && (distToJunctionCenterX <? Config.carDetectionDistanceToJunction)
      then
        let lightState := TrafficLight.currentState light in
        let effectiveStopDist :=
          Config.carStopDistanceToJunction + length c / 2 in
        let redOrYellow :=
          match lightState with
          | TrafficLight.RED | TrafficLight.YELLOW => true
          | _ => false
          end in
        if redOrYellow && (distToJunctionCenterX <? effectiveStopDist)
           && (distToJunctionCenterX >? - length c)
        then
          if negb (isEvading c)
          then set_currentSpeed 0 (set_isStoppedForLight true c)
          else c
        else
          match lightState with
          | TrafficLight.GREEN =>
              let c := set_isStoppedForLight false c in
              if negb (isEvading c) then set_currentSpeed (speed c) c else c
          | _ =>
              if isStoppedForLight c && negb redOrYellow
              then
                let c := set_isStoppedForLight false c in
                if negb (isEvading c) then set_currentSpeed (speed c) c else c
              else c
          end
      else if distToJunctionCenterX <=? 0
      then set_isStoppedForLight false c
      else c
  | _, _ =>
      let c := if isStoppedForLight c then set_isStoppedForLight false c else c in
      if negb (isEvading c) then set_currentSpeed (speed c) c else c
  end.

Definition startEvade (ambulanceTargetLaneZ : Q) (c : t) : t :=
  if isEvading c && negb (targetZ c =? initialZ c) then c
  else
    let c := set_isEvading true c in
    let carOriginalLaneZ := initialZ c in
    let roadEdgePositive := Config.roadWidth / 2 - carWidth c / 2 - 2 / 10 in
    let roadEdgeNegative := - Config.roadWidth / 2 + carWidth c / 2 + 2 / 10 in
    if JS.abs (Vector3.z (position c) - ambulanceTargetLaneZ)
       <? Config.laneWidth * (8 / 10)
    then
      if ambulanceTargetLaneZ <=? carOriginalLaneZ
      then
        let c := set_targetZ (carOriginalLaneZ + Config.carEvadeShiftZ) c in
        if targetZ c >? roadEdgePositive then set_targetZ roadEdgePositive c else c
      else
        let c := set_targetZ (carOriginalLaneZ - Config.carEvadeShiftZ) c in
        if targetZ c <? roadEdgeNegative then set_targetZ roadEdgeNegative c else c
    else
      set_isEvading false (set_targetZ (initialZ c) c).

Definition stopEvade (c : t) : t :=
  if negb (isEvading c)
     && (JS.abs (Vector3.z (position c) - initialZ c) <? 1 / 10)
  then c
  else set_targetZ (initialZ c) (set_isEvading false c).

End ProceduralCar.

(** ** js/main.js *)

Module Simulation.

Inductive JUNCTION_PHASES : Type :=
  EW_GREEN | EW_YELLOW | NS_GREEN | NS_YELLOW | ALL_RED.

Definition phaseEqb (p q : JUNCTION_PHASES) : bool :=
  match p, q with
  | EW_GREEN, EW_GREEN | EW_YELLOW, EW_YELLOW | NS_GREEN, NS_GREEN
  | NS_YELLOW, NS_YELLOW | ALL_RED, ALL_RED => true
  | _, _ => false
  end.

Record PhaseDef : Type := { phase : JUNCTION_PHASES; duration : Q }.

Definition JUNCTION_CYCLE_DEFINITION : list PhaseDef :=
  [ {| phase := EW_GREEN; duration := JS.orElse Config.trafficLightGreenDuration 7000 |};
    {| phase := EW_YELLOW; duration := JS.orElse Config.trafficLightYellowDuration 2000 |};
    {| phase := ALL_RED; duration := 1000 |};
    {| phase := NS_GREEN; duration := JS.orElse Config.trafficLightGreenDuration 7000 |};
    {| phase := NS_YELLOW; duration := JS.orElse Config.trafficLightYellowDuration 2000 |};
    {| phase := ALL_RED; duration := 1000 |} ].

(** [Array.prototype.findIndex]; [None] is the source's [-1]. *)
Fixpoint findIndex {A : Type} (p : A -> bool) (l : list A) : option nat :=
  match l with
  | [] => None
  | a :: l' => if p a then Some 0%nat else option_map S (findIndex p l')
  end.

(** [(JUNCTION_CYCLE_DEFINITION[index].duration || 1000) / 1000], the
    duration of a phase in seconds.  Every index the source uses is
    below the length of the table: it is 0, a result of [findIndex] or a
    remainder modulo the length. *)
Definition phaseSeconds (index : nat) : Q :=
  match JUNCTION_CYCLE_DEFINITION !! index with
  | Some def => JS.orElse (duration def) 1000 / 1000
  | None => 0
  end.

(** The [junctionData] objects of [setupEnvironment]. *)
Record Junction : Type :=
  { id : Z;
    center : Vector3.t;
    trafficLights : list TrafficLight.t;
    reflectors : list SmartReflector.t;
    reflectorChain : list nat;     (* references into [reflectors] *)
    isAmbulanceApproaching : bool;
    hasAmbulancePassed : bool;
    currentPhaseIndex : nat;
    currentPhaseTimer : Q;
    isUnderNormalCycle : bool }.

Definition set_trafficLights (v : list TrafficLight.t) (j : Junction) : Junction :=
  {| id := id j; center := center j; trafficLights := v;
     reflectors := reflectors j; reflectorChain := reflectorChain j;
     isAmbulanceApproaching := isAmbulanceApproaching j;
     hasAmbulancePassed := hasAmbulancePassed j;
     currentPhaseIndex := currentPhaseIndex j;
     currentPhaseTimer := currentPhaseTimer j;
     isUnderNormalCycle := isUnderNormalCycle j |}.

Definition set_reflectors (v : list SmartReflector.t) (j : Junction) : Junction :=
  {| id := id j; center := center j; trafficLights := trafficLights j;
     reflectors := v; reflectorChain := reflectorChain j;
     isAmbulanceApproaching := isAmbulanceApproaching j;
     hasAmbulancePassed := hasAmbulancePassed j;
     currentPhaseIndex := currentPhaseIndex j;
     currentPhaseTimer := currentPhaseTimer j;
     isUnderNormalCycle := isUnderNormalCycle j |}.

Definition set_reflectorChain (v : list nat) (j : Junction) : Junction :=
  {| id := id j; center := center j; trafficLights := trafficLights j;
     reflectors := reflectors j; reflectorChain := v;
     isAmbulanceApproaching := isAmbulanceApproaching j;
     hasAmbulancePassed := hasAmbulancePassed j;
     currentPhaseIndex := currentPhaseIndex j;
     currentPhaseTimer := currentPhaseTimer j;
     isUnderNormalCycle := isUnderNormalCycle j |}.

Definition set_isAmbulanceApproaching (v : bool) (j : Junction) : Junction :=
  {| id := id j; center := center j; trafficLights := trafficLights j;
     reflectors := reflectors j; reflectorChain := reflectorChain j;
     isAmbulanceApproaching := v;
     hasAmbulancePassed := hasAmbulancePassed j;
     currentPhaseIndex := currentPhaseIndex j;
     currentPhaseTimer := currentPhaseTimer j;
     isUnderNormalCycle := isUnderNormalCycle j |}.

Definition set_hasAmbulancePassed (v : bool) (j : Junction) : Junction :=
  {| id := id j; center := center j; trafficLights := trafficLights j;
     reflectors := reflectors j; reflectorChain := reflectorChain j;
     isAmbulanceApproaching := isAmbulanceApproaching j;
     hasAmbulancePassed := v;
     currentPhaseIndex := currentPhaseIndex j;
     currentPhaseTimer := currentPhaseTimer j;
     isUnderNormalCycle := isUnderNormalCycle j |}.

Definition set_currentPhaseIndex (v : nat) (j : Junction) : Junction :=
  {| id := id j; center := center j; trafficLights := trafficLights j;
     reflectors := reflectors j; reflectorChain := reflectorChain j;
     isAmbulanceApproaching := isAmbulanceApproaching j;
     hasAmbulancePassed := hasAmbulancePassed j;
     currentPhaseIndex := v;
     currentPhaseTimer := currentPhaseTimer j;
     isUnderNormalCycle := isUnderNormalCycle j |}.

Definition set_currentPhaseTimer (v : Q) (j : Junction) : Junction :=
  {| id := id j; center := center j; trafficLights := trafficLights j;
     reflectors := reflectors j; reflectorChain := reflectorChain j;
     isAmbulanceApproaching := isAmbulanceApproaching j;
     hasAmbulancePassed := hasAmbulancePassed j;
     currentPhaseIndex := currentPhaseIndex j;
     currentPhaseTimer := v;
     isUnderNormalCycle := isUnderNormalCycle j |}.

Definition set_isUnderNormalCycle (v : bool) (j : Junction) : Junction :=
  {| id := id j; center := center j; trafficLights := trafficLights j;
     reflectors := reflectors j; reflectorChain := reflectorChain j;
     isAmbulanceApproaching := isAmbulanceApproaching j;
     hasAmbulancePassed := hasAmbulancePassed j;
     currentPhaseIndex := currentPhaseIndex j;
     currentPhaseTimer := currentPhaseTimer j;
     isUnderNormalCycle := v |}.

(** The helper [setLight] of [applyJunctionPhaseState] on the light at
    [index]: [light?.setLightState(state, false, silent)]. *)
Definition setLight (silent : bool) (index : nat) (state : TrafficLight.LIGHT_STATE)
    (lights : list TrafficLight.t) : list TrafficLight.t :=
  alter (fun light => fst (TrafficLight.setLightState state false silent light))
    index lights.

(** [applyJunctionPhaseState(junction, silent)].  Lights are in the
    order TL0 south-bound, TL1 north-bound, TL2 west-bound, TL3
    east-bound. *)
Definition applyJunctionPhaseState (silent : bool) (junction : Junction) : Junction :=
  if (length (trafficLights junction) <? 4)%nat then junction
  else
    match JUNCTION_CYCLE_DEFINITION !! currentPhaseIndex junction with
    | None => junction
    | Some def =>
        let lights := trafficLights junction in
        let lights := setLight silent 0 TrafficLight.RED lights in
        let lights := setLight silent 1 TrafficLight.RED lights in
        let lights := setLight silent 2 TrafficLight.RED lights in
        let lights := setLight silent 3 TrafficLight.RED lights in
        let lights :=
          match phase def with
          | EW_GREEN =>
              setLight silent 2 TrafficLight.GREEN
                (setLight silent 3 TrafficLight.GREEN lights)
          | EW_YELLOW =>
              setLight silent 2 TrafficLight.YELLOW
                (setLight silent 3 TrafficLight.YELLOW lights)
          | NS_GREEN =>
              setLight silent 0 TrafficLight.GREEN
                (setLight silent 1 TrafficLight.GREEN lights)
          | NS_YELLOW =>
              setLight silent 0 TrafficLight.YELLOW
                (setLight silent 1 TrafficLight.YELLOW lights)
          | ALL_RED => lights
          end in
        set_trafficLights lights junction
    end.

(** The two branches of [controlTrafficLightsForJunction] on the
    junction that its lookup has found. *)
Definition givePriority (junction : Junction) : Junction :=
  let junction := set_isUnderNormalCycle false junction in
  let lights := trafficLights junction in
  let lights := alter (TrafficLight.setPriority true) 3%nat lights in
  let lights := alter (TrafficLight.setPriority true) 2%nat lights in
  let lights := alter (TrafficLight.setPriority false) 1%nat lights in
  let lights := alter (TrafficLight.setPriority false) 0%nat lights in
  set_trafficLights lights junction.

Definition releaseJunction (junction : Junction) : Junction :=
  let junction :=
    set_trafficLights (map TrafficLight.releasePriority (trafficLights junction))
      junction in
  let junction := set_isUnderNormalCycle true junction in
  let initialPhaseIndex :=
    match findIndex (fun p => phaseEqb (phase p) ALL_RED) JUNCTION_CYCLE_DEFINITION with
    | Some i => i
    | None => 0%nat
    end in
  let junction := set_currentPhaseIndex initialPhaseIndex junction in
  let junction :=
    set_currentPhaseTimer (phaseSeconds (currentPhaseIndex junction)) junction in
  applyJunctionPhaseState true junction.

(** [controlTrafficLightsForJunction(junctionId, givePriorityToAmbulance)]
    on the array [this.junctions]: the junction is the first one whose
    [id] is [junctionId]. *)
Definition controlTrafficLightsForJunction (junctionId : Z)
    (givePriorityToAmbulance : bool) (junctions : list Junction) : list Junction :=
  match findIndex (fun j => (id j =? junctionId)%Z) junctions with
  | None => junctions
  | Some i =>
      alter (if givePriorityToAmbulance then givePriority else releaseJunction)
        i junctions
  end.

(** The body of the [forEach] of [manageJunctionCycles]. *)
Definition cycleJunction (deltaTime : Q) (junction : Junction) : Junction :=
  if isUnderNormalCycle junction && (0 <? length (trafficLights junction))%nat
  then
    let junction :=
      set_currentPhaseTimer (currentPhaseTimer junction - deltaTime) junction in
    if currentPhaseTimer junction <=? 0
    then
      let junction :=
        set_currentPhaseIndex
          ((currentPhaseIndex junction + 1) mod length JUNCTION_CYCLE_DEFINITION)%nat
          junction in
      let junction :=
        set_currentPhaseTimer (phaseSeconds (currentPhaseIndex junction)) junction in
      applyJunctionPhaseState false junction
    else junction
  else junction.

Definition manageJunctionCycles (deltaTime : Q) (junctions : list Junction)
    : list Junction :=
  map (cycleJunction deltaTime) junctions.

(** [(JUNCTION_CYCLE_DEFINITION[index].duration || 1000) / 1000] in
    double arithmetic. *)
Definition phaseSeconds64 (index : nat) : Q :=
  match JUNCTION_CYCLE_DEFINITION !! index with
  | Some def => Binary64.div (JS.orElse (duration def) 1000) 1000
  | None => 0
  end.

(** The body of the [forEach] of [manageJunctionCycles] in double
    arithmetic: [cycleJunction] with its subtraction and its division
    rounded. *)
Definition cycleJunction64 (deltaTime : Q) (junction : Junction) : Junction :=
  if isUnderNormalCycle junction && (0 <? length (trafficLights junction))%nat
  then
    let junction :=
      set_currentPhaseTimer
        (Binary64.sub (currentPhaseTimer junction) deltaTime) junction in
    if currentPhaseTimer junction <=? 0
    then
      let junction :=
        set_currentPhaseIndex
          ((currentPhaseIndex junction + 1) mod length JUNCTION_CYCLE_DEFINITION)%nat
          junction in
      let junction :=
        set_currentPhaseTimer (phaseSeconds64 (currentPhaseIndex junction)) junction in
      applyJunctionPhaseState false junction
    else junction
  else junction.

Definition manageJunctionCycles64 (deltaTime : Q) (junctions : list Junction)
    : list Junction :=
  map (cycleJunction64 deltaTime) junctions.

(** *** updateAmbulanceLogic *)

(** The flag [ambulanceMovingTowardsJunction] of one pass of the
    [forEach] body. *)
Definition ambulanceMovingTowardsJunction (amb : Ambulance.t)
    (junctionCenter : Vector3.t) : bool :=
  let ambulancePos := Ambulance.getPosition amb in
  let byTarget :=
    match Ambulance.path amb !! Ambulance.currentPathIndex amb with
    | Some target =>
        let currentAmbulanceTargetX := Vector3.x target in
        if (currentAmbulanceTargetX - Vector3.x junctionCenter)
           * (Vector3.x ambulancePos - Vector3.x junctionCenter) <=? 0
        then true
        else
          (JS.sign (currentAmbulanceTargetX - Vector3.x ambulancePos)
           =? JS.sign (Vector3.x junctionCenter - Vector3.x ambulancePos))
          && (JS.abs (Vector3.x junctionCenter - Vector3.x ambulancePos)
              <? JS.abs (currentAmbulanceTargetX - Vector3.x ambulancePos))
    | None => false
    end in
  if Vector3.distanceLt ambulancePos junctionCenter
       (Config.junctionSize * (15 / 10))
  then true else byTarget.

(** The assignments that follow a call
    [controlTrafficLightsForJunction(junction.id, true)]. *)
Definition markApproaching (junction : Junction) : Junction :=
  set_isUnderNormalCycle false (set_isAmbulanceApproaching true junction).

(** "Preemption Logic based on radius", for the junction at position
    [k] of the array. *)
Definition proximityPhase (amb : Ambulance.t) (moving : bool) (k : nat)
    (junctions : list Junction) : list Junction :=
  match junctions !! k with
  | None => junctions
  | Some junction =>
      let preemptionRadius := JS.orElse Config.ambulancePreemptionRadius 150 in
      if negb (isAmbulanceApproaching junction) && moving
         && Vector3.distanceLt (Ambulance.getPosition amb) (center junction)
              preemptionRadius
      then
        alter markApproaching k
          (controlTrafficLightsForJunction (id junction) true junctions)
      else junctions
  end.

(** [junction.reflectorChain.includes(reflector)]. *)
Definition includes (chain : list nat) (reflector : nat) : bool :=
  existsb (Nat.eqb reflector) chain.

(** The position of the reflector that was chained last,
    [reflectorChain[reflectorChain.length-1].group.position]. *)
Definition lastChainedPosition (junction : Junction) : option Vector3.t :=
  match last (reflectorChain junction) with
  | Some m => SmartReflector.position <$> reflectors junction !! m
  | None => None
  end.

(** The test that lets a reflector fire. *)
Definition reflectorFires (ambulancePos : Vector3.t) (junction : Junction)
    (reflector : SmartReflector.t) : bool :=
  SmartReflector.canDetectAmbulance reflector ambulancePos
  || ((0 <? length (reflectorChain junction))%nat
      && match lastChainedPosition junction with
         | Some p => SmartReflector.isAmbulanceNear reflector p
         | None => false
         end).

(** The [for ... of junction.reflectors] loop up to its [break]:
    the reference of the reflector that fires, [i] being the reference
    of the head of [rest]. *)
Fixpoint scanReflectors (ambulancePos : Vector3.t) (junction : Junction)
    (i : nat) (rest : list SmartReflector.t) : option nat :=
  match rest with
  | [] => None
  | reflector :: rest' =>
      if includes (reflectorChain junction) i
      then scanReflectors ambulancePos junction (S i) rest'
      else if reflectorFires ambulancePos junction reflector
      then Some i
      else scanReflectors ambulancePos junction (S i) rest'
  end.

(** [reflector.triggerSignal(); junction.reflectorChain.push(reflector)]
    under its guard. *)
Definition chainReflector (r : nat) (junction : Junction) : Junction :=
  if negb (includes (reflectorChain junction) r)
  then
    set_reflectorChain (reflectorChain junction ++ [r])
      (set_reflectors (alter SmartReflector.triggerSignal r (reflectors junction))
         junction)
  else junction.

(** "Reflector Activation Logic". *)
Definition reflectorPhase (amb : Ambulance.t) (moving : bool) (k : nat)
    (junctions : list Junction) : list Junction :=
  match junctions !! k with
  | None => junctions
  | Some junction =>
      if (0 <? length (reflectors junction))%nat && moving
      then
        match scanReflectors (Ambulance.getPosition amb) junction 0
                (reflectors junction) with
        | Some r =>
            let junctions := alter (chainReflector r) k junctions in
            if negb (isAmbulanceApproaching junction)
            then
              alter markApproaching k
                (controlTrafficLightsForJunction (id junction) true junctions)
            else junctions
        | None => junctions
        end
      else junctions
  end.

Definition ambulanceDirectionX (amb : Ambulance.t) : Q :=
  let path := Ambulance.path amb in
  let index := Ambulance.currentPathIndex amb in
  let ambulancePos := Ambulance.getPosition amb in
  if (1 <? length path)%nat && (S index <? length path)%nat
  then
    match path !! S index with
    | Some next => JS.sign (Vector3.x next - Vector3.x ambulancePos)
    | None => 0
    end
  else if (0 <? length path)%nat && (index <? length path)%nat
  then
    match path !! index with
    | Some target => JS.sign (Vector3.x target - Vector3.x ambulancePos)
    | None => 0
    end
  else 0.

Definition passedJunctionThreshold : Q :=
  Config.junctionSize / 2 + Config.roadWidth.

Definition hasPhysicallyPassedJunction (amb : Ambulance.t) (junction : Junction) : bool :=
  let ambulancePos := Ambulance.getPosition amb in
  if ambulanceDirectionX amb >? 0
  then Vector3.x ambulancePos >? Vector3.x (center junction) + passedJunctionThreshold
  else if ambulanceDirectionX amb <? 0
  then Vector3.x ambulancePos <? Vector3.x (center junction) - passedJunctionThreshold
  else false.

Definition targetIsPastJunction (amb : Ambulance.t) (junction : Junction) : bool :=
  let path := Ambulance.path amb in
  let index := Ambulance.currentPathIndex amb in
  match path !! index with
  | Some currentTargetPathPoint =>
      ((ambulanceDirectionX amb >? 0)
       && (Vector3.x currentTargetPathPoint
           >? Vector3.x (center junction) + passedJunctionThreshold))
      || ((ambulanceDirectionX amb <? 0)
          && (Vector3.x currentTargetPathPoint
              <? Vector3.x (center junction) - passedJunctionThreshold))
      || (S index =? length path)%nat
  | None => (length path <=? S index)%nat
  end.

(** The condition under which the source logs "Ambulance has passed
    Junction" and releases the lights. *)
Definition releaseFires (amb : Ambulance.t) (junction : Junction) : bool :=
  isAmbulanceApproaching junction
  && hasPhysicallyPassedJunction amb junction
  && targetIsPastJunction amb junction.

(** The assignments that follow a call
    [controlTrafficLightsForJunction(junction.id, false)]. *)
Definition markPassed (junction : Junction) : Junction :=
  set_isUnderNormalCycle true
    (set_reflectorChain []
       (set_hasAmbulancePassed true
          (set_isAmbulanceApproaching false junction))).

(** "Logic for when ambulance has passed a junction". *)
Definition releasePhase (amb : Ambulance.t) (k : nat)
    (junctions : list Junction) : list Junction :=
  match junctions !! k with
  | None => junctions
  | Some junction =>
      if releaseFires amb junction
      then
        alter markPassed k
          (controlTrafficLightsForJunction (id junction) false junctions)
      else junctions
  end.

(** One pass of the [forEach] body of [updateAmbulanceLogic], for the
    junction at position [k]. *)
Definition junctionTick (amb : Ambulance.t) (k : nat)
    (junctions : list Junction) : list Junction :=
  match junctions !! k with
  | None => junctions
  | Some junction =>
      if hasAmbulancePassed junction then junctions
      else
        let moving := ambulanceMovingTowardsJunction amb (center junction) in
        let junctions := proximityPhase amb moving k junctions in
        let junctions := reflectorPhase amb moving k junctions in
        releasePhase amb k junctions
  end.

Definition updateAmbulanceLogic (ambulance : option Ambulance.t)
    (junctions : list Junction) : list Junction :=
  match ambulance with
  | None => junctions
  | Some amb =>
      if negb (Ambulance.model amb) || (length (Ambulance.path amb) =? 0)%nat
      then junctions
      else if (length (Ambulance.path amb) <=? Ambulance.currentPathIndex amb)%nat
      then junctions
      else
        foldl (fun junctions k => junctionTick amb k junctions) junctions
          (seq 0 (length junctions))
  end.

(** *** updateCarLogic *)

(** [ambulanceActive] of [updateCarLogic]. *)
Definition ambulanceActive (ambulance : option Ambulance.t) : bool :=
  match ambulance with
  | None => false
  | Some amb =>
      Ambulance.model amb
      && (Ambulance.currentPathIndex amb <? length (Ambulance.path amb))%nat
      && negb (Ambulance.isDeactivating amb)
      && negb (Ambulance.hasFadedOut amb)
  end.

(** [ambulancePos] of [updateCarLogic], [null] unless the ambulance is
    active. *)
Definition activeAmbulancePos (ambulance : option Ambulance.t) : option Vector3.t :=
  match ambulance with
  | Some amb =>
      if ambulanceActive ambulance then Some (Ambulance.getPosition amb) else None
  | None => None
  end.

(** [ambulanceLaneZ] of [updateCarLogic]. *)
Definition ambulanceLaneZ (ambulance : option Ambulance.t) : Q :=
  match ambulance with
  | Some amb =>
      if ambulanceActive ambulance
      then match Ambulance.path amb !! Ambulance.currentPathIndex amb with
           | Some target => Vector3.z target
           | None => Config.ambulanceLaneOffsetZ
           end
      else Config.ambulanceLaneOffsetZ
  | None => Config.ambulanceLaneOffsetZ
  end.

(** The loop that finds the junction and the light relevant to a car;
    it stops at the first junction in range. *)
Fixpoint findRelevantLight (car : ProceduralCar.t) (junctions : list Junction)
    : option (Junction * TrafficLight.t) :=
  match junctions with
  | [] => None
  | j_data :: rest =>
      let carSpeedSign := JS.sign (ProceduralCar.speed car) in
      let distToJunctionX :=
        (Vector3.x (center j_data) - Vector3.x (ProceduralCar.position car))
        * carSpeedSign in
      if (distToJunctionX >? - ProceduralCar.length car)
         && (distToJunctionX <? Config.carDetectionDistanceToJunction + 5)
      then
        if (4 <=? length (trafficLights j_data))%nat
        then
          match trafficLights j_data !! (if carSpeedSign >? 0 then 3 else 2)%nat with
          | Some relevantTrafficLight => Some (j_data, relevantTrafficLight)
          | None => None
          end
        else None
      else findRelevantLight car rest
  end.

(** [ambulanceIsVeryCloseAndNeedsWay] for one car. *)
Definition veryCloseAndNeedsWay (ambulancePos : option Vector3.t)
    (car : ProceduralCar.t) : bool :=
  match ambulancePos with
  | Some pos =>
      let dX := Vector3.x (ProceduralCar.position car) - Vector3.x pos in
      let dZ := JS.abs (Vector3.z (ProceduralCar.position car) - Vector3.z pos) in
      (dX >? - Config.carEvadeDistance / 2)
      && (dX <? ProceduralCar.length car * 2)
      && (dZ <? Config.laneWidth * (15 / 10))
  | None => false
  end.

(** The part of the [forEach] body that follows [car.update]. *)
Definition reactToAmbulance (ambulancePos : option Vector3.t) (laneZ : Q)
    (needsWay : bool) (car : ProceduralCar.t) : ProceduralCar.t :=
  match ambulancePos with
  | Some pos =>
      let dX := Vector3.x (ProceduralCar.position car) - Vector3.x pos in
      let carIsGenerallyAheadOrOverlap :=
        ((ProceduralCar.speed car >? 0)
         && (dX >? - ProceduralCar.length car * (15 / 10)))
        || ((ProceduralCar.speed car <? 0)
            && (dX <? ProceduralCar.length car * (15 / 10))) in
      let inProximityXForEvasion := JS.abs dX <? Config.carEvadeDistance in
      if carIsGenerallyAheadOrOverlap && inProximityXForEvasion
      then
        let car :=
          if negb (ProceduralCar.isEvading car)
          then ProceduralCar.startEvade laneZ car else car in
        if ProceduralCar.isEvading car && ProceduralCar.isStoppedForLight car
           && needsWay
        then
          ProceduralCar.set_currentSpeed (ProceduralCar.speed car * (25 / 100))
            (ProceduralCar.set_isStoppedForLight false car)
        else car
      else
        if ProceduralCar.isEvading car then ProceduralCar.stopEvade car else car
  | None =>
      let car :=
        if ProceduralCar.isEvading car then ProceduralCar.stopEvade car else car in
      if negb (ProceduralCar.isStoppedForLight car)
         && (JS.abs (ProceduralCar.currentSpeed car)
             <? JS.abs (ProceduralCar.speed car))
      then ProceduralCar.set_currentSpeed (ProceduralCar.speed car) car
      else car
  end.

(** The [forEach] body of [updateCarLogic] for one car. *)
Definition carTick `{Three} (deltaTime : Q) (ambulance : option Ambulance.t)
    (junctions : list Junction) (car : ProceduralCar.t) : ProceduralCar.t :=
  let ambulancePos := activeAmbulancePos ambulance in
  let needsWay := veryCloseAndNeedsWay ambulancePos car in
  let car :=
    match findRelevantLight car junctions with
    | Some (relevantJunctionData, relevantTrafficLight) =>
        ProceduralCar.checkAndHandleTrafficLight
          (Some (center relevantJunctionData)) (Some relevantTrafficLight)
          needsWay car
    | None => ProceduralCar.set_isStoppedForLight false car
    end in
  let car := ProceduralCar.update deltaTime car in
  reactToAmbulance ambulancePos (ambulanceLaneZ ambulance) needsWay car.

Definition updateCarLogic `{Three} (deltaTime : Q) (ambulance : option Ambulance.t)
    (junctions : list Junction) (cars : list ProceduralCar.t)
    : list ProceduralCar.t :=
  map (carTick deltaTime ambulance junctions) cars.

(** *** The simulation object *)

Record t : Type :=
  { road : Road.t;
    junctions : list Junction;
    ambulance : option Ambulance.t;
    proceduralCars : list ProceduralCar.t }.

(** The four lights that [setupEnvironment] gives to junction [i]. *)
Definition newTrafficLights (i : Z) : list TrafficLight.t :=
  map (fun index : nat =>
         TrafficLight.create ("J" +:+ pretty i +:+ "_TL" +:+ pretty index))
    (seq 0 4).

(** The body of the [for] loop of [setupEnvironment]: the junction of
    index [i], or nothing when the road has no centre for it. *)
Definition setupJunction (road : Road.t) (i : Z) : option Junction :=
  match fst (Road.getJunctionCenter road i) with
  | None => None
  | Some junctionCenter =>
      let junctionData :=
        {| id := i; center := junctionCenter;
           trafficLights := newTrafficLights i;
           reflectors := []; reflectorChain := [];
           isAmbulanceApproaching := false; hasAmbulancePassed := false;
           currentPhaseIndex := 0;
           currentPhaseTimer := phaseSeconds 0;
           isUnderNormalCycle := true |} in
      let junctionData := applyJunctionPhaseState false junctionData in
      let reflectorPositions := fst (Road.getReflectorPositions road i "west") in
      Some (set_reflectors (map SmartReflector.create reflectorPositions)
              junctionData)
  end.

Definition setupEnvironment (road : Road.t) : list Junction :=
  omap (fun i : nat => setupJunction road (Z.of_nat i))
    (seq 0 Config.numJunctions).

(** A car as [setupProceduralAssets] makes it; the four arguments are
    the random draws. *)
Definition spawnCar (carTravelDir carLaneRelDir carXPos speedDraw : Q)
    : ProceduralCar.t :=
  let carZPos := Config.laneWidth / 2 * carLaneRelDir in
  let car := ProceduralCar.create (Vector3.mk carXPos 0 carZPos) in
  {| ProceduralCar.position := ProceduralCar.position car;
     ProceduralCar.length := ProceduralCar.length car;
     ProceduralCar.carWidth := ProceduralCar.carWidth car;
     ProceduralCar.height := ProceduralCar.height car;
     ProceduralCar.lane := carLaneRelDir;
     ProceduralCar.initialZ := carZPos;
     ProceduralCar.speed := speedDraw * carTravelDir;
     ProceduralCar.isEvading := ProceduralCar.isEvading car;
     ProceduralCar.targetZ := carZPos;
     ProceduralCar.currentSpeed := ProceduralCar.currentSpeed car;
     ProceduralCar.isStoppedForLight := ProceduralCar.isStoppedForLight car |}.

(** [setupAmbulance]. *)
Definition setupAmbulance (road : Road.t) : option Ambulance.t :=
  match Road.getAmbulancePath road with
  | [] => None
  | ambulancePath => Some (Ambulance.create ambulancePath)
  end.

(** [new Simulation()], given the cars drawn by
    [setupProceduralAssets]. *)
Definition create (cars : list ProceduralCar.t) : t :=
  let road := Road.create in
  {| road := road;
     junctions := setupEnvironment road;
     ambulance := setupAmbulance road;
     proceduralCars := cars |}.

(** [animate()], [clockDelta] being the value of [clock.getDelta()]. *)
Definition animate `{Three} (clockDelta : Q) (s : t) : t :=
  let deltaTime := Qmin clockDelta (5 / 100) in
  let '(ambulance, junctions) :=
    match ambulance s with
    | Some amb =>
        let amb := Ambulance.update deltaTime amb in
        if Ambulance.hasFadedOut amb
        then (None, junctions s)
        else (Some amb, updateAmbulanceLogic (Some amb) (junctions s))
    | None => (None, junctions s)
    end in
  let junctions := manageJunctionCycles deltaTime junctions in
  {| road := road s;
     junctions := junctions;
     ambulance := ambulance;
     proceduralCars :=
       updateCarLogic deltaTime ambulance junctions (proceduralCars s) |}.

(** What can happen between two states of the simulation: an animation
    frame, the timer that activates the ambulance (more than once here,
    to cover a re-activation), the end of the loading of the ambulance
    model, and the timer that ends the pulse of a reflector. *)
Inductive event : Type :=
| Frame (clockDelta : Q)
| ActivateAmbulance
| AmbulanceModelLoaded
| ReflectorSignalTimeout (junction reflector : nat).

Definition step `{Three} (e : event) (s : t) : t :=
  match e with
  | Frame clockDelta => animate clockDelta s
  | ActivateAmbulance =>
      {| road := road s; junctions := junctions s;
         ambulance := Ambulance.activate <$> ambulance s;
         proceduralCars := proceduralCars s |}
  | AmbulanceModelLoaded =>
      {| road := road s; junctions := junctions s;
         ambulance := Ambulance.modelLoaded <$> ambulance s;
         proceduralCars := proceduralCars s |}
  | ReflectorSignalTimeout k r =>
      {| road := road s;
         junctions :=
           alter (fun j => set_reflectors
                             (alter SmartReflector.signalTimeout r (reflectors j)) j)
             k (junctions s);
         ambulance := ambulance s;
         proceduralCars := proceduralCars s |}
  end.

Definition run `{Three} (events : list event) (s : t) : t :=
  foldl (fun s e => step e s) s events.

(** *** Building placement *)

(** The rectangles of [getNoBuildZones]. *)
Record Zone : Type :=
  { minX : Q; maxX : Q; minZ : Q; maxZ : Q; type : string }.

(** [getNoBuildZones()]: the east-west road corridor, then one
    north-south corridor for each junction centre of the road. *)
Definition getNoBuildZones (road : Road.t) : list Zone :=
  let roadBuffer := 2 in
  let footpathTotalWidth := JS.orElse Config.footpathWidth (15 / 10) + 1 / 10 in
  let totalRoadLengthEW :=
    (inject_Z (Z.of_nat Config.numJunctions) + 1) * Config.roadLength
    + inject_Z (Z.of_nat Config.numJunctions) * Config.junctionSize in
  let ewRoadCorridorWidth :=
    Config.roadWidth + footpathTotalWidth * 2 + roadBuffer * 2 in
  {| minX := - totalRoadLengthEW / 2 - Config.roadLength * (8 / 10);
     maxX := totalRoadLengthEW / 2 + Config.roadLength * (8 / 10);
     minZ := - ewRoadCorridorWidth / 2;
     maxZ := ewRoadCorridorWidth / 2;
     type := "ew_road_corridor" |}
  :: map (fun center =>
            let nsRoadCorridorLength :=
              Config.roadLength + Config.junctionSize + roadBuffer * 2 in
            let nsRoadCorridorWidth :=
              Config.roadWidth + footpathTotalWidth * 2 + roadBuffer * 2 in
            {| minX := Vector3.x center - nsRoadCorridorWidth / 2;
               maxX := Vector3.x center + nsRoadCorridorWidth / 2;
               minZ := Vector3.z center - nsRoadCorridorLength / 2;
               maxZ := Vector3.z center + nsRoadCorridorLength / 2;
               type := "ns_road_at_junction" |})
       (Road.junctionCenters road).

(** [isPositionSafeForBuilding(posX, posZ, buildingFootprintWidth,
    buildingFootprintDepth, noBuildZones)]: the loop returns [false] at
    the first zone that the footprint overlaps. *)
Fixpoint isPositionSafeForBuilding (posX posZ buildingFootprintWidth
    buildingFootprintDepth : Q) (noBuildZones : list Zone) : bool :=
  match noBuildZones with
  | [] => true
  | zone :: rest =>
      let buildingMinX := posX - buildingFootprintWidth / 2 in
      let buildingMaxX := posX + buildingFootprintWidth / 2 in
      let buildingMinZ := posZ - buildingFootprintDepth / 2 in
      let buildingMaxZ := posZ + buildingFootprintDepth / 2 in
      let xOverlap :=
        Qmax 0 (Qmin buildingMaxX (maxX zone) - Qmax buildingMinX (minX zone)) in
      let zOverlap :=
        Qmax 0 (Qmin buildingMaxZ (maxZ zone) - Qmax buildingMinZ (minZ zone)) in
      if (xOverlap >? 0) && (zOverlap >? 0) then false
      else isPositionSafeForBuilding posX posZ buildingFootprintWidth
             buildingFootprintDepth rest
  end.


End Simulation.

(** ** js/ProceduralPedestrian.js *)

(** [Math.sin], taken as given like the functions of three.js. *)
Class Trig : Type := { sin : Q -> Q }.

Module ProceduralPedestrian.

Record t : Type :=
  { position : Vector3.t;        (* [group.position] *)
    height : Q;
    walkPhase : Q;
    baseY : Q;
    speed : Q;
    direction : Q;               (* 1 for +X, -1 for -X *)
    footpathZ : Q;
    movementAxis : string }.

(** [new ProceduralPedestrian(scene, position, height, color)];
    [walkPhaseDraw] is the random start of the walk animation. *)
Definition create (pos : Vector3.t) (pedHeight walkPhaseDraw : Q) : t :=
  {| position := pos; height := pedHeight; walkPhase := walkPhaseDraw;
     baseY := Vector3.y pos + pedHeight / 2;
     speed := 2 / 100; direction := 1; footpathZ := Vector3.z pos;
     movementAxis := "x" |}.

Definition update `{Three} `{Trig} (deltaTime : Q) (p : t) : t :=
  let walkPhase := walkPhase p + deltaTime * 7 * (speed p / (2 / 100)) in
  let actualBaseY := baseY p in
  let y := actualBaseY + sin walkPhase * (4 / 100) in
  let x := Vector3.x (position p) in
  let z := Vector3.z (position p) in
  let x :=
    if String.eqb (movementAxis p) "x"
    then x + speed p * direction p * deltaTime * 60 else x in
  let z :=
    if String.eqb (movementAxis p) "x"
    then if JS.abs (z - footpathZ p) >? 5 / 100
         then damp z (footpathZ p) 3 deltaTime else z
    else z in
  let roadExtentX :=
    (inject_Z (Z.of_nat Config.numJunctions) * Config.junctionSize
     + (inject_Z (Z.of_nat Config.numJunctions) + 1) * Config.roadLength) / 2
    + 30 in
  let x :=
    if (x >? roadExtentX) && (direction p =? 1) then - roadExtentX
    else if (x <? - roadExtentX) && (direction p =? - (1)) then roadExtentX
    else x in
  {| position := Vector3.mk x y z; height := height p;
     walkPhase := walkPhase; baseY := baseY p; speed := speed p;
     direction := direction p; footpathZ := footpathZ p;
     movementAxis := movementAxis p |}.

End ProceduralPedestrian.


(** ** A computable stand-in for three.js *)

(** Used to run the model on examples.  [normalize] is exact on the
    vectors along the x axis, which are the ones of the ambulance path
    of [Road.getAmbulancePath]; [damp] replaces the exponential factor
    [1 - exp (- lambda * dt)] by [lambda * dt / (1 + lambda * dt)]. *)
Definition rationalThree : Three :=
  {| damp := fun a b lambda dt =>
       a + (b - a) * (lambda * dt / (1 + lambda * dt));
     normalize := fun v =>
       let n := JS.abs (Vector3.x v) + JS.abs (Vector3.y v) + JS.abs (Vector3.z v) in
       if n =? 0 then v
       else Vector3.mk (Vector3.x v / n) (Vector3.y v / n) (Vector3.z v / n) |}.

(** ** A computable stand-in for [Math.sin] *)

(** Used to run the pedestrians on examples: the sine is replaced by
    the first two terms of its series. *)
Definition rationalTrig : Trig :=
  {| sin := fun a => a - a * a * a / 6 |}.


(** * Vocabulary of the specification *)

Module Spec.

(** The phase to light mapping as the specification words it, for the
    lights in the order south-bound, north-bound, west-bound,
    east-bound. *)
Definition phaseColours (p : Simulation.JUNCTION_PHASES)
    : list TrafficLight.LIGHT_STATE :=
  match p with
  | Simulation.EW_GREEN =>
      [TrafficLight.RED; TrafficLight.RED; TrafficLight.GREEN; TrafficLight.GREEN]
  | Simulation.EW_YELLOW =>
      [TrafficLight.RED; TrafficLight.RED; TrafficLight.YELLOW; TrafficLight.YELLOW]
  | Simulation.NS_GREEN =>
      [TrafficLight.GREEN; TrafficLight.GREEN; TrafficLight.RED; TrafficLight.RED]
  | Simulation.NS_YELLOW =>
      [TrafficLight.YELLOW; TrafficLight.YELLOW; TrafficLight.RED; TrafficLight.RED]
  | Simulation.ALL_RED =>
      [TrafficLight.RED; TrafficLight.RED; TrafficLight.RED; TrafficLight.RED]
  end.

(** No light of the junction is under a priority override. *)
Definition lightsFree (j : Simulation.Junction) : Prop :=
  Forall (fun l => TrafficLight.isOverridden l = false)
    (Simulation.trafficLights j).

(** A junction under normal cycle has no overridden light. *)
Definition normalMeansFree (j : Simulation.Junction) : Prop :=
  Simulation.isUnderNormalCycle j = true -> lightsFree j.

(** An index that [Road] rejects. *)
Definition outOfRange (road : Road.t) (junctionIndex : Z) : Prop :=
  (junctionIndex < 0
   \/ Z.of_nat (length (Road.junctionCenters road)) <= junctionIndex)%Z.

(** A junction as [setupEnvironment] makes it, for the examples: the
    middle junction of the road of [Config], without reflectors. *)
Definition exampleJunction : Simulation.Junction :=
  Simulation.applyJunctionPhaseState false
    {| Simulation.id := 1;
       Simulation.center := Vector3.mk 0 Config.roadSurfaceY 0;
       Simulation.trafficLights := Simulation.newTrafficLights 1;
       Simulation.reflectors := [];
       Simulation.reflectorChain := [];
       Simulation.isAmbulanceApproaching := false;
       Simulation.hasAmbulancePassed := false;
       Simulation.currentPhaseIndex := 0;
       Simulation.currentPhaseTimer := Simulation.phaseSeconds 0;
       Simulation.isUnderNormalCycle := true |}.

(** *** The light cycle *)






(** [manageJunctionCycles] on one junction, frame after frame, in
    double arithmetic. *)
Definition runCycle64 (ticks : list Q) (j : Simulation.Junction)
    : Simulation.Junction :=
  foldl (fun j deltaTime => Simulation.cycleJunction64 deltaTime j) j ticks.





(** The frame time at the cap of [animate]: the double nearest to
    0.05. *)
Definition cappedFrame : Q := Binary64.round (5 / 100).

(** *** Preemption *)

(** The ambulance and its current path target are both beyond the
    release threshold past the junction centre, in the direction of
    travel that [updateAmbulanceLogic] computes. *)
Definition pastThreshold (amb : Ambulance.t) (junctionCenter : Vector3.t) : Prop :=
  exists target,
    Ambulance.path amb !! Ambulance.currentPathIndex amb = Some target
    /\ let threshold := Simulation.passedJunctionThreshold in
       let positionX := Vector3.x (Ambulance.getPosition amb) in
       (0 < Simulation.ambulanceDirectionX amb
        /\ Vector3.x junctionCenter + threshold < positionX
        /\ Vector3.x junctionCenter + threshold < Vector3.x target)
       \/ (Simulation.ambulanceDirectionX amb < 0
           /\ positionX < Vector3.x junctionCenter - threshold
           /\ Vector3.x target < Vector3.x junctionCenter - threshold).

(** What one frame may do to a junction, as far as its release goes:
    the centre stays, and [hasAmbulancePassed] becomes true only when
    the ambulance and its target are past the threshold. *)
Definition releasedOnlyPast (amb : Ambulance.t)
    (j j' : Simulation.Junction) : Prop :=
  Simulation.center j' = Simulation.center j
  /\ (Simulation.hasAmbulancePassed j' = true ->
      Simulation.hasAmbulancePassed j = true
      \/ pastThreshold amb (Simulation.center j)).

(** Junction ids are pairwise distinct, as [setupEnvironment] makes
    them. *)
Definition uniqueIds (junctions : list Simulation.Junction) : Prop :=
  NoDup (map Simulation.id junctions).

(** A function on junctions that touches neither the centre nor
    [hasAmbulancePassed]. *)
Definition neutral (f : Simulation.Junction -> Simulation.Junction) : Prop :=
  forall j, Simulation.center (f j) = Simulation.center j
            /\ Simulation.hasAmbulancePassed (f j)
               = Simulation.hasAmbulancePassed j.

(** The junctions [now] are reached from the junctions [before] within
    one frame. *)
Definition withinFrame (amb : Ambulance.t)
    (before now : list Simulation.Junction) : Prop :=
  Forall2 (releasedOnlyPast amb) before now.

(** *** The reflector chain *)

(** The condition that lets a sensor fire, as the specification words
    it: the sensor detects the ambulance directly, or the chain is not
    empty and the sensor is near the sensor chained last. *)
Definition mayFire (ambulancePos : Vector3.t) (j : Simulation.Junction)
    (reflector : SmartReflector.t) : Prop :=
  SmartReflector.canDetectAmbulance reflector ambulancePos = true
  \/ (Simulation.reflectorChain j <> []
      /\ exists m lastChained,
           last (Simulation.reflectorChain j) = Some m
           /\ Simulation.reflectors j !! m = Some lastChained
           /\ SmartReflector.isAmbulanceNear reflector
                (SmartReflector.position lastChained) = true).

(** The reflector of reference [i] is not in the chain yet and may
    fire. *)
Definition candidate (ambulancePos : Vector3.t) (j : Simulation.Junction)
    (i : nat) : Prop :=
  exists reflector,
    Simulation.reflectors j !! i = Some reflector
    /\ (i ∉ Simulation.reflectorChain j)
    /\ mayFire ambulancePos j reflector.

(** [r] is the first candidate in placement order. *)
Definition firstCandidate (ambulancePos : Vector3.t) (j : Simulation.Junction)
    (r : nat) : Prop :=
  candidate ambulancePos j r
  /\ forall i, (i < r)%nat -> ~ candidate ambulancePos j i.


(** *** The frame on one junction *)

(** The three blocks of the [forEach] body of [updateAmbulanceLogic] on
    a junction that [controlTrafficLightsForJunction] finds by its
    [id], which is the case when ids are distinct. *)
Definition proximityStep (amb : Ambulance.t) (moving : bool)
    (j : Simulation.Junction) : Simulation.Junction :=
  if negb (Simulation.isAmbulanceApproaching j) && moving
     && Vector3.distanceLt (Ambulance.getPosition amb) (Simulation.center j)
          (JS.orElse Config.ambulancePreemptionRadius 150)
  then Simulation.markApproaching (Simulation.givePriority j)
  else j.

Definition reflectorStep (amb : Ambulance.t) (moving : bool)
    (j : Simulation.Junction) : Simulation.Junction :=
  if (0 <? length (Simulation.reflectors j))%nat && moving
  then
    match Simulation.scanReflectors (Ambulance.getPosition amb) j 0
            (Simulation.reflectors j) with
    | Some r =>
        if negb (Simulation.isAmbulanceApproaching j)
        then Simulation.markApproaching
               (Simulation.givePriority (Simulation.chainReflector r j))
        else Simulation.chainReflector r j
    | None => j
    end
  else j.

Definition releaseStep (amb : Ambulance.t) (j : Simulation.Junction)
    : Simulation.Junction :=
  if Simulation.releaseFires amb j
  then Simulation.markPassed (Simulation.releaseJunction j)
  else j.

Definition junctionStep (amb : Ambulance.t) (j : Simulation.Junction)
    : Simulation.Junction :=
  if Simulation.hasAmbulancePassed j then j
  else
    let moving :=
      Simulation.ambulanceMovingTowardsJunction amb (Simulation.center j) in
    releaseStep amb (reflectorStep amb moving (proximityStep amb moving j)).

(** [updateAmbulanceLogic] gets past its two guards. *)
Definition ambulanceOnPath (amb : Ambulance.t) : bool :=
  Ambulance.model amb
  && (Ambulance.currentPathIndex amb <? length (Ambulance.path amb))%nat.

(** A function on junctions that keeps the [id]. *)
Definition keepsId (f : Simulation.Junction -> Simulation.Junction) : Prop :=
  forall j, Simulation.id (f j) = Simulation.id j.


(** *** The life of a junction *)

(** A junction is at stage 0 until it is preempted, at stage 1 while
    it is preempted, and at stage 2 once the ambulance has passed. *)
Definition stage (j : Simulation.Junction) : nat :=
  if Simulation.hasAmbulancePassed j then 2
  else if Simulation.isAmbulanceApproaching j then 1
  else 0.

(** Between [j] and [j'] the junction has entered PREEMPTED: it was not
    preempted, and now it is, or it has been and was released at
    once. *)
Definition enters (j j' : Simulation.Junction) : bool :=
  negb (Simulation.isAmbulanceApproaching j)
  && (Simulation.isAmbulanceApproaching j'
      || (negb (Simulation.hasAmbulancePassed j)
          && Simulation.hasAmbulancePassed j')).

Definition entersAt (k : nat) (s s' : Simulation.t) : bool :=
  match Simulation.junctions s !! k, Simulation.junctions s' !! k with
  | Some j, Some j' => enters j j'
  | _, _ => false
  end.

(** The number of events of a run at which the junction at position
    [k] enters PREEMPTED. *)
Fixpoint entries `{Three} (k : nat) (events : list Simulation.event)
    (s : Simulation.t) : nat :=
  match events with
  | [] => 0
  | e :: events' =>
      let s' := Simulation.step e s in
      ((if entersAt k s s' then 1 else 0) + entries k events' s')%nat
  end.

(** What an event may do to the flags of a junction: the stage does
    not go down, and at stage 2 the flags stay. *)
Definition advances (j j' : Simulation.Junction) : Prop :=
  (stage j <= stage j')%nat
  /\ (Simulation.hasAmbulancePassed j = true ->
      Simulation.isAmbulanceApproaching j' = Simulation.isAmbulanceApproaching j).

(** A function on junctions that keeps both flags. *)
Definition keepsFlags (f : Simulation.Junction -> Simulation.Junction) : Prop :=
  forall j,
    Simulation.isAmbulanceApproaching (f j) = Simulation.isAmbulanceApproaching j
    /\ Simulation.hasAmbulancePassed (f j) = Simulation.hasAmbulancePassed j.


(** *** Cars *)

(** A car that is stopped for a light stands still. *)
Definition stoppedMeansStill (c : ProceduralCar.t) : Prop :=
  ProceduralCar.isStoppedForLight c = true -> ProceduralCar.currentSpeed c = 0.

(** A function on cars that touches neither [isStoppedForLight] nor
    [currentSpeed]. *)
Definition keepsMotion (f : ProceduralCar.t -> ProceduralCar.t) : Prop :=
  forall c,
    ProceduralCar.isStoppedForLight (f c) = ProceduralCar.isStoppedForLight c
    /\ ProceduralCar.currentSpeed (f c) = ProceduralCar.currentSpeed c.

(** The two cars agree on what the stop and speed tests read. *)
Definition sameDrive (c c' : ProceduralCar.t) : Prop :=
  ProceduralCar.isStoppedForLight c' = ProceduralCar.isStoppedForLight c
  /\ ProceduralCar.currentSpeed c' = ProceduralCar.currentSpeed c
  /\ ProceduralCar.isEvading c' = ProceduralCar.isEvading c
  /\ ProceduralCar.speed c' = ProceduralCar.speed c.

(** The ambulance is in its fade-out window: it has reached the end of
    its path and the fade is not complete. *)
Definition fading (amb : Ambulance.t) : Prop :=
  Ambulance.isDeactivating amb = true /\ Ambulance.hasFadedOut amb = false.


(** *** States for the examples *)

(** The ambulance of the road of [Config], loaded, between the middle
    junction and the next waypoint, one unit beyond the release
    threshold of the middle junction. *)
Definition passingAmbulance : Ambulance.t :=
  {| Ambulance.path := Road.getAmbulancePath Road.create;
     Ambulance.currentPathIndex := 7;
     Ambulance.speed := Config.ambulanceSpeed;
     Ambulance.position := Vector3.mk 15 (1 / 4) (- (7 / 4));
     Ambulance.model := true;
     Ambulance.isDeactivating := false;
     Ambulance.fadeOutTimer := 0;
     Ambulance.hasFadedOut := false |}.

(** The ambulance on its way to the middle junction, its target the
    centre of the junction, within hearing of the reflectors of the
    western approach. *)
Definition approachingAmbulance : Ambulance.t :=
  {| Ambulance.path := Road.getAmbulancePath Road.create;
     Ambulance.currentPathIndex := 5;
     Ambulance.speed := Config.ambulanceSpeed;
     Ambulance.position := Vector3.mk (- 11) (1 / 4) (- (7 / 4));
     Ambulance.model := true;
     Ambulance.isDeactivating := false;
     Ambulance.fadeOutTimer := 0;
     Ambulance.hasFadedOut := false |}.


(** The simulation with the middle junction preempted and the ambulance
    just past it. *)
Definition releaseState : Simulation.t :=
  {| Simulation.road := Road.create;
     Simulation.junctions :=
       alter (fun j => Simulation.markApproaching (Simulation.givePriority j))
         1%nat (Simulation.setupEnvironment Road.create);
     Simulation.ambulance := Some passingAmbulance;
     Simulation.proceduralCars := [] |}.

(** The ambulance a quarter of a second into its fade-out, at the end
    of its path. *)
Definition fadingAmbulance : Ambulance.t :=
  {| Ambulance.path := Road.getAmbulancePath Road.create;
     Ambulance.currentPathIndex := 11;
     Ambulance.speed := Config.ambulanceSpeed;
     Ambulance.position := Vector3.mk 172 (1 / 4) (- (7 / 4));
     Ambulance.model := true;
     Ambulance.isDeactivating := true;
     Ambulance.fadeOutTimer := 1 / 4;
     Ambulance.hasFadedOut := false |}.

(** The same ambulance one unit before the end of its path. *)
Definition arrivingAmbulance : Ambulance.t :=
  {| Ambulance.path := Road.getAmbulancePath Road.create;
     Ambulance.currentPathIndex := 10;
     Ambulance.speed := Config.ambulanceSpeed;
     Ambulance.position := Vector3.mk 171 (1 / 4) (- (7 / 4));
     Ambulance.model := true;
     Ambulance.isDeactivating := false;
     Ambulance.fadeOutTimer := 0;
     Ambulance.hasFadedOut := false |}.

(** A west-bound car in the lane of the ambulance, twelve units before
    the end of the path of the ambulance, that has started to evade. *)
Definition evadingCar : ProceduralCar.t :=
  ProceduralCar.startEvade (- (7 / 4))
    (Simulation.spawnCar (- (1)) (- (1)) 160 (1 / 10)).

(** The simulation as [new Simulation()] makes it, without cars, with
    the ambulance on its way to the middle junction. *)
Definition approachState : Simulation.t :=
  {| Simulation.road := Road.create;
     Simulation.junctions := Simulation.setupEnvironment Road.create;
     Simulation.ambulance := Some approachingAmbulance;
     Simulation.proceduralCars := [] |}.

(** A simulation without ambulance in which every junction is in its
    north-south green phase, with one east-bound car five units before
    the centre of the middle junction. *)
Definition redLightState : Simulation.t :=
  {| Simulation.road := Road.create;
     Simulation.junctions :=
       map (fun j => Simulation.applyJunctionPhaseState true
                       (Simulation.set_currentPhaseIndex 3 j))
         (Simulation.setupEnvironment Road.create);
     Simulation.ambulance := None;
     Simulation.proceduralCars := [Simulation.spawnCar 1 1 (- (5)) (1 / 10)] |}.

(** *** Lamps *)

(** The lamps of a light show its colour. *)
Definition lampsAgree (l : TrafficLight.t) : Prop :=
  TrafficLight.lights l = TrafficLight.appearance (TrafficLight.currentState l).


(** *** Well-formed junctions *)

(** The colours of the lights of a junction, in the order of the
    array. *)
Definition colours (j : Simulation.Junction) : list TrafficLight.LIGHT_STATE :=
  map TrafficLight.currentState (Simulation.trafficLights j).

(** The colours that a preemption gives: the east-bound and west-bound
    lights green, the cross traffic red. *)
Definition preemptionColours : list TrafficLight.LIGHT_STATE :=
  [TrafficLight.RED; TrafficLight.RED; TrafficLight.GREEN; TrafficLight.GREEN].

(** Every light of the junction is under a priority override. *)
Definition lightsHeld (j : Simulation.Junction) : Prop :=
  Forall (fun l => TrafficLight.isOverridden l = true)
    (Simulation.trafficLights j).

(** The lights show the colours of the phase at which the cycle is. *)
Definition showsPhase (j : Simulation.Junction) : Prop :=
  exists def,
    Simulation.JUNCTION_CYCLE_DEFINITION !! Simulation.currentPhaseIndex j
    = Some def
    /\ colours j = phaseColours (Simulation.phase def).

(** What holds of every junction of a running simulation. *)
Record wellFormed (j : Simulation.Junction) : Prop :=
  { wf_lights : length (Simulation.trafficLights j) = 4%nat;
    wf_index : (Simulation.currentPhaseIndex j
                < length Simulation.JUNCTION_CYCLE_DEFINITION)%nat;
    wf_timer : 0 < Simulation.currentPhaseTimer j;
    wf_mode : Simulation.isUnderNormalCycle j
              = negb (Simulation.isAmbulanceApproaching j);
    wf_preempted : Simulation.isAmbulanceApproaching j = true ->
                   lightsHeld j /\ colours j = preemptionColours;
    wf_normal : Simulation.isAmbulanceApproaching j = false ->
                lightsFree j /\ showsPhase j;
    wf_passed : Simulation.hasAmbulancePassed j = true ->
                Simulation.isAmbulanceApproaching j = false;
    wf_chain_distinct : NoDup (Simulation.reflectorChain j);
    wf_chain_refs : Forall (fun r => (r < length (Simulation.reflectors j))%nat)
                      (Simulation.reflectorChain j);
    wf_chain_mode : Simulation.isAmbulanceApproaching j = false ->
                    Simulation.reflectorChain j = [] }.

(** Two lights of crossing directions both let traffic through: one of
    the north-south lights (0, 1) and one of the east-west lights (2, 3)
    are green or yellow at once. *)
Definition letsThrough (s : TrafficLight.LIGHT_STATE) : bool :=
  match s with
  | TrafficLight.GREEN | TrafficLight.YELLOW => true
  | _ => false
  end.

Definition conflicting (j : Simulation.Junction) : bool :=
  match colours j with
  | [s0; s1; s2; s3] =>
      (letsThrough s0 || letsThrough s1) && (letsThrough s2 || letsThrough s3)
  | _ => false
  end.


(** *** Triggers of a preemption *)

(** The ambulance is within the preemption radius of the junction. *)
Definition withinPreemptionRadius (amb : Ambulance.t)
    (j : Simulation.Junction) : bool :=
  Vector3.distanceLt (Ambulance.getPosition amb) (Simulation.center j)
    (JS.orElse Config.ambulancePreemptionRadius 150).

(** The ambulance moves towards the junction and is within the
    preemption radius, or a reflector of the junction may fire. *)
Definition triggered (amb : Ambulance.t) (j : Simulation.Junction) : Prop :=
  Simulation.ambulanceMovingTowardsJunction amb (Simulation.center j) = true
  /\ (withinPreemptionRadius amb j = true
      \/ exists r, candidate (Ambulance.getPosition amb) j r).

(** The ambulance does not move towards the junction, or it is out of
    the preemption radius and no reflector of the junction may fire. *)
Definition quiet (amb : Ambulance.t) (j : Simulation.Junction) : Prop :=
  Simulation.ambulanceMovingTowardsJunction amb (Simulation.center j) = false
  \/ (withinPreemptionRadius amb j = false
      /\ forall r, ~ candidate (Ambulance.getPosition amb) j r).


(** *** The life of the ambulance *)

(** What holds of the ambulance of a running simulation: it keeps the
    path of the road; its path index is within the path, at the end
    exactly when the ambulance is deactivating; it has not faded out;
    the fade-out timer is at zero until the fade-out starts. *)
Definition onItsPath (a : Ambulance.t) : Prop :=
  Ambulance.path a = Road.getAmbulancePath Road.create
  /\ (Ambulance.currentPathIndex a <= length (Ambulance.path a))%nat
  /\ (Ambulance.currentPathIndex a = length (Ambulance.path a)
      <-> Ambulance.isDeactivating a = true)
  /\ Ambulance.hasFadedOut a = false
  /\ (Ambulance.isDeactivating a = false -> Ambulance.fadeOutTimer a = 0).

(** The ambulance of the simulation, if there still is one,
    satisfies [P]. *)
Definition ambulanceIfAny (P : Ambulance.t -> Prop) (s : Simulation.t) : Prop :=
  match Simulation.ambulance s with
  | Some a => P a
  | None => True
  end.

(** The fields of a junction that only the ambulance logic writes. *)
Definition samePreemption (j j' : Simulation.Junction) : Prop :=
  Simulation.isAmbulanceApproaching j' = Simulation.isAmbulanceApproaching j
  /\ Simulation.hasAmbulancePassed j' = Simulation.hasAmbulancePassed j
  /\ Simulation.isUnderNormalCycle j' = Simulation.isUnderNormalCycle j
  /\ Simulation.reflectorChain j' = Simulation.reflectorChain j
  /\ map TrafficLight.isOverridden (Simulation.trafficLights j')
     = map TrafficLight.isOverridden (Simulation.trafficLights j).


(** *** Cars on the road *)

(** The bounds that [startEvade] puts on the lateral target of a
    car. *)
Definition roadEdgePositive (c : ProceduralCar.t) : Q :=
  Config.roadWidth / 2 - ProceduralCar.carWidth c / 2 - 2 / 10.

Definition roadEdgeNegative (c : ProceduralCar.t) : Q :=
  - Config.roadWidth / 2 + ProceduralCar.carWidth c / 2 + 2 / 10.

Definition withinEdges (c : ProceduralCar.t) (z : Q) : Prop :=
  roadEdgeNegative c <= z /\ z <= roadEdgePositive c.

(** The distance from the middle of the road layout at which
    [ProceduralCar.update] wraps a car around. *)
Definition carExtentX (c : ProceduralCar.t) : Q :=
  (inject_Z (Z.of_nat Config.numJunctions) * Config.junctionSize
   + (inject_Z (Z.of_nat Config.numJunctions) + 1) * Config.roadLength) / 2
  + ProceduralCar.length c * 2.

Definition onTheRoad (c : ProceduralCar.t) : Prop :=
  - carExtentX c <= Vector3.x (ProceduralCar.position c)
  /\ Vector3.x (ProceduralCar.position c) <= carExtentX c.

(** The two cars are at the same place along the road and have the
    same length. *)
Definition samePlace (c c' : ProceduralCar.t) : Prop :=
  Vector3.x (ProceduralCar.position c') = Vector3.x (ProceduralCar.position c)
  /\ ProceduralCar.length c' = ProceduralCar.length c.


(** The distance from the car to a junction centre along the direction
    of travel of the car, positive when the junction is ahead. *)
Definition distanceAhead (c : ProceduralCar.t) (junctionCenter : Vector3.t) : Q :=
  (Vector3.x junctionCenter - Vector3.x (ProceduralCar.position c))
  * JS.sign (ProceduralCar.speed c).

(** The junction is in the window in which [updateCarLogic] looks for
    the light of a car. *)
Definition inLightWindow (c : ProceduralCar.t) (j : Simulation.Junction) : Prop :=
  - ProceduralCar.length c < distanceAhead c (Simulation.center j)
  /\ distanceAhead c (Simulation.center j)
     < Config.carDetectionDistanceToJunction + 5.

(** The light that faces the car: the east-bound light for a car that
    drives east, the west-bound light otherwise. *)
Definition facingLight (c : ProceduralCar.t) : nat :=
  if JS.sign (ProceduralCar.speed c) >? 0 then 3%nat else 2%nat.


(** *** Building placement *)

(** The footprint of a building, centred at [(posX, posZ)], and the
    zone share a region of positive width and depth. *)
Definition overlaps (posX posZ width depth : Q) (zone : Simulation.Zone) : Prop :=
  (0 < width
   /\ posX - width / 2 < Simulation.maxX zone
   /\ Simulation.minX zone < posX + width / 2
   /\ Simulation.minX zone < Simulation.maxX zone)
  /\ (0 < depth
      /\ posZ - depth / 2 < Simulation.maxZ zone
      /\ Simulation.minZ zone < posZ + depth / 2
      /\ Simulation.minZ zone < Simulation.maxZ zone).

(** Half the width of a road corridor: half the road, the footpath with
    its kerb, and the buffer of two units; 8.1 with the values of
    [Config]. *)
Definition corridorHalfWidth : Q :=
  Config.roadWidth / 2 + (Config.footpathWidth + 1 / 10) + 2.

(** Half the length of the east-west corridor: half the road layout
    and eight tenths of a road segment; 214 with the values of
    [Config]. *)
Definition corridorHalfLength : Q :=
  ((inject_Z (Z.of_nat Config.numJunctions) + 1) * Config.roadLength
   + inject_Z (Z.of_nat Config.numJunctions) * Config.junctionSize) / 2
  + Config.roadLength * (8 / 10).

(** Half the length of the north-south corridor of a junction: half a
    road segment, half the junction and the buffer; 43 with the values
    of [Config]. *)
Definition crossingHalfLength : Q :=
  (Config.roadLength + Config.junctionSize) / 2 + 2.

(** The footprint lies outside the rectangle of half extents
    [halfX] and [halfZ] around [(centerX, centerZ)], its border
    included. *)
Definition clearOf (posX posZ width depth centerX centerZ halfX halfZ : Q)
    : Prop :=
  posX + width / 2 <= centerX - halfX
  \/ centerX + halfX <= posX - width / 2
  \/ posZ + depth / 2 <= centerZ - halfZ
  \/ centerZ + halfZ <= posZ - depth / 2.


(** *** The geometry of the road *)

(** The points are in ascending order of [x]. *)
Fixpoint sortedByX (l : list Vector3.t) : Prop :=
  match l with
  | [] => True
  | p :: l' =>
      Forall (fun q => Vector3.x p <= Vector3.x q) l' /\ sortedByX l'
  end.

(** No point of the list equals the point before it. *)
Definition noRepeats (l : list Vector3.t) : Prop :=
  forall i p q, l !! i = Some p -> l !! S i = Some q ->
                Road.vecEquals q p = false.

(** The distance between the centres of two neighbouring junctions. *)
Definition junctionSpacing : Q := Config.roadLength + Config.junctionSize.


(** *** Reflector rows *)

(** No reflector of the junction is within chain range of another
    one. *)
Definition spaced (j : Simulation.Junction) : Prop :=
  forall m n r r',
    m <> n ->
    Simulation.reflectors j !! m = Some r ->
    Simulation.reflectors j !! n = Some r' ->
    SmartReflector.isAmbulanceNear r (SmartReflector.position r') = false.


(** *** Pedestrians *)

(** The distance from the middle of the road layout at which
    [ProceduralPedestrian.update] wraps a pedestrian around. *)
Definition pedestrianExtentX : Q :=
  (inject_Z (Z.of_nat Config.numJunctions) * Config.junctionSize
   + (inject_Z (Z.of_nat Config.numJunctions) + 1) * Config.roadLength) / 2
  + 30.


End Spec.

(** * Properties *)

(** ** Comparisons and sign *)

Section Numbers.

Implicit Types a b : Q.

Lemma ltb_lt a b : (a <? b) = true <-> a < b.
Proof.
  unfold JS.ltb. rewrite negb_true_iff, <- not_true_iff_false, Qle_bool_iff.
  split; [apply Qnot_le_lt | apply Qlt_not_le].
Qed.

Lemma ltb_ge a b : (a <? b) = false <-> b <= a.
Proof. unfold JS.ltb. rewrite negb_false_iff. apply Qle_bool_iff. Qed.

Lemma leb_le a b : (a <=? b) = true <-> a <= b.
Proof. apply Qle_bool_iff. Qed.

Lemma leb_gt a b : (a <=? b) = false <-> b < a.
Proof.
  unfold JS.leb. rewrite <- not_true_iff_false, Qle_bool_iff.
  split; [apply Qnot_le_lt | apply Qlt_not_le].
Qed.

Lemma gtb_gt a b : (a >? b) = true <-> b < a.
Proof. apply ltb_lt. Qed.

Lemma sign_pos a : 0 < JS.sign a <-> 0 < a.
Proof.
  unfold JS.sign. destruct (0 <? a) eqn:E1; [|destruct (a <? 0) eqn:E2].
  - apply ltb_lt in E1. split; [auto | reflexivity].
  - apply ltb_ge in E1. split; [intros H; discriminate H | lra].
  - apply ltb_ge in E1. split; [intros H; discriminate H | lra].
Qed.

Lemma sign_neg a : JS.sign a < 0 <-> a < 0.
Proof.
  unfold JS.sign. destruct (0 <? a) eqn:E1; [|destruct (a <? 0) eqn:E2].
  - apply ltb_lt in E1. split; [intros H; discriminate H | lra].
  - apply ltb_lt in E2. split; [auto | reflexivity].
  - apply ltb_ge in E2. split; [intros H; discriminate H | lra].
Qed.

End Numbers.

(** ** Doubles round to themselves *)

Section Rounding.










(** The rounding at work: the double nearest to 0.1 and to -0.1; a
    tie going to the even significand, down and up; the smallest
    doubles, spaced [2 ^ -1074]; the subtraction of one frame of 0.05
    seconds from eight seconds. *)
Lemma round_examples :
  Binary64.round (1 / 10) == 3602879701896397 / inject_Z (2 ^ 55)
  /\ Binary64.round (- (1 / 10)) == - (3602879701896397 / inject_Z (2 ^ 55))
  /\ Binary64.round (1 + 1 / inject_Z (2 ^ 53)) == 1
  /\ Binary64.round (1 + 3 / inject_Z (2 ^ 53)) == 1 + 1 / inject_Z (2 ^ 51)
  /\ Binary64.round (3 / inject_Z (2 ^ 1075)) == 1 / inject_Z (2 ^ 1073)
  /\ Binary64.sub 8 (Binary64.round (5 / 100))
     == 8950904259398861 / inject_Z (2 ^ 50).
Proof.
  repeat split; apply Qeq_bool_eq; vm_compute; reflexivity.
Qed.

End Rounding.

(** ** Traffic lights *)

Section TrafficLights.

Import TrafficLight.

(** C3.  While a light is overridden, a call of [setLightState] that is
    not a priority override returns the light as it was, current state
    and lamps included; its only trace is one line on the console,
    and none when the call is silent.  A priority override sets the
    state and the lamps all the same. *)
Theorem setLightState_ignored_while_overridden
    (state : LIGHT_STATE) (forceSilent : bool) (light : t) :
  isOverridden light = true ->
  fst (setLightState state false forceSilent light) = light
  /\ snd (setLightState state false forceSilent light)
     = (if forceSilent then []
        else [Console.log ("[" +:+ id light +:+ "] State change to "
                           +:+ stateName state +:+ " blocked by override.")])
  /\ currentState (fst (setLightState state true forceSilent light)) = state
  /\ lights (fst (setLightState state true forceSilent light)) = appearance state.
Proof.
  intros Hover. unfold setLightState. rewrite Hover. cbn. auto.
Qed.

Lemma setLightState_ignored_while_overridden_witness :
  let light := setPriority true (create "J0_TL3") in
  fst (setLightState RED false false light) = light
  /\ currentState light = GREEN.
Proof.
  split; [|reflexivity].
  apply (setLightState_ignored_while_overridden RED false
           (setPriority true (create "J0_TL3"))).
  reflexivity.
Defined.

Lemma setLightState_free (state : LIGHT_STATE) (silent : bool) (light : t) :
  isOverridden light = false ->
  fst (setLightState state false silent light)
  = {| id := id light; currentState := state; isOverridden := false;
       lights := appearance state |}.
Proof. intros Hfree. unfold setLightState. rewrite Hfree. reflexivity. Qed.

Lemma releasePriority_free (light : t) :
  isOverridden (releasePriority light) = false.
Proof. reflexivity. Qed.

Lemma setPriority_overridden (makeGreen : bool) (light : t) :
  isOverridden (setPriority makeGreen light) = true
  /\ currentState (setPriority makeGreen light) = (if makeGreen then GREEN else RED).
Proof. destruct makeGreen; split; reflexivity. Qed.

End TrafficLights.

(** ** Phase application *)

Section PhaseApplication.

Import Simulation.

(** Resolves the calls of [setLightState] on lights known to be free,
    innermost first. *)
Ltac free_lights :=
  repeat match goal with
  | H : TrafficLight.isOverridden ?l = false
    |- context [TrafficLight.setLightState ?s false ?b ?l] =>
      rewrite (setLightState_free s b l H)
  | |- context [TrafficLight.setLightState ?s false ?b
                  (TrafficLight.Build_t ?i ?c false ?a)] =>
      rewrite (setLightState_free s b (TrafficLight.Build_t i c false a) eq_refl)
  end.

(** C2.  On a junction with four lights, none of them overridden,
    [applyJunctionPhaseState] leaves the lights in the colours that the
    name of the current phase alone determines: east-west phases colour
    the east-bound and west-bound lights and turn the other two red,
    north-south phases mirror that, ALL_RED turns all four red.  The
    lamps follow the colours, and nothing else of the junction
    changes. *)
Theorem applyJunctionPhaseState_by_phase_name
    (silent : bool) (junction : Junction) (def : PhaseDef) :
  length (trafficLights junction) = 4%nat ->
  JUNCTION_CYCLE_DEFINITION !! currentPhaseIndex junction = Some def ->
  Spec.lightsFree junction ->
  let junction' := applyJunctionPhaseState silent junction in
  map TrafficLight.currentState (trafficLights junction')
  = Spec.phaseColours (phase def)
  /\ map TrafficLight.lights (trafficLights junction')
     = map TrafficLight.appearance (Spec.phaseColours (phase def))
  /\ map TrafficLight.id (trafficLights junction')
     = map TrafficLight.id (trafficLights junction)
  /\ Spec.lightsFree junction'
  /\ junction' = set_trafficLights (trafficLights junction') junction.
Proof.
  intros Hlen Hdef Hfree junction'. subst junction'.
  unfold Spec.lightsFree in *.
  unfold applyJunctionPhaseState. rewrite Hlen, Hdef.
  destruct (trafficLights junction) as [|l0 [|l1 [|l2 [|l3 [|]]]]];
    try discriminate Hlen.
  inversion_clear Hfree as [|? ? H0 Hfree1].
  inversion_clear Hfree1 as [|? ? H1 Hfree2].
  inversion_clear Hfree2 as [|? ? H2 Hfree3].
  inversion_clear Hfree3 as [|? ? H3 _].
  change (4 <? 4)%nat with false; cbv iota.
  destruct (phase def); unfold setLight; cbn [alter list_alter];
    free_lights; repeat split; repeat constructor.
Qed.

Lemma applyJunctionPhaseState_by_phase_name_witness :
  map TrafficLight.currentState
    (trafficLights
       (applyJunctionPhaseState false
          (set_currentPhaseIndex 3 Spec.exampleJunction)))
  = [TrafficLight.GREEN; TrafficLight.GREEN; TrafficLight.RED; TrafficLight.RED].
Proof.
  apply (applyJunctionPhaseState_by_phase_name false
           (set_currentPhaseIndex 3 Spec.exampleJunction)
           {| phase := NS_GREEN;
              duration := JS.orElse Config.trafficLightGreenDuration 7000 |}).
  - reflexivity.
  - reflexivity.
  - repeat constructor.
Defined.

End PhaseApplication.

(** ** Road lookups *)

Section RoadLookups.

Lemma getJunctionCenter_in_range (road : Road.t) (junctionIndex : Z) :
  ~ Spec.outOfRange road junctionIndex ->
  Road.getJunctionCenter road junctionIndex
  = (Road.junctionCenters road !! Z.to_nat junctionIndex, []).
Proof.
  unfold Spec.outOfRange, Road.getJunctionCenter. intros Hin.
  destruct (Z.leb_spec 0 junctionIndex);
    destruct (Z.ltb_spec junctionIndex
                (Z.of_nat (length (Road.junctionCenters road))));
    cbn; try reflexivity; exfalso; apply Hin; lia.
Qed.

Lemma setupJunction_id (road : Road.t) (i : Z) (j : Simulation.Junction) :
  Simulation.setupJunction road i = Some j ->
  Simulation.id j = i /\ ~ Spec.outOfRange road i.
Proof.
  unfold Simulation.setupJunction, Road.getJunctionCenter, Spec.outOfRange.
  destruct (Z.leb_spec 0 i);
    destruct (Z.ltb_spec i (Z.of_nat (length (Road.junctionCenters road))));
    cbn [andb fst]; try discriminate.
  destruct (Road.junctionCenters road !! Z.to_nat i); [|discriminate].
  intros [= <-]. split; [reflexivity | lia].
Qed.

(** C9.  For an index below zero or at or past the number of junction
    centres, [getJunctionCenter] returns [null] and
    [getReflectorPositions] an empty array, each with one warning on
    the console.  Both are total, so neither throws.  The caller,
    [setupEnvironment], makes no junction for such an index. *)
Theorem invalid_junction_index_gives_no_data
    (road : Road.t) (junctionIndex : Z) (approachDirection : string) :
  Spec.outOfRange road junctionIndex ->
  Road.getJunctionCenter road junctionIndex
  = (None, [Console.warn ("Requested junction center for invalid index: "
                          +:+ pretty junctionIndex)])
  /\ Road.getReflectorPositions road junctionIndex approachDirection
     = ([], [Console.warn ("getReflectorPositions: Invalid junctionIndex "
                           +:+ pretty junctionIndex)])
  /\ Simulation.setupJunction road junctionIndex = None
  /\ (forall j, j ∈ Simulation.setupEnvironment road ->
                Simulation.id j <> junctionIndex).
Proof.
  intros Hout.
  assert (Hcenter : Road.getJunctionCenter road junctionIndex
            = (None, [Console.warn ("Requested junction center for invalid index: "
                                    +:+ pretty junctionIndex)])).
  { unfold Road.getJunctionCenter, Spec.outOfRange in *.
    destruct (Z.leb_spec 0 junctionIndex);
      destruct (Z.ltb_spec junctionIndex
                  (Z.of_nat (length (Road.junctionCenters road))));
      cbn; try reflexivity; lia. }
  repeat split.
  - exact Hcenter.
  - unfold Road.getReflectorPositions, Spec.outOfRange in *.
    destruct (Z.ltb_spec junctionIndex 0);
      destruct (Z.leb_spec (Z.of_nat (length (Road.junctionCenters road)))
                  junctionIndex);
      cbn; try reflexivity; lia.
  - unfold Simulation.setupJunction. rewrite Hcenter. reflexivity.
  - intros j Hj Hid. unfold Simulation.setupEnvironment in Hj.
    apply list_elem_of_omap in Hj as (i & _ & Hi).
    apply setupJunction_id in Hi as [Hi Hin].
    apply Hin. rewrite <- Hi, Hid. exact Hout.
Qed.

Lemma invalid_junction_index_gives_no_data_witness :
  fst (Road.getJunctionCenter Road.create 3) = None
  /\ fst (Road.getReflectorPositions Road.create (-1) "west") = [].
Proof.
  split.
  - pose proof (invalid_junction_index_gives_no_data Road.create 3 "west") as H.
    destruct H as [H _]; [right; vm_compute; discriminate | now rewrite H].
  - pose proof (invalid_junction_index_gives_no_data Road.create (-1) "west") as H.
    destruct H as (_ & H & _); [left; reflexivity | now rewrite H].
Defined.

End RoadLookups.

(** ** The light cycle *)

Section LightCycle.

Import Simulation.

Lemma applyJunctionPhaseState_fields (silent : bool) (j : Junction) :
  let j' := applyJunctionPhaseState silent j in
  id j' = id j /\ center j' = center j
  /\ reflectors j' = reflectors j /\ reflectorChain j' = reflectorChain j
  /\ isAmbulanceApproaching j' = isAmbulanceApproaching j
  /\ hasAmbulancePassed j' = hasAmbulancePassed j
  /\ currentPhaseIndex j' = currentPhaseIndex j
  /\ currentPhaseTimer j' = currentPhaseTimer j
  /\ isUnderNormalCycle j' = isUnderNormalCycle j
  /\ length (trafficLights j') = length (trafficLights j).
Proof.
  unfold applyJunctionPhaseState.
  destruct (length (trafficLights j) <? 4)%nat; [cbn; tauto|].
  destruct (JUNCTION_CYCLE_DEFINITION !! currentPhaseIndex j) as [def|];
    [|cbn; tauto].
  cbn. repeat split.
  destruct (phase def); unfold setLight; rewrite ?length_alter; reflexivity.
Qed.






















Lemma cappedFrame_value :
  Qeq_bool Spec.cappedFrame (3602879701896397 / inject_Z (2 ^ 56)) = true.
Proof. vm_compute. reflexivity. Qed.

Lemma cappedFrames_160 :
  (currentPhaseIndex
     (Spec.runCycle64 (repeat Spec.cappedFrame 160) Spec.exampleJunction)
   =? 0)%nat
  && Qeq_bool
       (currentPhaseTimer
          (Spec.runCycle64 (repeat Spec.cappedFrame 160) Spec.exampleJunction))
       (1445 / inject_Z (2 ^ 56))
  = true.
Proof. vm_compute. reflexivity. Qed.

Lemma cappedFrames_161 :
  (currentPhaseIndex
     (Spec.runCycle64 (repeat Spec.cappedFrame 161) Spec.exampleJunction)
   =? 1)%nat
  = true.
Proof. vm_compute. reflexivity. Qed.

Lemma cappedFrames_440 :
  (currentPhaseIndex
     (Spec.runCycle64 (repeat Spec.cappedFrame 440) Spec.exampleJunction)
   =? 5)%nat
  && Qeq_bool
       (currentPhaseTimer
          (Spec.runCycle64 (repeat Spec.cappedFrame 440) Spec.exampleJunction))
       (7205759403792771 / inject_Z (2 ^ 56))
  = true.
Proof. vm_compute. reflexivity. Qed.

(** Frames at the cap of [animate], 0.05 seconds each.  The double
    nearest to 0.05 is a little above it, and the subtractions are
    rounded: after 160 frames the timer of the first phase, 8 seconds,
    is not at zero but at [1445 / 2 ^ 56], about [2.0e-14], and the
    phase ends on the next frame.  After the 440 frames of one cycle
    length the junction is in the sixth phase with just under 0.1
    seconds to go. *)
Lemma capped_frames_end_the_first_phase_a_frame_late :
  Spec.cappedFrame == 3602879701896397 / inject_Z (2 ^ 56)
  /\ currentPhaseIndex
       (Spec.runCycle64 (repeat Spec.cappedFrame 160) Spec.exampleJunction)
     = 0%nat
  /\ currentPhaseTimer
       (Spec.runCycle64 (repeat Spec.cappedFrame 160) Spec.exampleJunction)
     == 1445 / inject_Z (2 ^ 56)
  /\ currentPhaseIndex
       (Spec.runCycle64 (repeat Spec.cappedFrame 161) Spec.exampleJunction)
     = 1%nat
  /\ currentPhaseIndex
       (Spec.runCycle64 (repeat Spec.cappedFrame 440) Spec.exampleJunction)
     = 5%nat
  /\ currentPhaseTimer
       (Spec.runCycle64 (repeat Spec.cappedFrame 440) Spec.exampleJunction)
     == 7205759403792771 / inject_Z (2 ^ 56).
Proof.
  destruct (andb_prop _ _ cappedFrames_160) as [H160 T160].
  destruct (andb_prop _ _ cappedFrames_440) as [H440 T440].
  split; [exact (Qeq_bool_eq _ _ cappedFrame_value)|].
  split; [exact (proj1 (Nat.eqb_eq _ _) H160)|].
  split; [exact (Qeq_bool_eq _ _ T160)|].
  split; [exact (proj1 (Nat.eqb_eq _ _) cappedFrames_161)|].
  split; [exact (proj1 (Nat.eqb_eq _ _) H440)|].
  exact (Qeq_bool_eq _ _ T440).
Qed.

End LightCycle.

(** ** Release of a preempted junction *)

Section Release.

Import Simulation.

Lemma ambulanceDirectionX_last (amb : Ambulance.t) (target : Vector3.t) :
  Ambulance.path amb !! Ambulance.currentPathIndex amb = Some target ->
  S (Ambulance.currentPathIndex amb) = length (Ambulance.path amb) ->
  ambulanceDirectionX amb
  = JS.sign (Vector3.x target - Vector3.x (Ambulance.getPosition amb)).
Proof.
  intros Htarget Hlast. unfold ambulanceDirectionX.
  rewrite Hlast, Nat.ltb_irrefl, andb_false_r.
  assert (Hlt : (Ambulance.currentPathIndex amb
                 <? length (Ambulance.path amb))%nat = true)
    by (apply Nat.ltb_lt; lia).
  assert (Hpos : (0 <? length (Ambulance.path amb))%nat = true)
    by (apply Nat.ltb_lt; lia).
  rewrite Hlt, Hpos, Htarget. reflexivity.
Qed.

Lemma ambulanceDirectionX_off_path (amb : Ambulance.t) :
  Ambulance.path amb !! Ambulance.currentPathIndex amb = None ->
  ambulanceDirectionX amb = 0.
Proof.
  intros Hnone. apply lookup_ge_None in Hnone. unfold ambulanceDirectionX.
  assert (H1 : (S (Ambulance.currentPathIndex amb)
                <? length (Ambulance.path amb))%nat = false)
    by (apply Nat.ltb_ge; lia).
  assert (H2 : (Ambulance.currentPathIndex amb
                <? length (Ambulance.path amb))%nat = false)
    by (apply Nat.ltb_ge; lia).
  rewrite H1, H2, !andb_false_r. reflexivity.
Qed.

(** The release condition of the source implies that the ambulance and
    its current target are past the threshold, also when the target is
    the last point of the path and is accepted without a test. *)
Lemma releaseFires_pastThreshold (amb : Ambulance.t) (j : Junction) :
  releaseFires amb j = true ->
  isAmbulanceApproaching j = true /\ Spec.pastThreshold amb (center j).
Proof.
  unfold releaseFires. intros H.
  apply andb_prop in H as [H Htarget]. apply andb_prop in H as [Happr Hphys].
  split; [exact Happr|].
  unfold hasPhysicallyPassedJunction in Hphys.
  unfold targetIsPastJunction in Htarget.
  unfold Spec.pastThreshold.
  destruct (Ambulance.path amb !! Ambulance.currentPathIndex amb)
    as [target|] eqn:Hlookup.
  - exists target. split; [reflexivity|]. cbv zeta.
    destruct (ambulanceDirectionX amb >? 0) eqn:Hdir.
    + apply gtb_gt in Hdir, Hphys. left.
      split; [exact Hdir|]. split; [exact Hphys|].
      cbn [andb] in Htarget.
      assert (Hneg : (ambulanceDirectionX amb <? 0) = false)
        by (apply ltb_ge; lra).
      rewrite Hneg in Htarget. cbn [andb orb] in Htarget.
      apply orb_prop in Htarget as [Htarget|Hlast].
      * rewrite orb_false_r in Htarget. apply gtb_gt in Htarget. exact Htarget.
      * apply Nat.eqb_eq in Hlast.
        rewrite (ambulanceDirectionX_last amb target Hlookup Hlast) in Hdir.
        apply (proj1 (sign_pos _)) in Hdir. lra.
    + destruct (ambulanceDirectionX amb <? 0) eqn:Hneg; [|discriminate Hphys].
      apply ltb_lt in Hneg, Hphys. right.
      split; [exact Hneg|]. split; [exact Hphys|].
      cbn [andb orb] in Htarget.
      apply orb_prop in Htarget as [Htarget|Hlast].
      * apply ltb_lt in Htarget. exact Htarget.
      * apply Nat.eqb_eq in Hlast.
        rewrite (ambulanceDirectionX_last amb target Hlookup Hlast) in Hneg.
        apply (proj1 (sign_neg _)) in Hneg. lra.
  - rewrite (ambulanceDirectionX_off_path amb Hlookup) in Hphys.
    discriminate Hphys.
Qed.

Lemma neutral_givePriority : Spec.neutral givePriority.
Proof. intros j. split; reflexivity. Qed.

Lemma neutral_releaseJunction : Spec.neutral releaseJunction.
Proof.
  intros j. unfold releaseJunction.
  match goal with |- context [applyJunctionPhaseState true ?x] =>
    pose proof (applyJunctionPhaseState_fields true x) as F
  end.
  cbv zeta in F. destruct F as (_ & F1 & _ & _ & _ & F2 & _).
  rewrite F1, F2. split; reflexivity.
Qed.

Lemma neutral_markApproaching : Spec.neutral markApproaching.
Proof. intros j. split; reflexivity. Qed.

Lemma neutral_chainReflector (r : nat) : Spec.neutral (chainReflector r).
Proof.
  intros j. unfold chainReflector.
  destruct (negb (includes (reflectorChain j) r)); split; reflexivity.
Qed.

Lemma neutral_cycleJunction (deltaTime : Q) : Spec.neutral (cycleJunction deltaTime).
Proof.
  intros j. unfold cycleJunction.
  destruct (isUnderNormalCycle j && (0 <? length (trafficLights j))%nat);
    [|split; reflexivity].
  cbn [currentPhaseTimer set_currentPhaseTimer].
  destruct (currentPhaseTimer j - deltaTime <=? 0); [|split; reflexivity].
  match goal with |- context [applyJunctionPhaseState false ?x] =>
    pose proof (applyJunctionPhaseState_fields false x) as F
  end.
  cbv zeta in F. destruct F as (_ & F1 & _ & _ & _ & F2 & _).
  rewrite F1, F2. split; reflexivity.
Qed.

Section Frame.

Variable amb : Ambulance.t.
Variable before : list Junction.

Local Abbreviation within := (Spec.withinFrame amb before).

Lemma within_alter_neutral (f : Junction -> Junction) (i : nat)
    (now : list Junction) :
  Spec.neutral f -> within now -> within (alter f i now).
Proof.
  intros Hf Hnow. apply Forall2_alter_r; [exact Hnow|].
  intros x y _ _ [Hc Hp]. destruct (Hf y) as [Fc Fp].
  split; [congruence|]. rewrite Fp. exact Hp.
Qed.

Lemma within_control (junctionId : Z) (give : bool) (now : list Junction) :
  within now -> within (controlTrafficLightsForJunction junctionId give now).
Proof.
  intros Hnow. unfold controlTrafficLightsForJunction.
  destruct (findIndex _ now) as [i|]; [|exact Hnow].
  apply within_alter_neutral; [|exact Hnow].
  destruct give; [apply neutral_givePriority | apply neutral_releaseJunction].
Qed.

Lemma within_proximityPhase (moving : bool) (k : nat) (now : list Junction) :
  within now -> within (proximityPhase amb moving k now).
Proof.
  intros Hnow. unfold proximityPhase.
  destruct (now !! k) as [junction|]; [|exact Hnow].
  match goal with |- context [if ?c then _ else _] => destruct c end;
    [|exact Hnow].
  apply within_alter_neutral; [apply neutral_markApproaching|].
  apply within_control, Hnow.
Qed.

Lemma within_reflectorPhase (moving : bool) (k : nat) (now : list Junction) :
  within now -> within (reflectorPhase amb moving k now).
Proof.
  intros Hnow. unfold reflectorPhase.
  destruct (now !! k) as [junction|]; [|exact Hnow].
  destruct ((0 <? length (reflectors junction))%nat && moving); [|exact Hnow].
  destruct (scanReflectors _ junction 0 (reflectors junction)) as [r|];
    [|exact Hnow].
  assert (Hchained : within (alter (chainReflector r) k now))
    by (apply within_alter_neutral; [apply neutral_chainReflector | exact Hnow]).
  destruct (negb (isAmbulanceApproaching junction)); [|exact Hchained].
  apply within_alter_neutral; [apply neutral_markApproaching|].
  apply within_control, Hchained.
Qed.

Lemma within_releasePhase (k : nat) (now : list Junction) :
  within now -> within (releasePhase amb k now).
Proof.
  intros Hnow. unfold releasePhase.
  destruct (now !! k) as [junction|] eqn:Hk; [|exact Hnow].
  destruct (releaseFires amb junction) eqn:Hfires; [|exact Hnow].
  apply releaseFires_pastThreshold in Hfires as [_ Hpast].
  apply Forall2_alter_r; [apply within_control, Hnow|].
  intros x y Hx _ [Hc _].
  destruct (Forall2_lookup_lr _ _ _ _ _ _ Hnow Hx Hk) as [Hcenter _].
  split; [exact Hc|]. intros _. right. rewrite <- Hcenter. exact Hpast.
Qed.

Lemma within_junctionTick (k : nat) (now : list Junction) :
  within now -> within (junctionTick amb k now).
Proof.
  intros Hnow. unfold junctionTick.
  destruct (now !! k) as [junction|]; [|exact Hnow].
  destruct (hasAmbulancePassed junction); [exact Hnow|].
  apply within_releasePhase, within_reflectorPhase, within_proximityPhase, Hnow.
Qed.

Lemma within_forEach (ks : list nat) : forall now : list Junction,
  within now ->
  within (foldl (fun junctions k => junctionTick amb k junctions) now ks).
Proof.
  induction ks as [|k ks IH]; intros now Hnow; [exact Hnow|].
  cbn [foldl]. apply IH, within_junctionTick, Hnow.
Qed.

End Frame.

Lemma releasedOnlyPast_refl (amb : Ambulance.t) (js : list Junction) :
  Forall2 (Spec.releasedOnlyPast amb) js js.
Proof.
  apply Forall_Forall2_diag, Forall_forall. intros j _.
  split; [reflexivity | auto].
Qed.

Lemma updateAmbulanceLogic_releasedOnlyPast (amb : Ambulance.t)
    (js : list Junction) :
  Forall2 (Spec.releasedOnlyPast amb) js (updateAmbulanceLogic (Some amb) js).
Proof.
  unfold updateAmbulanceLogic.
  destruct (negb (Ambulance.model amb) || _); [apply releasedOnlyPast_refl|].
  destruct (length (Ambulance.path amb) <=? _)%nat;
    [apply releasedOnlyPast_refl|].
  apply within_forEach, releasedOnlyPast_refl.
Qed.

Lemma manageJunctionCycles_lookup (deltaTime : Q) (js : list Junction)
    (k : nat) (j' : Junction) :
  manageJunctionCycles deltaTime js !! k = Some j' ->
  exists j, js !! k = Some j /\ j' = cycleJunction deltaTime j.
Proof.
  unfold manageJunctionCycles. rewrite list_lookup_fmap.
  destruct (js !! k) as [j|]; [|discriminate].
  intros [= <-]. exists j. split; reflexivity.
Qed.

(** C1.  In a frame in which [hasAmbulancePassed] of a junction turns
    from false to true, that is in which the junction is released, the
    ambulance is still there and, at the position it has in that frame,
    it is beyond the release threshold past the junction centre in its
    direction of travel, and so is its current path target.  So the
    release never fires while the ambulance or its target is at or
    before the threshold. *)
Theorem release_only_past_threshold `{Three}
    (clockDelta : Q) (s : Simulation.t) (k : nat) (j j' : Junction) :
  junctions s !! k = Some j ->
  junctions (animate clockDelta s) !! k = Some j' ->
  hasAmbulancePassed j = false ->
  hasAmbulancePassed j' = true ->
  exists amb,
    ambulance (animate clockDelta s) = Some amb
    /\ Spec.pastThreshold amb (center j).
Proof.
  intros Hj Hj' Hbefore Hafter. unfold animate in *.
  destruct (ambulance s) as [amb0|];
    [destruct (Ambulance.hasFadedOut
                 (Ambulance.update (Qmin clockDelta (5 / 100)) amb0)) eqn:Hfaded|];
    cbn [junctions ambulance] in *.
  - apply manageJunctionCycles_lookup in Hj' as (j0 & Hj0 & ->).
    destruct (neutral_cycleJunction (Qmin clockDelta (5 / 100)) j0) as [_ Hp].
    congruence.
  - eexists. split; [reflexivity|].
    apply manageJunctionCycles_lookup in Hj' as (j1 & Hj1 & ->).
    destruct (neutral_cycleJunction (Qmin clockDelta (5 / 100)) j1) as [_ Hp].
    rewrite Hp in Hafter.
    pose proof (updateAmbulanceLogic_releasedOnlyPast
                  (Ambulance.update (Qmin clockDelta (5 / 100)) amb0)
                  (junctions s)) as Hframe.
    destruct (Forall2_lookup_lr _ _ _ _ _ _ Hframe Hj Hj1) as [_ Hrel].
    destruct (Hrel Hafter) as [Hp0|Hpast]; [congruence | exact Hpast].
  - apply manageJunctionCycles_lookup in Hj' as (j0 & Hj0 & ->).
    destruct (neutral_cycleJunction (Qmin clockDelta (5 / 100)) j0) as [_ Hp].
    congruence.
Qed.

Lemma release_only_past_threshold_witness :
  exists amb j,
    junctions Spec.releaseState !! 1%nat = Some j
    /\ ambulance (animate (H := rationalThree) (1 / 60) Spec.releaseState)
       = Some amb
    /\ Spec.pastThreshold amb (center j).
Proof.
  destruct (junctions Spec.releaseState !! 1%nat) as [j|] eqn:Hj;
    [|vm_compute in Hj; discriminate Hj].
  destruct (junctions (animate (H := rationalThree) (1 / 60) Spec.releaseState)
              !! 1%nat) as [j'|] eqn:Hj';
    [|vm_compute in Hj'; discriminate Hj'].
  destruct (release_only_past_threshold (H := rationalThree) (1 / 60)
              Spec.releaseState 1 j j' Hj Hj') as (amb & Hamb & Hpast).
  - vm_compute in Hj. injection Hj as <-. reflexivity.
  - vm_compute in Hj'. injection Hj' as <-. reflexivity.
  - exists amb, j. auto.
Defined.

End Release.

(** ** The reflector chain *)

Section ReflectorChain.

Import Simulation.

Lemma includes_elem_of (chain : list nat) (i : nat) :
  includes chain i = true <-> i ∈ chain.
Proof.
  unfold includes. rewrite existsb_exists. split.
  - intros (x & Hin & Heq). apply Nat.eqb_eq in Heq. subst x.
    apply list_elem_of_In, Hin.
  - intros Hin. exists i. split; [apply list_elem_of_In, Hin | apply Nat.eqb_refl].
Qed.

Lemma includes_not_elem_of (chain : list nat) (i : nat) :
  includes chain i = false <-> i ∉ chain.
Proof.
  rewrite <- includes_elem_of. destruct (includes chain i); split;
    congruence || auto.
Qed.

(** The test of the source is the condition of the specification. *)
Lemma reflectorFires_mayFire (ambulancePos : Vector3.t) (j : Junction)
    (reflector : SmartReflector.t) :
  reflectorFires ambulancePos j reflector = true
  <-> Spec.mayFire ambulancePos j reflector.
Proof.
  unfold reflectorFires, Spec.mayFire, lastChainedPosition. split.
  - intros H. apply orb_prop in H as [H|H]; [left; exact H | right].
    apply andb_prop in H as [Hlen Hnear]. apply Nat.ltb_lt in Hlen.
    split; [destruct (reflectorChain j); [cbn in Hlen; lia | discriminate]|].
    destruct (last (reflectorChain j)) as [m|] eqn:Hlast;
      [|discriminate Hnear].
    destruct (reflectors j !! m) as [lastChained|] eqn:Hm;
      [|discriminate Hnear].
    exists m, lastChained. auto.
  - intros [H|(Hne & m & lastChained & Hlast & Hm & Hnear)].
    + rewrite H. reflexivity.
    + rewrite Hlast, Hm. cbn [fmap option_fmap option_map]. rewrite Hnear.
      destruct (reflectorChain j); [congruence|].
      cbn. apply orb_true_r.
Qed.

Lemma candidate_dec (ambulancePos : Vector3.t) (j : Junction) (i : nat)
    (reflector : SmartReflector.t) :
  reflectors j !! i = Some reflector ->
  Spec.candidate ambulancePos j i
  <-> includes (reflectorChain j) i = false
      /\ reflectorFires ambulancePos j reflector = true.
Proof.
  intros Hi. unfold Spec.candidate. split.
  - intros (reflector' & Hi' & Hnot & Hfire).
    assert (reflector' = reflector) as -> by congruence.
    split; [apply includes_not_elem_of, Hnot | apply reflectorFires_mayFire, Hfire].
  - intros [Hnot Hfire]. exists reflector.
    split; [exact Hi|].
    split; [apply includes_not_elem_of, Hnot | apply reflectorFires_mayFire, Hfire].
Qed.

(** The loop returns the first candidate among the reflectors it is
    given, and nothing when there is none. *)
Lemma scanReflectors_first (ambulancePos : Vector3.t) (j : Junction)
    (rest : list SmartReflector.t) : forall i : nat,
  (forall n reflector, rest !! n = Some reflector ->
                       reflectors j !! (i + n)%nat = Some reflector) ->
  match scanReflectors ambulancePos j i rest with
  | Some r =>
      (i <= r)%nat /\ Spec.candidate ambulancePos j r
      /\ forall m, (i <= m < r)%nat -> ~ Spec.candidate ambulancePos j m
  | None =>
      forall m, (i <= m < i + length rest)%nat -> ~ Spec.candidate ambulancePos j m
  end.
Proof.
  induction rest as [|reflector rest IH]; intros i Hrest.
  - cbn. intros m Hm. lia.
  - assert (Hi : reflectors j !! i = Some reflector)
      by (rewrite <- (Nat.add_0_r i); apply Hrest; reflexivity).
    assert (Hnext : forall n reflector', rest !! n = Some reflector' ->
                      reflectors j !! (S i + n)%nat = Some reflector').
    { intros n reflector' Hn. replace (S i + n)%nat with (i + S n)%nat by lia.
      apply Hrest. exact Hn. }
    specialize (IH (S i) Hnext).
    pose proof (candidate_dec ambulancePos j i reflector Hi) as Hcand.
    cbn [scanReflectors].
    destruct (includes (reflectorChain j) i) eqn:Hinc;
      [|destruct (reflectorFires ambulancePos j reflector) eqn:Hfire].
    + destruct (scanReflectors ambulancePos j (S i) rest) as [r|].
      * destruct IH as (Hle & Hr & Hfirst). split; [lia|]. split; [exact Hr|].
        intros m Hm. destruct (decide (m = i)) as [->|Hne].
        -- rewrite Hcand. intros [? _]. discriminate.
        -- apply Hfirst. lia.
      * intros m Hm. cbn [length] in Hm. destruct (decide (m = i)) as [->|Hne].
        -- rewrite Hcand. intros [? _]. discriminate.
        -- apply IH. lia.
    + split; [lia|]. split; [apply Hcand; auto|]. intros m Hm. lia.
    + destruct (scanReflectors ambulancePos j (S i) rest) as [r|].
      * destruct IH as (Hle & Hr & Hfirst). split; [lia|]. split; [exact Hr|].
        intros m Hm. destruct (decide (m = i)) as [->|Hne].
        -- rewrite Hcand. intros [_ ?]. discriminate.
        -- apply Hfirst. lia.
      * intros m Hm. cbn [length] in Hm. destruct (decide (m = i)) as [->|Hne].
        -- rewrite Hcand. intros [_ ?]. discriminate.
        -- apply IH. lia.
Qed.

Lemma control_give_lookup (junctionId : Z) (js : list Junction) (k : nat)
    (x : Junction) :
  js !! k = Some x ->
  exists y,
    controlTrafficLightsForJunction junctionId true js !! k = Some y
    /\ reflectors y = reflectors x /\ reflectorChain y = reflectorChain x.
Proof.
  intros Hx. unfold controlTrafficLightsForJunction.
  destruct (findIndex _ js) as [i|]; [|exists x; auto].
  rewrite list_lookup_alter. destruct (decide (i = k)) as [->|Hne].
  - rewrite Hx. cbn. eexists. split; [reflexivity|]. split; reflexivity.
  - exists x. auto.
Qed.

Lemma triggerSignal_signals (reflector : SmartReflector.t) :
  SmartReflector.isSignaling (SmartReflector.triggerSignal reflector) = true
  /\ SmartReflector.position (SmartReflector.triggerSignal reflector)
     = SmartReflector.position reflector.
Proof.
  unfold SmartReflector.triggerSignal.
  destruct (SmartReflector.isSignaling reflector) eqn:E; auto.
Qed.

Lemma reflectorPhase_not_moving (amb : Ambulance.t) (k : nat)
    (js : list Junction) :
  reflectorPhase amb false k js = js.
Proof.
  unfold reflectorPhase. destruct (js !! k); [|reflexivity].
  rewrite andb_false_r. reflexivity.
Qed.

(** The scan of the reflectors of one junction: the first candidate in
    placement order, if there is one, gets its pulse and is appended to
    the chain, and nothing else changes in the chain or the
    reflectors. *)
Lemma reflectorPhase_first_candidate
    (amb : Ambulance.t) (k : nat) (js : list Junction) (j : Junction) :
  js !! k = Some j ->
  reflectors j <> [] ->
  let ambulancePos := Ambulance.getPosition amb in
  exists j',
    reflectorPhase amb true k js !! k = Some j'
    /\ ((exists r,
           Spec.firstCandidate ambulancePos j r
           /\ reflectorChain j' = reflectorChain j ++ [r]
           /\ reflectors j'
              = alter SmartReflector.triggerSignal r (reflectors j)
           /\ exists fired,
                reflectors j' !! r = Some fired
                /\ SmartReflector.isSignaling fired = true)
        \/ ((forall i, ~ Spec.candidate ambulancePos j i)
            /\ reflectorChain j' = reflectorChain j
            /\ reflectors j' = reflectors j))
    /\ (length (reflectorChain j') <= S (length (reflectorChain j)))%nat.
Proof.
  intros Hj Hne ambulancePos. unfold reflectorPhase. rewrite Hj.
  assert (Hlen : (0 <? length (reflectors j))%nat = true).
  { apply Nat.ltb_lt. destruct (reflectors j); [congruence | cbn; lia]. }
  rewrite Hlen. cbn [andb].
  pose proof (scanReflectors_first ambulancePos j (reflectors j) 0
                (fun n reflector H => H)) as Hscan.
  fold ambulancePos.
  destruct (scanReflectors ambulancePos j 0 (reflectors j)) as [r|].
  - destruct Hscan as (_ & Hcand & Hfirst).
    pose proof Hcand as (reflector & Hr & Hnot & Hfire).
    assert (Hchained : chainReflector r j
              = set_reflectorChain (reflectorChain j ++ [r])
                  (set_reflectors
                     (alter SmartReflector.triggerSignal r (reflectors j)) j)).
    { unfold chainReflector.
      apply includes_not_elem_of in Hnot. rewrite Hnot. reflexivity. }
    assert (Hk : alter (chainReflector r) k js !! k = Some (chainReflector r j)).
    { rewrite list_lookup_alter. destruct (decide (k = k)); [|congruence].
      rewrite Hj. reflexivity. }
    assert (Hresult : exists j',
              (if negb (isAmbulanceApproaching j)
               then alter markApproaching k
                      (controlTrafficLightsForJunction (id j) true
                         (alter (chainReflector r) k js))
               else alter (chainReflector r) k js) !! k = Some j'
              /\ reflectors j' = reflectors (chainReflector r j)
              /\ reflectorChain j' = reflectorChain (chainReflector r j)).
    { destruct (negb (isAmbulanceApproaching j)).
      - destruct (control_give_lookup (id j) _ k _ Hk) as (y & Hy & Hy1 & Hy2).
        exists (markApproaching y). rewrite list_lookup_alter.
        destruct (decide (k = k)); [|congruence]. rewrite Hy.
        split; [reflexivity|]. split; [exact Hy1 | exact Hy2].
      - exists (chainReflector r j). auto. }
    destruct Hresult as (j' & Hj' & Hrefl & Hchain).
    rewrite Hchained in Hrefl, Hchain.
    cbn [reflectors reflectorChain set_reflectors set_reflectorChain]
      in Hrefl, Hchain.
    exists j'. split; [exact Hj'|]. split.
    + left. exists r. split.
      { split; [exact Hcand|]. intros i Hi. apply Hfirst. lia. }
      split; [exact Hchain|]. split; [exact Hrefl|].
      exists (SmartReflector.triggerSignal reflector).
      rewrite Hrefl, list_lookup_alter.
      destruct (decide (r = r)); [|congruence]. rewrite Hr.
      split; [reflexivity | apply triggerSignal_signals].
    + rewrite Hchain, length_app. cbn. lia.
  - exists j. split; [exact Hj|]. split; [|lia].
    right. split; [|auto].
    intros i Hcand. pose proof Hcand as (reflector & Hi & _).
    apply lookup_lt_Some in Hi. apply (Hscan i); [lia | exact Hcand].
Qed.

End ReflectorChain.

(** ** The junction array under distinct ids *)

Section DistinctIds.

Import Simulation.

Lemma findIndex_unique (js : list Junction) : forall (k : nat) (j : Junction),
  Spec.uniqueIds js -> js !! k = Some j ->
  findIndex (fun j' => (id j' =? id j)%Z) js = Some k.
Proof.
  unfold Spec.uniqueIds.
  induction js as [|a js IH]; intros k j Hnodup Hk; [discriminate Hk|].
  cbn [map] in Hnodup. apply NoDup_cons in Hnodup as [Hnotin Hnodup].
  destruct k as [|k]; cbn [findIndex].
  - injection Hk as ->. rewrite Z.eqb_refl. reflexivity.
  - cbn in Hk.
    assert (Hne : (id a =? id j)%Z = false).
    { apply Z.eqb_neq. intros Heq. apply Hnotin. rewrite Heq.
      apply list_elem_of_fmap. exists j.
      split; [reflexivity | apply (list_elem_of_lookup_2 js k j Hk)]. }
    rewrite Hne, (IH k j Hnodup Hk). reflexivity.
Qed.

Lemma keepsId_alter (f : Junction -> Junction) (i : nat) (js : list Junction) :
  Spec.keepsId f -> map id (alter f i js) = map id js.
Proof.
  intros Hf. revert i. induction js as [|a js IH]; intros [|i]; cbn;
    rewrite ?Hf, ?IH; reflexivity.
Qed.

Lemma uniqueIds_alter (f : Junction -> Junction) (i : nat) (js : list Junction) :
  Spec.keepsId f -> Spec.uniqueIds js -> Spec.uniqueIds (alter f i js).
Proof.
  intros Hf. unfold Spec.uniqueIds. rewrite keepsId_alter by exact Hf. auto.
Qed.

Lemma keepsId_givePriority : Spec.keepsId givePriority.
Proof. intros j. reflexivity. Qed.

Lemma keepsId_releaseJunction : Spec.keepsId releaseJunction.
Proof.
  intros j. unfold releaseJunction.
  match goal with |- context [applyJunctionPhaseState true ?x] =>
    pose proof (applyJunctionPhaseState_fields true x) as F
  end.
  cbv zeta in F. destruct F as (F & _). rewrite F. reflexivity.
Qed.

Lemma keepsId_markApproaching : Spec.keepsId markApproaching.
Proof. intros j. reflexivity. Qed.

Lemma keepsId_markPassed : Spec.keepsId markPassed.
Proof. intros j. reflexivity. Qed.

Lemma keepsId_chainReflector (r : nat) : Spec.keepsId (chainReflector r).
Proof.
  intros j. unfold chainReflector.
  destruct (negb (includes (reflectorChain j) r)); reflexivity.
Qed.

Lemma keepsId_cycleJunction (deltaTime : Q) : Spec.keepsId (cycleJunction deltaTime).
Proof.
  intros j. unfold cycleJunction.
  destruct (isUnderNormalCycle j && (0 <? length (trafficLights j))%nat);
    [|reflexivity].
  cbn [currentPhaseTimer set_currentPhaseTimer].
  destruct (currentPhaseTimer j - deltaTime <=? 0); [|reflexivity].
  match goal with |- context [applyJunctionPhaseState false ?x] =>
    pose proof (applyJunctionPhaseState_fields false x) as F
  end.
  cbv zeta in F. destruct F as (F & _). rewrite F. reflexivity.
Qed.

Lemma keepsId_compose (f g : Junction -> Junction) :
  Spec.keepsId f -> Spec.keepsId g -> Spec.keepsId (f ∘ g).
Proof. intros Hf Hg j. cbn. rewrite Hf, Hg. reflexivity. Qed.

Lemma keepsId_proximityStep (amb : Ambulance.t) (moving : bool) :
  Spec.keepsId (Spec.proximityStep amb moving).
Proof.
  intros j. unfold Spec.proximityStep.
  match goal with |- context [if ?c then _ else _] => destruct c end;
    reflexivity.
Qed.

Lemma keepsId_reflectorStep (amb : Ambulance.t) (moving : bool) :
  Spec.keepsId (Spec.reflectorStep amb moving).
Proof.
  intros j. unfold Spec.reflectorStep.
  destruct ((0 <? length (reflectors j))%nat && moving); [|reflexivity].
  destruct (scanReflectors _ j 0 (reflectors j)) as [r|]; [|reflexivity].
  destruct (negb (isAmbulanceApproaching j)); cbn;
    apply keepsId_chainReflector.
Qed.

Lemma keepsId_releaseStep (amb : Ambulance.t) :
  Spec.keepsId (Spec.releaseStep amb).
Proof.
  intros j. unfold Spec.releaseStep.
  destruct (releaseFires amb j); [|reflexivity].
  cbn. apply keepsId_releaseJunction.
Qed.

Lemma keepsId_junctionStep (amb : Ambulance.t) :
  Spec.keepsId (Spec.junctionStep amb).
Proof.
  intros j. unfold Spec.junctionStep.
  destruct (hasAmbulancePassed j); [reflexivity|]. cbv zeta.
  rewrite keepsId_releaseStep, keepsId_reflectorStep, keepsId_proximityStep.
  reflexivity.
Qed.

(** With distinct ids the lookup of [controlTrafficLightsForJunction]
    finds the junction whose [id] it is given. *)
Lemma control_unique (js : list Junction) (k : nat) (j : Junction) (give : bool) :
  Spec.uniqueIds js -> js !! k = Some j ->
  controlTrafficLightsForJunction (id j) give js
  = alter (if give then givePriority else releaseJunction) k js.
Proof.
  intros Hids Hk. unfold controlTrafficLightsForJunction.
  rewrite (findIndex_unique js k j Hids Hk). reflexivity.
Qed.

Lemma alter_at (f g : Junction -> Junction) (k : nat) (js : list Junction)
    (j : Junction) :
  js !! k = Some j -> f j = g j -> alter f k js = alter g k js.
Proof.
  intros Hk Heq. apply list_alter_ext; [|reflexivity].
  intros x Hx. congruence.
Qed.

Lemma alter_same (f : Junction -> Junction) (k : nat) (js : list Junction)
    (j : Junction) :
  js !! k = Some j -> f j = j -> alter f k js = js.
Proof.
  intros Hk Heq. rewrite (alter_at f (fun x => x) k js j Hk Heq).
  apply list_alter_id. reflexivity.
Qed.

Lemma proximityPhase_unique (amb : Ambulance.t) (moving : bool) (k : nat)
    (js : list Junction) (j : Junction) :
  Spec.uniqueIds js -> js !! k = Some j ->
  proximityPhase amb moving k js = alter (Spec.proximityStep amb moving) k js.
Proof.
  intros Hids Hk. unfold proximityPhase. rewrite Hk.
  destruct (negb (isAmbulanceApproaching j) && moving && _) eqn:Hcond.
  - rewrite (control_unique js k j true Hids Hk), list_alter_alter_eq.
    apply (alter_at _ _ k js j Hk).
    unfold Spec.proximityStep. rewrite Hcond. reflexivity.
  - symmetry. apply (alter_same _ k js j Hk).
    unfold Spec.proximityStep. rewrite Hcond. reflexivity.
Qed.

Lemma reflectorPhase_unique (amb : Ambulance.t) (moving : bool) (k : nat)
    (js : list Junction) (j : Junction) :
  Spec.uniqueIds js -> js !! k = Some j ->
  reflectorPhase amb moving k js = alter (Spec.reflectorStep amb moving) k js.
Proof.
  intros Hids Hk. unfold reflectorPhase. rewrite Hk.
  destruct ((0 <? length (reflectors j))%nat && moving) eqn:Hscanned;
    [destruct (scanReflectors (Ambulance.getPosition amb) j 0 (reflectors j))
       as [r|] eqn:Hscan|].
  - destruct (negb (isAmbulanceApproaching j)) eqn:Happr.
    + assert (Hk' : alter (chainReflector r) k js !! k
                    = Some (chainReflector r j))
        by (rewrite list_lookup_alter_eq, Hk; reflexivity).
      pose proof (uniqueIds_alter _ k js (keepsId_chainReflector r) Hids)
        as Hids'.
      rewrite <- (keepsId_chainReflector r j).
      rewrite (control_unique _ k _ true Hids' Hk'), !list_alter_alter_eq.
      apply (alter_at _ _ k js j Hk).
      unfold Spec.reflectorStep. rewrite Hscanned, Hscan, Happr. reflexivity.
    + apply (alter_at _ _ k js j Hk).
      unfold Spec.reflectorStep. rewrite Hscanned, Hscan, Happr. reflexivity.
  - symmetry. apply (alter_same _ k js j Hk).
    unfold Spec.reflectorStep. rewrite Hscanned, Hscan. reflexivity.
  - symmetry. apply (alter_same _ k js j Hk).
    unfold Spec.reflectorStep. rewrite Hscanned. reflexivity.
Qed.

Lemma releasePhase_unique (amb : Ambulance.t) (k : nat)
    (js : list Junction) (j : Junction) :
  Spec.uniqueIds js -> js !! k = Some j ->
  releasePhase amb k js = alter (Spec.releaseStep amb) k js.
Proof.
  intros Hids Hk. unfold releasePhase. rewrite Hk.
  destruct (releaseFires amb j) eqn:Hfires.
  - rewrite (control_unique js k j false Hids Hk), list_alter_alter_eq.
    apply (alter_at _ _ k js j Hk).
    unfold Spec.releaseStep. rewrite Hfires. reflexivity.
  - symmetry. apply (alter_same _ k js j Hk).
    unfold Spec.releaseStep. rewrite Hfires. reflexivity.
Qed.

Lemma junctionTick_unique (amb : Ambulance.t) (k : nat) (js : list Junction) :
  Spec.uniqueIds js ->
  junctionTick amb k js = alter (Spec.junctionStep amb) k js.
Proof.
  intros Hids. unfold junctionTick.
  destruct (js !! k) as [j|] eqn:Hk.
  - destruct (hasAmbulancePassed j) eqn:Hpassed.
    + symmetry. apply (alter_same _ k js j Hk).
      unfold Spec.junctionStep. rewrite Hpassed. reflexivity.
    + set (moving := ambulanceMovingTowardsJunction amb (center j)).
      rewrite (proximityPhase_unique amb moving k js j Hids Hk).
      rewrite (reflectorPhase_unique amb moving k _
                 (Spec.proximityStep amb moving j)).
      2: apply uniqueIds_alter; [apply keepsId_proximityStep | exact Hids].
      2: rewrite list_lookup_alter_eq, Hk; reflexivity.
      rewrite (releasePhase_unique amb k _
                 (Spec.reflectorStep amb moving
                    (Spec.proximityStep amb moving j))).
      2: { apply uniqueIds_alter; [apply keepsId_reflectorStep|].
           apply uniqueIds_alter; [apply keepsId_proximityStep | exact Hids]. }
      2: rewrite !list_lookup_alter_eq, Hk; reflexivity.
      rewrite !list_alter_alter_eq.
      apply (alter_at _ _ k js j Hk).
      unfold Spec.junctionStep. rewrite Hpassed. reflexivity.
  - apply lookup_ge_None in Hk. revert Hk. clear. revert k.
    induction js as [|a js IH]; intros [|k] Hk; cbn in *;
      try reflexivity; try lia.
    f_equal. apply IH. lia.
Qed.

Lemma forEach_unique (amb : Ambulance.t) (l : list Junction) :
  forall pre : list Junction,
  Spec.uniqueIds (pre ++ l) ->
  foldl (fun junctions k => junctionTick amb k junctions) (pre ++ l)
    (seq (length pre) (length l))
  = pre ++ map (Spec.junctionStep amb) l.
Proof.
  induction l as [|a l IH]; intros pre Hids; [reflexivity|].
  cbn [length seq foldl map].
  rewrite (junctionTick_unique amb (length pre) _ Hids).
  assert (Halter : alter (Spec.junctionStep amb) (length pre) (pre ++ a :: l)
                   = (pre ++ [Spec.junctionStep amb a]) ++ l).
  { rewrite alter_app_r_alt by lia. rewrite Nat.sub_diag.
    rewrite <- app_assoc. reflexivity. }
  assert (Hids' : Spec.uniqueIds ((pre ++ [Spec.junctionStep amb a]) ++ l)).
  { rewrite <- Halter. apply uniqueIds_alter;
      [apply keepsId_junctionStep | exact Hids]. }
  rewrite Halter.
  replace (S (length pre)) with (length (pre ++ [Spec.junctionStep amb a]))
    by (rewrite length_app; cbn; lia).
  rewrite (IH _ Hids'), <- app_assoc. reflexivity.
Qed.

(** With distinct ids, [updateAmbulanceLogic] is the frame of each
    junction on its own. *)
Lemma updateAmbulanceLogic_unique (amb : Ambulance.t) (js : list Junction) :
  Spec.uniqueIds js ->
  updateAmbulanceLogic (Some amb) js
  = if Spec.ambulanceOnPath amb then map (Spec.junctionStep amb) js else js.
Proof.
  intros Hids. unfold updateAmbulanceLogic, Spec.ambulanceOnPath.
  destruct (Ambulance.model amb); cbn [negb orb andb]; [|reflexivity].
  destruct (Nat.eqb_spec (length (Ambulance.path amb)) 0) as [H0|H0].
  { rewrite H0. reflexivity. }
  destruct (Nat.leb_spec (length (Ambulance.path amb))
              (Ambulance.currentPathIndex amb)) as [Hle|Hlt].
  - assert (H : (Ambulance.currentPathIndex amb
                 <? length (Ambulance.path amb))%nat = false)
      by (apply Nat.ltb_ge; lia).
    rewrite H. reflexivity.
  - assert (H : (Ambulance.currentPathIndex amb
                 <? length (Ambulance.path amb))%nat = true)
      by (apply Nat.ltb_lt; lia).
    rewrite H. apply (forEach_unique amb js []). exact Hids.
Qed.

Lemma uniqueIds_updateAmbulanceLogic (ambulance : option Ambulance.t)
    (js : list Junction) :
  Spec.uniqueIds js -> Spec.uniqueIds (updateAmbulanceLogic ambulance js).
Proof.
  intros Hids. destruct ambulance as [amb|]; [|exact Hids].
  rewrite updateAmbulanceLogic_unique by exact Hids.
  destruct (Spec.ambulanceOnPath amb); [|exact Hids].
  unfold Spec.uniqueIds in *. rewrite map_map.
  erewrite map_ext; [exact Hids|]. apply keepsId_junctionStep.
Qed.

Lemma neutral_proximityStep (amb : Ambulance.t) (moving : bool) :
  Spec.neutral (Spec.proximityStep amb moving).
Proof.
  intros j. unfold Spec.proximityStep.
  match goal with |- context [if ?c then _ else _] => destruct c end;
    split; reflexivity.
Qed.

Lemma neutral_reflectorStep (amb : Ambulance.t) (moving : bool) :
  Spec.neutral (Spec.reflectorStep amb moving).
Proof.
  intros j. unfold Spec.reflectorStep.
  destruct ((0 <? length (reflectors j))%nat && moving); [|split; reflexivity].
  destruct (scanReflectors _ j 0 (reflectors j)) as [r|]; [|split; reflexivity].
  destruct (negb (isAmbulanceApproaching j)); cbn;
    apply neutral_chainReflector.
Qed.

Lemma setLight_isOverridden (silent : bool) (index : nat)
    (state : TrafficLight.LIGHT_STATE) (lights : list TrafficLight.t) :
  map TrafficLight.isOverridden (setLight silent index state lights)
  = map TrafficLight.isOverridden lights.
Proof.
  unfold setLight. revert index.
  induction lights as [|l lights IH]; intros [|index]; cbn;
    rewrite ?IH; try reflexivity.
  f_equal. unfold TrafficLight.setLightState.
  destruct (negb false && TrafficLight.isOverridden l); reflexivity.
Qed.

Lemma applyJunctionPhaseState_isOverridden (silent : bool) (j : Junction) :
  map TrafficLight.isOverridden (trafficLights (applyJunctionPhaseState silent j))
  = map TrafficLight.isOverridden (trafficLights j).
Proof.
  unfold applyJunctionPhaseState.
  destruct (length (trafficLights j) <? 4)%nat; [reflexivity|].
  destruct (JUNCTION_CYCLE_DEFINITION !! currentPhaseIndex j) as [def|];
    [|reflexivity].
  cbn [trafficLights set_trafficLights].
  destruct (phase def); rewrite !setLight_isOverridden; reflexivity.
Qed.

Lemma lightsFree_map (j : Junction) :
  Spec.lightsFree j
  <-> Forall (fun b => b = false) (map TrafficLight.isOverridden (trafficLights j)).
Proof. unfold Spec.lightsFree. rewrite Forall_map. reflexivity. Qed.

(** What the release branch leaves of a junction. *)
Lemma release_effects (j : Junction) :
  let j' := markPassed (releaseJunction j) in
  Spec.lightsFree j'
  /\ length (trafficLights j') = length (trafficLights j)
  /\ currentPhaseIndex j' = 2%nat
  /\ currentPhaseTimer j' = phaseSeconds 2
  /\ reflectorChain j' = []
  /\ hasAmbulancePassed j' = true
  /\ isAmbulanceApproaching j' = false
  /\ isUnderNormalCycle j' = true.
Proof.
  cbv zeta. unfold releaseJunction.
  match goal with |- context [applyJunctionPhaseState true ?x] =>
    pose proof (applyJunctionPhaseState_fields true x) as F;
    pose proof (applyJunctionPhaseState_isOverridden true x) as G;
    set (released := applyJunctionPhaseState true x) in *
  end.
  cbv zeta in F. destruct F as (_ & _ & _ & _ & _ & _ & F1 & F2 & _ & F3).
  cbn in F1, F2, F3, G. rewrite length_map in F3.
  split.
  { apply lightsFree_map. cbn [markPassed trafficLights set_isUnderNormalCycle
      set_reflectorChain set_hasAmbulancePassed set_isAmbulanceApproaching].
    rewrite G, map_map. apply Forall_map, Forall_forall. reflexivity. }
  cbn. repeat split; assumption.
Qed.

(** C4.  In a frame in which a junction is released, that is in which
    its [hasAmbulancePassed] turns from false to true, the preemption
    update of that frame leaves the junction with the override released
    on every one of its lights, the cycle at the ALL_RED phase of index
    2 with the full duration of that phase, one second, on the timer,
    an empty reflector chain and [hasAmbulancePassed] set. *)
Theorem release_side_effects
    (amb : Ambulance.t) (js : list Junction) (k : nat) (j j' : Junction) :
  Spec.uniqueIds js ->
  js !! k = Some j ->
  updateAmbulanceLogic (Some amb) js !! k = Some j' ->
  hasAmbulancePassed j = false ->
  hasAmbulancePassed j' = true ->
  Spec.lightsFree j'
  /\ length (trafficLights j') = length (trafficLights j)
  /\ phase <$> JUNCTION_CYCLE_DEFINITION !! currentPhaseIndex j' = Some ALL_RED
  /\ currentPhaseTimer j' = phaseSeconds (currentPhaseIndex j')
  /\ currentPhaseTimer j' == 1
  /\ reflectorChain j' = []
  /\ hasAmbulancePassed j' = true
  /\ isAmbulanceApproaching j' = false
  /\ isUnderNormalCycle j' = true.
Proof.
  intros Hids Hj Hj' Hbefore Hafter.
  rewrite updateAmbulanceLogic_unique in Hj' by exact Hids.
  destruct (Spec.ambulanceOnPath amb); [|congruence].
  rewrite list_lookup_fmap, Hj in Hj'. injection Hj' as <-.
  unfold Spec.junctionStep in *. rewrite Hbefore in *. cbv zeta in *.
  set (moving := ambulanceMovingTowardsJunction amb (center j)) in *.
  set (j2 := Spec.reflectorStep amb moving (Spec.proximityStep amb moving j)) in *.
  assert (Hj2 : hasAmbulancePassed j2 = false
                /\ length (trafficLights j2) = length (trafficLights j)).
  { subst j2. split.
    - destruct (neutral_reflectorStep amb moving
                  (Spec.proximityStep amb moving j)) as [_ ->].
      destruct (neutral_proximityStep amb moving j) as [_ ->]. exact Hbefore.
    - unfold Spec.reflectorStep, Spec.proximityStep, chainReflector.
      repeat match goal with
             | |- context [if ?c then _ else _] => destruct c
             | |- context [match ?c with Some _ => _ | None => _ end] =>
                 destruct c
             end; cbn; rewrite ?length_alter; reflexivity. }
  destruct Hj2 as [Hp2 Hl2].
  unfold Spec.releaseStep in *.
  destruct (releaseFires amb j2); [|congruence].
  destruct (release_effects j2) as (E1 & E2 & E3 & E4 & E5 & E6 & E7 & E8).
  split; [exact E1|]. split; [congruence|].
  split; [rewrite E3; reflexivity|].
  split; [rewrite E3; exact E4|].
  split; [rewrite E4; reflexivity|].
  auto.
Qed.

Lemma releaseState_uniqueIds : Spec.uniqueIds (junctions Spec.releaseState).
Proof.
  unfold Spec.uniqueIds.
  apply (bool_decide_unpack (NoDup (map id (junctions Spec.releaseState)))).
  vm_compute. exact I.
Qed.

Lemma release_side_effects_witness :
  exists j',
    updateAmbulanceLogic
      (Some (Ambulance.update (H := rationalThree) (1 / 60)
               Spec.passingAmbulance))
      (junctions Spec.releaseState) !! 1%nat = Some j'
    /\ Spec.lightsFree j'
    /\ reflectorChain j' = [].
Proof.
  destruct (junctions Spec.releaseState !! 1%nat) as [j|] eqn:Hj;
    [|vm_compute in Hj; discriminate Hj].
  destruct (updateAmbulanceLogic
              (Some (Ambulance.update (H := rationalThree) (1 / 60)
                       Spec.passingAmbulance))
              (junctions Spec.releaseState) !! 1%nat) as [j'|] eqn:Hj';
    [|vm_compute in Hj'; discriminate Hj'].
  exists j'. split; [reflexivity|].
  destruct (release_side_effects _ _ 1 j j' releaseState_uniqueIds Hj Hj')
    as (E1 & _ & _ & _ & _ & E5 & _).
  - vm_compute in Hj. injection Hj as <-. reflexivity.
  - vm_compute in Hj'. injection Hj' as <-. reflexivity.
  - auto.
Defined.

End DistinctIds.

(** ** Reflectors in one frame *)

Section ReflectorsPerFrame.

Import Simulation.

(** In one frame a junction gets at most one more reflector in its
    chain, and at most one of its reflectors is triggered. *)
Lemma junctionStep_sensors (amb : Ambulance.t) (j : Junction) :
  (length (reflectorChain (Spec.junctionStep amb j))
   <= S (length (reflectorChain j)))%nat
  /\ (reflectors (Spec.junctionStep amb j) = reflectors j
      \/ exists r,
           reflectors (Spec.junctionStep amb j)
           = alter SmartReflector.triggerSignal r (reflectors j)).
Proof.
  unfold Spec.junctionStep.
  destruct (hasAmbulancePassed j); [split; [lia | left; reflexivity]|].
  cbv zeta. set (moving := ambulanceMovingTowardsJunction amb (center j)).
  set (j1 := Spec.proximityStep amb moving j).
  assert (H1 : reflectors j1 = reflectors j
               /\ reflectorChain j1 = reflectorChain j).
  { subst j1. unfold Spec.proximityStep.
    match goal with |- context [if ?c then _ else _] => destruct c end;
      split; reflexivity. }
  destruct H1 as [R1 C1].
  set (j2 := Spec.reflectorStep amb moving j1).
  assert (H2 : (length (reflectorChain j2) <= S (length (reflectorChain j1)))%nat
               /\ (reflectors j2 = reflectors j1
                   \/ exists r, reflectors j2
                                = alter SmartReflector.triggerSignal r
                                    (reflectors j1))).
  { subst j2. unfold Spec.reflectorStep.
    destruct ((0 <? length (reflectors j1))%nat && moving);
      [|split; [lia | left; reflexivity]].
    destruct (scanReflectors _ j1 0 (reflectors j1)) as [r|];
      [|split; [lia | left; reflexivity]].
    assert (Hc : (length (reflectorChain (chainReflector r j1))
                  <= S (length (reflectorChain j1)))%nat
                 /\ (reflectors (chainReflector r j1) = reflectors j1
                     \/ reflectors (chainReflector r j1)
                        = alter SmartReflector.triggerSignal r (reflectors j1))).
    { unfold chainReflector.
      destruct (negb (includes (reflectorChain j1) r)); cbn.
      - rewrite length_app. cbn. split; [lia | right; reflexivity].
      - split; [lia | left; reflexivity]. }
    destruct Hc as [Hlen Hrefl].
    destruct (negb (isAmbulanceApproaching j1)); cbn;
      (split; [exact Hlen | destruct Hrefl as [->| ->]; eauto]). }
  destruct H2 as [L2 R2]. rewrite R1, C1 in *.
  unfold Spec.releaseStep. destruct (releaseFires amb j2);
    [|split; [exact L2 | exact R2]].
  destruct (release_effects j2) as (_ & _ & _ & _ & E & _).
  rewrite E. split; [cbn; lia|].
  assert (Hkeep : reflectors (markPassed (releaseJunction j2)) = reflectors j2).
  { unfold releaseJunction.
    match goal with |- context [applyJunctionPhaseState true ?x] =>
      pose proof (applyJunctionPhaseState_fields true x) as F
    end.
    cbv zeta in F. destruct F as (_ & _ & F & _).
    cbn [markPassed reflectors set_isUnderNormalCycle set_reflectorChain
         set_hasAmbulancePassed set_isAmbulanceApproaching].
    rewrite F. reflexivity. }
  rewrite Hkeep. exact R2.
Qed.

Lemma candidate_same_sensors (ambulancePos : Vector3.t) (j1 j : Junction)
    (i : nat) :
  reflectors j1 = reflectors j -> reflectorChain j1 = reflectorChain j ->
  Spec.candidate ambulancePos j1 i <-> Spec.candidate ambulancePos j i.
Proof.
  intros R C. unfold Spec.candidate, Spec.mayFire. rewrite R, C. reflexivity.
Qed.

(** The scan on one junction: with reflectors and the ambulance moving
    towards the junction, the first candidate in placement order gets
    its pulse and is appended to the chain, and no other reflector is
    touched; without a candidate, or without a scan, the reflectors
    and the chain stay as they are. *)
Lemma reflectorStep_scan (amb : Ambulance.t) (moving : bool) (j : Junction) :
  let ambulancePos := Ambulance.getPosition amb in
  let j' := Spec.reflectorStep amb moving j in
  hasAmbulancePassed j' = hasAmbulancePassed j
  /\ (((0 <? length (reflectors j))%nat && moving = true
       /\ exists r,
            Spec.firstCandidate ambulancePos j r
            /\ reflectors j'
               = alter SmartReflector.triggerSignal r (reflectors j)
            /\ reflectorChain j' = reflectorChain j ++ [r])
      \/ (((0 <? length (reflectors j))%nat && moving = false
           \/ forall i, ~ Spec.candidate ambulancePos j i)
          /\ reflectors j' = reflectors j
          /\ reflectorChain j' = reflectorChain j)).
Proof.
  cbv zeta. unfold Spec.reflectorStep.
  destruct ((0 <? length (reflectors j))%nat && moving);
    [|split; [reflexivity | right; auto]].
  pose proof (scanReflectors_first (Ambulance.getPosition amb) j (reflectors j) 0
                (fun n reflector H => H)) as Hscan.
  destruct (scanReflectors (Ambulance.getPosition amb) j 0 (reflectors j))
    as [r|].
  - destruct Hscan as (_ & Hcand & Hfirst).
    pose proof Hcand as (reflector & Hr & Hnot & Hfire).
    assert (Hchained : chainReflector r j
              = set_reflectorChain (reflectorChain j ++ [r])
                  (set_reflectors
                     (alter SmartReflector.triggerSignal r (reflectors j)) j)).
    { unfold chainReflector.
      apply includes_not_elem_of in Hnot. rewrite Hnot. reflexivity. }
    rewrite Hchained.
    split; [destruct (negb (isAmbulanceApproaching j)); reflexivity|].
    left. split; [reflexivity|]. exists r.
    split; [split; [exact Hcand | intros i Hi; apply Hfirst; lia]|].
    destruct (negb (isAmbulanceApproaching j)); split; reflexivity.
  - split; [reflexivity|]. right. split; [|auto]. right.
    intros i Hcand. pose proof Hcand as (reflector & Hi & _).
    apply lookup_lt_Some in Hi. apply (Hscan i); [lia | exact Hcand].
Qed.

(** C5.  A frame of [updateAmbulanceLogic], the junctions found by
    their ids and the ambulance on its path, on a junction that the
    ambulance has not passed.  When the reflectors of the junction are
    scanned (the junction has reflectors and the ambulance moves
    towards it) and some reflector is a candidate, that is not in the
    chain and detecting the ambulance or, the chain not being empty,
    near the reflector chained last, then exactly the first candidate
    in placement order gets its pulse, no other reflector of the
    junction is touched, and that reflector is appended to the chain.
    Without a scan or without a candidate the reflectors and the chain
    stay as they are.  So a frame triggers one reflector of a junction
    at most and adds one to its chain at most.  The chain is the one
    the scan leaves unless the release block of the same frame marks
    the junction as passed, which empties it. *)
Theorem reflector_scan_chains_first_candidate
    (amb : Ambulance.t) (k : nat) (js : list Junction) (j : Junction) :
  Spec.uniqueIds js ->
  Spec.ambulanceOnPath amb = true ->
  js !! k = Some j ->
  hasAmbulancePassed j = false ->
  let ambulancePos := Ambulance.getPosition amb in
  let scanned :=
    (0 <? length (reflectors j))%nat
    && ambulanceMovingTowardsJunction amb (center j) in
  exists j',
    updateAmbulanceLogic (Some amb) js !! k = Some j'
    /\ ((scanned = true
         /\ exists r fired,
              Spec.firstCandidate ambulancePos j r
              /\ reflectors j'
                 = alter SmartReflector.triggerSignal r (reflectors j)
              /\ reflectors j' !! r = Some fired
              /\ SmartReflector.isSignaling fired = true
              /\ reflectorChain j'
                 = if hasAmbulancePassed j' then []
                   else reflectorChain j ++ [r])
        \/ ((scanned = false
             \/ forall i, ~ Spec.candidate ambulancePos j i)
            /\ reflectors j' = reflectors j
            /\ reflectorChain j'
               = if hasAmbulancePassed j' then [] else reflectorChain j)).
Proof.
  intros Hids Hon Hj Hpassed ambulancePos scanned.
  rewrite updateAmbulanceLogic_unique by exact Hids. rewrite Hon.
  exists (Spec.junctionStep amb j). rewrite list_lookup_fmap, Hj.
  split; [reflexivity|].
  unfold Spec.junctionStep. rewrite Hpassed. cbv zeta.
  set (moving := ambulanceMovingTowardsJunction amb (center j)) in *.
  set (j1 := Spec.proximityStep amb moving j).
  assert (H1 : reflectors j1 = reflectors j
               /\ reflectorChain j1 = reflectorChain j
               /\ hasAmbulancePassed j1 = hasAmbulancePassed j).
  { subst j1. unfold Spec.proximityStep.
    match goal with |- context [if ?c then _ else _] => destruct c end;
      repeat split; reflexivity. }
  destruct H1 as (R1 & C1 & P1).
  destruct (reflectorStep_scan amb moving j1) as [P2 Hscan].
  fold ambulancePos in Hscan.
  set (j2 := Spec.reflectorStep amb moving j1) in *.
  rewrite R1, C1 in Hscan. rewrite P1, Hpassed in P2.
  assert (H3 : reflectors (Spec.releaseStep amb j2) = reflectors j2
               /\ reflectorChain (Spec.releaseStep amb j2)
                  = if hasAmbulancePassed (Spec.releaseStep amb j2)
                    then [] else reflectorChain j2).
  { unfold Spec.releaseStep. destruct (releaseFires amb j2).
    - destruct (release_effects j2) as (_ & _ & _ & _ & E & E' & _).
      rewrite E, E'. split; [|reflexivity].
      unfold releaseJunction.
      match goal with |- context [applyJunctionPhaseState true ?x] =>
        pose proof (applyJunctionPhaseState_fields true x) as F
      end.
      cbv zeta in F. destruct F as (_ & _ & F & _).
      cbn [markPassed reflectors set_isUnderNormalCycle set_reflectorChain
           set_hasAmbulancePassed set_isAmbulanceApproaching].
      rewrite F. reflexivity.
    - rewrite P2. split; reflexivity. }
  destruct H3 as [R3 C3]. rewrite R3, C3.
  destruct Hscan as [(Hyes & r & Hfirst & Hrefl & Hchain)
                    | (Hno & Hrefl & Hchain)].
  - left. split; [exact Hyes|].
    assert (Hfirst' : Spec.firstCandidate ambulancePos j r).
    { destruct Hfirst as [Hcand Hbefore]. split.
      - apply (candidate_same_sensors ambulancePos j1 j r R1 C1), Hcand.
      - intros i Hi Hc. apply (Hbefore i Hi).
        apply (candidate_same_sensors ambulancePos j1 j i R1 C1), Hc. }
    destruct Hfirst' as [Hcand Hbefore].
    pose proof Hcand as (reflector & Hr & _).
    exists r, (SmartReflector.triggerSignal reflector).
    split; [split; assumption|].
    split; [exact Hrefl|].
    split.
    { rewrite Hrefl, list_lookup_alter.
      destruct (decide (r = r)); [|congruence]. rewrite Hr. reflexivity. }
    split; [apply triggerSignal_signals|].
    rewrite Hchain. reflexivity.
  - right. split.
    + destruct Hno as [Hno|Hno]; [left; exact Hno | right].
      intros i Hc. apply (Hno i).
      apply (candidate_same_sensors ambulancePos j1 j i R1 C1), Hc.
    + split; [exact Hrefl|]. rewrite Hchain. reflexivity.
Qed.

Lemma reflector_scan_chains_first_candidate_witness :
  exists j',
    updateAmbulanceLogic (Some Spec.approachingAmbulance)
      (Simulation.setupEnvironment Road.create) !! 1%nat = Some j'
    /\ reflectorChain j' = [0%nat]
    /\ exists fired,
         reflectors j' !! 0%nat = Some fired
         /\ SmartReflector.isSignaling fired = true.
Proof.
  destruct (Simulation.setupEnvironment Road.create !! 1%nat) as [j|] eqn:Hj;
    [|vm_compute in Hj; discriminate Hj].
  destruct (reflector_scan_chains_first_candidate Spec.approachingAmbulance 1
              (Simulation.setupEnvironment Road.create) j)
    as (j' & Hj' & _).
  - apply (bool_decide_unpack _). vm_compute. exact I.
  - reflexivity.
  - exact Hj.
  - vm_compute in Hj. injection Hj as <-. reflexivity.
  - exists j'. split; [exact Hj'|].
    vm_compute in Hj'. injection Hj' as <-.
    split; [reflexivity|]. eexists. split; reflexivity.
Defined.

End ReflectorsPerFrame.

(** ** The life of a junction *)

Section JunctionLife.

Import Simulation.

Lemma advances_refl (j : Junction) : Spec.advances j j.
Proof. split; [lia | reflexivity]. Qed.

Lemma advances_trans (j1 j2 j3 : Junction) :
  Spec.advances j1 j2 -> Spec.advances j2 j3 -> Spec.advances j1 j3.
Proof.
  unfold Spec.advances, Spec.stage. intros [H1 K1] [H2 K2]. split; [lia|].
  intros Hp. rewrite <- (K1 Hp). apply K2.
  rewrite Hp in H1. destruct (hasAmbulancePassed j2); [reflexivity|].
  destruct (isAmbulanceApproaching j2); cbn in H1; lia.
Qed.

Lemma keepsFlags_advances (f : Junction -> Junction) (j : Junction) :
  Spec.keepsFlags f -> Spec.advances j (f j).
Proof.
  intros Hf. destruct (Hf j) as [Ha Hp].
  unfold Spec.advances, Spec.stage. rewrite Ha, Hp. split; [lia | reflexivity].
Qed.

Lemma keepsFlags_cycleJunction (deltaTime : Q) :
  Spec.keepsFlags (cycleJunction deltaTime).
Proof.
  intros j. unfold cycleJunction.
  destruct (isUnderNormalCycle j && (0 <? length (trafficLights j))%nat);
    [|split; reflexivity].
  cbn [currentPhaseTimer set_currentPhaseTimer].
  destruct (currentPhaseTimer j - deltaTime <=? 0); [|split; reflexivity].
  match goal with |- context [applyJunctionPhaseState false ?x] =>
    pose proof (applyJunctionPhaseState_fields false x) as F
  end.
  cbv zeta in F. destruct F as (_ & _ & _ & _ & F1 & F2 & _).
  rewrite F1, F2. split; reflexivity.
Qed.

Lemma chainReflector_flags (r : nat) : Spec.keepsFlags (chainReflector r).
Proof.
  intros j. unfold chainReflector.
  destruct (negb (includes (reflectorChain j) r)); split; reflexivity.
Qed.

(** A junction that the ambulance has passed is skipped, and no frame
    takes a junction back to an earlier stage. *)
Lemma junctionStep_advances (amb : Ambulance.t) (j : Junction) :
  (hasAmbulancePassed j = true -> Spec.junctionStep amb j = j)
  /\ Spec.advances j (Spec.junctionStep amb j).
Proof.
  unfold Spec.junctionStep.
  destruct (hasAmbulancePassed j) eqn:Hp;
    [split; [reflexivity | apply advances_refl]|].
  split; [discriminate|]. cbv zeta.
  set (moving := ambulanceMovingTowardsJunction amb (center j)).
  unfold Spec.advances, Spec.stage. rewrite Hp.
  split; [|discriminate].
  set (j1 := Spec.proximityStep amb moving j).
  assert (H1 : hasAmbulancePassed j1 = false
               /\ (isAmbulanceApproaching j = true ->
                   isAmbulanceApproaching j1 = true)).
  { subst j1. unfold Spec.proximityStep.
    destruct (isAmbulanceApproaching j) eqn:Ha; cbn [negb andb].
    - auto.
    - match goal with |- context [if ?c then _ else _] => destruct c end;
        cbn; split; congruence. }
  destruct H1 as [Hp1 Ha1].
  set (j2 := Spec.reflectorStep amb moving j1).
  assert (H2 : hasAmbulancePassed j2 = false
               /\ (isAmbulanceApproaching j1 = true ->
                   isAmbulanceApproaching j2 = true)).
  { subst j2. unfold Spec.reflectorStep.
    destruct ((0 <? length (reflectors j1))%nat && moving); [|auto].
    destruct (scanReflectors _ j1 0 (reflectors j1)) as [r|]; [|auto].
    destruct (chainReflector_flags r j1) as [Fa Fp].
    destruct (isAmbulanceApproaching j1) eqn:Ha; cbn [negb].
    - rewrite Fa, Fp. auto.
    - cbn. rewrite Fp. auto. }
  destruct H2 as [Hp2 Ha2].
  unfold Spec.releaseStep.
  destruct (releaseFires amb j2).
  - cbn. destruct (isAmbulanceApproaching j); lia.
  - rewrite Hp2. destruct (isAmbulanceApproaching j) eqn:Ha; [|lia].
    rewrite (Ha2 (Ha1 eq_refl)). lia.
Qed.

Lemma updateAmbulanceLogic_advances (ambulance : option Ambulance.t)
    (js : list Junction) (k : nat) (j : Junction) :
  Spec.uniqueIds js -> js !! k = Some j ->
  exists j',
    updateAmbulanceLogic ambulance js !! k = Some j'
    /\ Spec.advances j j'
    /\ (hasAmbulancePassed j = true -> j' = j).
Proof.
  intros Hids Hj. destruct ambulance as [amb|];
    [|exists j; split; [exact Hj | split; [apply advances_refl | auto]]].
  rewrite updateAmbulanceLogic_unique by exact Hids.
  destruct (Spec.ambulanceOnPath amb);
    [|exists j; split; [exact Hj | split; [apply advances_refl | auto]]].
  exists (Spec.junctionStep amb j). rewrite list_lookup_fmap, Hj.
  destruct (junctionStep_advances amb j) as [Hskip Hadv]. auto.
Qed.

Lemma uniqueIds_manageJunctionCycles (deltaTime : Q) (js : list Junction) :
  Spec.uniqueIds js -> Spec.uniqueIds (manageJunctionCycles deltaTime js).
Proof.
  unfold Spec.uniqueIds, manageJunctionCycles. rewrite map_map.
  intros Hids. erewrite map_ext; [exact Hids|]. apply keepsId_cycleJunction.
Qed.

Section Events.

Context `{Three}.

Lemma uniqueIds_step (e : event) (s : Simulation.t) :
  Spec.uniqueIds (junctions s) -> Spec.uniqueIds (junctions (step e s)).
Proof.
  intros Hids. destruct e as [clockDelta| | |kj r]; cbn [step junctions];
    try exact Hids.
  - unfold animate.
    destruct (ambulance s) as [amb|];
      [destruct (Ambulance.hasFadedOut _)|];
      cbn [junctions]; apply uniqueIds_manageJunctionCycles;
      try exact Hids.
    apply uniqueIds_updateAmbulanceLogic, Hids.
  - apply uniqueIds_alter; [|exact Hids]. intros j. reflexivity.
Qed.

Lemma uniqueIds_run (events : list event) : forall s : Simulation.t,
  Spec.uniqueIds (junctions s) -> Spec.uniqueIds (junctions (run events s)).
Proof.
  induction events as [|e events IH]; intros s Hids; [exact Hids|].
  apply (IH (step e s)), uniqueIds_step, Hids.
Qed.

(** Every event lets every junction advance only. *)
Lemma step_advances (e : event) (s : Simulation.t) (k : nat) (j : Junction) :
  Spec.uniqueIds (junctions s) -> junctions s !! k = Some j ->
  exists j', junctions (step e s) !! k = Some j' /\ Spec.advances j j'.
Proof.
  intros Hids Hj. destruct e as [clockDelta| | |kj r]; cbn [step junctions].
  - assert (Hcycle : forall js, (exists j1, js !! k = Some j1 /\ Spec.advances j j1) ->
              exists j', manageJunctionCycles (Qmin clockDelta (5 / 100)) js !! k
                         = Some j' /\ Spec.advances j j').
    { intros js (j1 & Hj1 & Hadv). eexists.
      unfold manageJunctionCycles. rewrite list_lookup_fmap, Hj1.
      split; [reflexivity|].
      apply (advances_trans _ _ _ Hadv), keepsFlags_advances,
        keepsFlags_cycleJunction. }
    unfold animate.
    destruct (ambulance s) as [amb|];
      [destruct (Ambulance.hasFadedOut _)|];
      cbn [junctions]; apply Hcycle.
    + exists j. split; [exact Hj | apply advances_refl].
    + destruct (updateAmbulanceLogic_advances
                  (Some (Ambulance.update (Qmin clockDelta (5 / 100)) amb))
                  (junctions s) k j Hids Hj) as (j1 & Hj1 & Hadv & _).
      exists j1. auto.
    + exists j. split; [exact Hj | apply advances_refl].
  - exists j. split; [exact Hj | apply advances_refl].
  - exists j. split; [exact Hj | apply advances_refl].
  - rewrite list_lookup_alter. destruct (decide (kj = k)) as [->|Hne].
    + rewrite Hj. eexists. split; [reflexivity|].
      apply (keepsFlags_advances (fun j => set_reflectors _ j)).
      intros x. split; reflexivity.
    + exists j. split; [exact Hj | apply advances_refl].
Qed.

Lemma run_advances (events : list event) :
  forall (s : Simulation.t) (k : nat) (j : Junction),
  Spec.uniqueIds (junctions s) -> junctions s !! k = Some j ->
  exists j', junctions (run events s) !! k = Some j' /\ Spec.advances j j'.
Proof.
  induction events as [|e events IH]; intros s k j Hids Hj.
  - exists j. split; [exact Hj | apply advances_refl].
  - destruct (step_advances e s k j Hids Hj) as (j1 & Hj1 & Hadv1).
    destruct (IH (step e s) k j1 (uniqueIds_step e s Hids) Hj1)
      as (j' & Hj' & Hadv).
    exists j'. split; [exact Hj' | exact (advances_trans _ _ _ Hadv1 Hadv)].
Qed.

Lemma enters_stage (j j' : Junction) :
  Spec.advances j j' ->
  Spec.enters j j' = true -> Spec.stage j = 0%nat /\ (1 <= Spec.stage j')%nat.
Proof.
  unfold Spec.advances, Spec.enters, Spec.stage. intros [Hle Hkeep] He.
  destruct (isAmbulanceApproaching j) eqn:Ha; [discriminate He|].
  destruct (hasAmbulancePassed j) eqn:Hp.
  - rewrite (Hkeep eq_refl) in He. discriminate He.
  - split; [reflexivity|].
    destruct (hasAmbulancePassed j'); [lia|].
    destruct (isAmbulanceApproaching j'); [lia | discriminate He].
Qed.

Lemma entries_after_entry (events : list event) :
  forall (s : Simulation.t) (k : nat) (j : Junction),
  Spec.uniqueIds (junctions s) -> junctions s !! k = Some j ->
  (1 <= Spec.stage j)%nat -> Spec.entries k events s = 0%nat.
Proof.
  induction events as [|e events IH]; intros s k j Hids Hj Hstage;
    [reflexivity|].
  cbn [Spec.entries]. cbv zeta.
  destruct (step_advances e s k j Hids Hj) as (j1 & Hj1 & Hadv).
  rewrite (IH (step e s) k j1 (uniqueIds_step e s Hids) Hj1)
    by (destruct Hadv; lia).
  unfold Spec.entersAt. rewrite Hj, Hj1.
  destruct (Spec.enters j j1) eqn:He; [|reflexivity].
  destruct (enters_stage j j1 Hadv He). lia.
Qed.

(** C10.  From any state in which the junction ids are distinct, as
    they are after [setupEnvironment], and over any run of frames,
    activations of the ambulance, model loads and reflector timeouts:
    a junction enters PREEMPTED at most once; and once its
    [hasAmbulancePassed] is true it stays true, and the preemption
    update returns the junction as it is, whatever the ambulance. *)
Theorem hasAmbulancePassed_is_final
    (events : list event) (s : Simulation.t) (k : nat) :
  Spec.uniqueIds (junctions s) ->
  (Spec.entries k events s <= 1)%nat
  /\ forall j, junctions s !! k = Some j -> hasAmbulancePassed j = true ->
       exists j',
         junctions (run events s) !! k = Some j'
         /\ hasAmbulancePassed j' = true
         /\ forall ambulance,
              updateAmbulanceLogic ambulance (junctions (run events s)) !! k
              = Some j'.
Proof.
  intros Hids. split.
  - revert s Hids. induction events as [|e events IH]; intros s Hids;
      [cbn; lia|].
    cbn [Spec.entries]. cbv zeta.
    specialize (IH (step e s) (uniqueIds_step e s Hids)).
    unfold Spec.entersAt.
    destruct (junctions s !! k) as [j|] eqn:Hj; [|lia].
    destruct (step_advances e s k j Hids Hj) as (j1 & Hj1 & Hadv).
    rewrite Hj1. destruct (Spec.enters j j1) eqn:He; [|lia].
    destruct (enters_stage j j1 Hadv He) as [_ Hstage].
    rewrite (entries_after_entry events (step e s) k j1
               (uniqueIds_step e s Hids) Hj1 Hstage). lia.
  - intros j Hj Hp.
    destruct (run_advances events s k j Hids Hj) as (j' & Hj' & Hle & _).
    assert (Hp' : hasAmbulancePassed j' = true).
    { unfold Spec.stage in Hle. rewrite Hp in Hle.
      destruct (hasAmbulancePassed j'); [reflexivity|].
      destruct (isAmbulanceApproaching j'); lia. }
    exists j'. split; [exact Hj'|]. split; [exact Hp'|].
    intros ambulance.
    destruct (updateAmbulanceLogic_advances ambulance _ k j'
                (uniqueIds_run events s Hids) Hj') as (j2 & Hj2 & _ & Hskip).
    rewrite Hj2, (Hskip Hp'). reflexivity.
Qed.

End Events.

Lemma hasAmbulancePassed_is_final_witness :
  (Spec.entries (H := rationalThree) 1
     [Frame (1 / 60); ActivateAmbulance; Frame (1 / 60)] Spec.approachState
   <= 1)%nat.
Proof.
  apply (proj1 (hasAmbulancePassed_is_final (H := rationalThree)
                  [Frame (1 / 60); ActivateAmbulance; Frame (1 / 60)]
                  Spec.approachState 1
                  ltac:(apply (bool_decide_unpack _); vm_compute; exact I))).
Defined.

(** In that run the middle junction does enter PREEMPTED, in the first
    frame, and the new activation of the ambulance does not make it
    enter again. *)
Example entries_of_the_approach :
  Spec.entries (H := rationalThree) 1
    [Frame (1 / 60); ActivateAmbulance; Frame (1 / 60)] Spec.approachState
  = 1%nat.
Proof. vm_compute. reflexivity. Qed.

End JunctionLife.

(** ** Cars *)

Section Cars.

Import ProceduralCar.

Context `{Three}.

(** Case analysis on the tests of the source, innermost first. *)
Ltac innermost_test :=
  match goal with
  | |- context [if ?b then _ else _] =>
      lazymatch b with
      | context [if _ then _ else _] => fail
      | _ => destruct b eqn:?
      end
  end.

Ltac car_cases :=
  repeat (cbn [isStoppedForLight currentSpeed isEvading speed position
               targetZ initialZ length carWidth
               set_position set_isEvading set_targetZ set_currentSpeed
               set_isStoppedForLight set_x set_z negb andb orb] in *;
          try innermost_test).

Lemma keepsMotion_startEvade (laneZ : Q) : Spec.keepsMotion (startEvade laneZ).
Proof. intros c. unfold startEvade. car_cases; split; reflexivity. Qed.

Lemma keepsMotion_stopEvade : Spec.keepsMotion stopEvade.
Proof. intros c. unfold stopEvade. car_cases; split; reflexivity. Qed.

Lemma stopEvade_isEvading (c : t) :
  isEvading c = true -> isEvading (stopEvade c) = false.
Proof. intros He. unfold stopEvade. rewrite He. reflexivity. Qed.

Lemma update_stoppedMeansStill (deltaTime : Q) (c : t) :
  Spec.stoppedMeansStill c -> Spec.stoppedMeansStill (update deltaTime c).
Proof.
  unfold Spec.stoppedMeansStill. intros Hinv.
  unfold update. cbv zeta.
  match goal with
  | |- context [if negb (isStoppedForLight c) || isEvading c then ?a else c] =>
      set (c1 := if negb (isStoppedForLight c) || isEvading c then a else c)
  end.
  assert (K1 : Spec.sameDrive c c1)
    by (subst c1; unfold Spec.sameDrive; car_cases; repeat split).
  clearbody c1.
  match goal with
  | |- context [if (currentSpeed c1 >? 0) && ?p then ?a else ?b] =>
      set (c2 := if (currentSpeed c1 >? 0) && p then a else b)
  end.
  assert (K2 : Spec.sameDrive c1 c2)
    by (subst c2; unfold Spec.sameDrive; car_cases; repeat split).
  clearbody c2.
  match goal with
  | |- context [if JS.abs (Vector3.z (position c2) - targetZ c2) >? ?q
                then ?a else ?b] =>
      set (c3 := if JS.abs (Vector3.z (position c2) - targetZ c2) >? q
                 then a else b)
  end.
  assert (K3 : Spec.sameDrive c2 c3)
    by (subst c3; unfold Spec.sameDrive; car_cases; repeat split).
  clearbody c3.
  destruct K1 as (S1 & V1 & E1 & _), K2 as (S2 & V2 & E2 & _),
    K3 as (S3 & V3 & E3 & _).
  assert (Hinv3 : isStoppedForLight c3 = true -> currentSpeed c3 = 0)
    by (intros Hs; rewrite V3, V2, V1; apply Hinv; congruence).
  clear - Hinv3.
  destruct (isStoppedForLight c3) eqn:Hs, (isEvading c3) eqn:He;
    car_cases; intros; try congruence; auto.
Qed.

Lemma checkAndHandleTrafficLight_stoppedMeansStill
    (junctionCenter : option Vector3.t) (trafficLight : option TrafficLight.t)
    (needsWay : bool) (c : t) :
  Spec.stoppedMeansStill c ->
  Spec.stoppedMeansStill
    (checkAndHandleTrafficLight junctionCenter trafficLight needsWay c).
Proof.
  unfold Spec.stoppedMeansStill. intros Hinv.
  destruct (isStoppedForLight c) eqn:Hs, (isEvading c) eqn:He;
    unfold checkAndHandleTrafficLight;
    destruct junctionCenter as [center|], trafficLight as [light|];
    try destruct (TrafficLight.currentState light);
    cbv zeta; car_cases; intros; try congruence; auto.
Qed.

Lemma reactToAmbulance_stoppedMeansStill (ambulancePos : option Vector3.t)
    (laneZ : Q) (needsWay : bool) (c : t) :
  Spec.stoppedMeansStill c ->
  Spec.stoppedMeansStill
    (Simulation.reactToAmbulance ambulancePos laneZ needsWay c).
Proof.
  unfold Spec.stoppedMeansStill, Simulation.reactToAmbulance. intros Hinv.
  destruct (keepsMotion_startEvade laneZ c) as [A1 A2].
  destruct (keepsMotion_stopEvade c) as [B1 B2].
  destruct (isStoppedForLight c) eqn:Hs;
    destruct ambulancePos as [pos|]; cbv zeta;
    repeat (cbn [isStoppedForLight currentSpeed set_currentSpeed
                 set_isStoppedForLight negb andb orb];
            rewrite ?A1, ?A2, ?B1, ?B2, ?Hs;
            cbn [negb andb orb];
            try innermost_test);
    intros; try congruence; auto.
Qed.

Lemma carTick_stoppedMeansStill (deltaTime : Q) (ambulance : option Ambulance.t)
    (junctions : list Simulation.Junction) (c : t) :
  Spec.stoppedMeansStill c ->
  Spec.stoppedMeansStill (Simulation.carTick deltaTime ambulance junctions c).
Proof.
  intros Hinv. unfold Simulation.carTick. cbv zeta.
  apply reactToAmbulance_stoppedMeansStill, update_stoppedMeansStill.
  destruct (Simulation.findRelevantLight c junctions) as [[j light]|].
  - apply checkAndHandleTrafficLight_stoppedMeansStill, Hinv.
  - intros Hs. discriminate Hs.
Qed.

Lemma spawnCar_stoppedMeansStill (carTravelDir carLaneRelDir carXPos speedDraw : Q) :
  Spec.stoppedMeansStill
    (Simulation.spawnCar carTravelDir carLaneRelDir carXPos speedDraw).
Proof. intros Hs. discriminate Hs. Qed.

Lemma step_stoppedMeansStill (e : Simulation.event) (s : Simulation.t) :
  Forall Spec.stoppedMeansStill (Simulation.proceduralCars s) ->
  Forall Spec.stoppedMeansStill (Simulation.proceduralCars (Simulation.step e s)).
Proof.
  intros Hcars. destruct e; cbn [Simulation.step Simulation.proceduralCars];
    try exact Hcars.
  unfold Simulation.animate.
  destruct (match Simulation.ambulance s with Some _ => _ | None => _ end)
    as [ambulance junctions].
  cbn [Simulation.proceduralCars]. unfold Simulation.updateCarLogic.
  apply Forall_map. eapply Forall_impl; [exact Hcars|]. intros c.
  apply carTick_stoppedMeansStill.
Qed.

(** C8.  If every car that is stopped for a light stands still, which
    is the case of the cars that [setupProceduralAssets] makes, then
    the same holds after every frame and every other event of a run:
    no car has [isStoppedForLight] true and a [currentSpeed] other than
    0.  The creep override is no exception: it clears
    [isStoppedForLight] before it sets the creep speed. *)
Theorem stopped_cars_stand_still
    (events : list Simulation.event) (s : Simulation.t) (car : t) :
  Forall Spec.stoppedMeansStill (Simulation.proceduralCars s) ->
  car ∈ Simulation.proceduralCars (Simulation.run events s) ->
  isStoppedForLight car = true ->
  currentSpeed car = 0.
Proof.
  intros Hcars. revert s Hcars.
  induction events as [|e events IH]; intros s Hcars Hcar.
  - rewrite Forall_forall in Hcars. exact (Hcars car Hcar).
  - apply (IH (Simulation.step e s)); [|exact Hcar].
    apply step_stoppedMeansStill, Hcars.
Qed.

(** C7, as the code has it.  However far the fade-out is, an
    ambulance that is deactivating, or has faded out, is not active for
    the car logic: the frame of the cars is the one of a simulation
    without ambulance, and no car is evading at the end of it. *)
Theorem deactivating_ambulance_is_absent_for_cars
    (deltaTime : Q) (amb : Ambulance.t)
    (junctions : list Simulation.Junction) (cars : list t) :
  Ambulance.isDeactivating amb = true \/ Ambulance.hasFadedOut amb = true ->
  Simulation.ambulanceActive (Some amb) = false
  /\ Simulation.updateCarLogic deltaTime (Some amb) junctions cars
     = Simulation.updateCarLogic deltaTime None junctions cars
  /\ Forall (fun c => isEvading c = false)
       (Simulation.updateCarLogic deltaTime (Some amb) junctions cars).
Proof.
  intros Hgone.
  assert (Hactive : Simulation.ambulanceActive (Some amb) = false).
  { unfold Simulation.ambulanceActive.
    destruct Hgone as [-> | ->]; cbn; rewrite ?andb_false_r; reflexivity. }
  assert (Htick : forall c,
            Simulation.carTick deltaTime (Some amb) junctions c
            = Simulation.carTick deltaTime None junctions c).
  { intros c. unfold Simulation.carTick, Simulation.activeAmbulancePos,
      Simulation.ambulanceLaneZ. rewrite Hactive. reflexivity. }
  split; [exact Hactive|]. split.
  - unfold Simulation.updateCarLogic. apply map_ext, Htick.
  - unfold Simulation.updateCarLogic. apply Forall_map, Forall_forall.
    intros c _. rewrite Htick.
    unfold Simulation.carTick, Simulation.reactToAmbulance. cbn.
    match goal with |- context [update deltaTime ?x] =>
      set (c1 := update deltaTime x)
    end.
    destruct (isEvading c1) eqn:He.
    + pose proof (stopEvade_isEvading c1 He) as Hstop.
      match goal with |- context [if ?b then _ else _] => destruct b end;
        cbn; exact Hstop.
    + match goal with |- context [if ?b then _ else _] => destruct b end;
        cbn; exact He.
Qed.

End Cars.

Section CarExamples.

Import ProceduralCar.

Lemma stopped_cars_stand_still_witness :
  exists car,
    car ∈ Simulation.proceduralCars
            (Simulation.run (H := rationalThree) [Simulation.Frame (1 / 60)]
               Spec.redLightState)
    /\ isStoppedForLight car = true
    /\ currentSpeed car = 0.
Proof.
  destruct (Simulation.proceduralCars
              (Simulation.run (H := rationalThree) [Simulation.Frame (1 / 60)]
                 Spec.redLightState)) as [|car rest] eqn:Hcars;
    [vm_compute in Hcars; discriminate Hcars|].
  assert (Hstopped : isStoppedForLight car = true)
    by (vm_compute in Hcars; injection Hcars as <- _; reflexivity).
  exists car. split; [|split; [exact Hstopped|]].
  - apply list_elem_of_here.
  - apply (stopped_cars_stand_still (H := rationalThree)
             [Simulation.Frame (1 / 60)] Spec.redLightState car).
    + repeat constructor. apply spawnCar_stoppedMeansStill.
    + rewrite Hcars. apply list_elem_of_here.
    + exact Hstopped.
Defined.

Lemma deactivating_ambulance_is_absent_for_cars_witness :
  Simulation.updateCarLogic (H := rationalThree) (1 / 60)
    (Some Spec.fadingAmbulance) (Simulation.setupEnvironment Road.create)
    [Spec.evadingCar]
  = Simulation.updateCarLogic (H := rationalThree) (1 / 60) None
      (Simulation.setupEnvironment Road.create) [Spec.evadingCar].
Proof.
  apply (deactivating_ambulance_is_absent_for_cars (H := rationalThree)
           (1 / 60) Spec.fadingAmbulance).
  left. reflexivity.
Defined.

(** C7, as the specification has it, fails.  A quarter of a second
    into the fade-out, which the update of the frame does not complete,
    the ambulance is not active for the car logic: a car that evades,
    and that goes on evading in a frame with the ambulance one unit
    before the end of its path, stops evading in a frame with the
    fading ambulance. *)
Lemma fading_ambulance_is_ignored_by_cars :
  let junctions := Simulation.setupEnvironment Road.create in
  Spec.fading Spec.fadingAmbulance
  /\ Spec.fading (Ambulance.update (H := rationalThree) (1 / 60)
                    Spec.fadingAmbulance)
  /\ Simulation.ambulanceActive (Some Spec.fadingAmbulance) = false
  /\ isEvading Spec.evadingCar = true
  /\ isEvading (Simulation.carTick (H := rationalThree) (1 / 60)
                  (Some Spec.arrivingAmbulance) junctions Spec.evadingCar)
     = true
  /\ isEvading (Simulation.carTick (H := rationalThree) (1 / 60)
                  (Some Spec.fadingAmbulance) junctions Spec.evadingCar)
     = false.
Proof.
  cbv zeta. unfold Spec.fading.
  repeat split; vm_compute; reflexivity.
Qed.

End CarExamples.

(** ** The simulation as it is set up *)

Section Setup.

Import Simulation.

Lemma setupEnvironment_uniqueIds (road : Road.t) :
  Spec.uniqueIds (setupEnvironment road).
Proof.
  unfold Spec.uniqueIds, setupEnvironment.
  assert (Hgen : forall l : list nat, NoDup l ->
            NoDup (map id (omap (fun i : nat => setupJunction road (Z.of_nat i)) l))
            /\ forall z, z ∈ map id (omap (fun i : nat =>
                                             setupJunction road (Z.of_nat i)) l) ->
                         exists i, i ∈ l /\ z = Z.of_nat i).
  { induction l as [|i l IH]; intros Hl.
    - split; [constructor | intros z Hz; inversion Hz].
    - apply NoDup_cons in Hl as [Hi Hl]. destruct (IH Hl) as [IH1 IH2].
      cbn [omap list_omap].
      destruct (setupJunction road (Z.of_nat i)) as [j|] eqn:Hj.
      + apply setupJunction_id in Hj as [Hid _]. cbn [map]. split.
        * apply NoDup_cons. split; [|exact IH1].
          intros Hin. apply IH2 in Hin as (i' & Hi' & Heq).
          rewrite Hid in Heq. apply Nat2Z.inj in Heq. subst i'. auto.
        * intros z Hz. apply elem_of_cons in Hz as [->|Hz].
          -- exists i. split; [apply list_elem_of_here | exact Hid].
          -- apply IH2 in Hz as (i' & Hi' & Heq). exists i'.
             split; [apply list_elem_of_further, Hi' | exact Heq].
      + split; [exact IH1|]. intros z Hz.
        apply IH2 in Hz as (i' & Hi' & Heq). exists i'.
        split; [apply list_elem_of_further, Hi' | exact Heq]. }
  apply Hgen, NoDup_ListNoDup, List.seq_NoDup.
Qed.

(** Every state that a run reaches from [new Simulation()] has
    distinct junction ids. *)
Lemma reachable_uniqueIds `{Three} (cars : list ProceduralCar.t)
    (events : list event) :
  Spec.uniqueIds (junctions (run events (create cars))).
Proof. apply uniqueIds_run, setupEnvironment_uniqueIds. Qed.

Lemma chainReflector_lights (r : nat) (j : Junction) :
  trafficLights (chainReflector r j) = trafficLights j
  /\ isUnderNormalCycle (chainReflector r j) = isUnderNormalCycle j.
Proof.
  unfold chainReflector.
  destruct (negb (includes (reflectorChain j) r)); split; reflexivity.
Qed.

Lemma junctionStep_normalMeansFree (amb : Ambulance.t) (j : Junction) :
  Spec.normalMeansFree j -> Spec.normalMeansFree (Spec.junctionStep amb j).
Proof.
  intros Hj. unfold Spec.junctionStep.
  destruct (hasAmbulancePassed j); [exact Hj|]. cbv zeta.
  set (moving := ambulanceMovingTowardsJunction amb (center j)).
  assert (H1 : Spec.normalMeansFree (Spec.proximityStep amb moving j)).
  { unfold Spec.proximityStep.
    match goal with |- context [if ?c then _ else _] => destruct c end;
      [intros Hn; discriminate Hn | exact Hj]. }
  set (j1 := Spec.proximityStep amb moving j) in *.
  assert (H2 : Spec.normalMeansFree (Spec.reflectorStep amb moving j1)).
  { unfold Spec.reflectorStep.
    destruct ((0 <? length (reflectors j1))%nat && moving); [|exact H1].
    destruct (scanReflectors _ j1 0 (reflectors j1)) as [r|]; [|exact H1].
    destruct (negb (isAmbulanceApproaching j1));
      [intros Hn; discriminate Hn|].
    destruct (chainReflector_lights r j1) as [Hl Hn].
    unfold Spec.normalMeansFree, Spec.lightsFree. rewrite Hl, Hn. exact H1. }
  set (j2 := Spec.reflectorStep amb moving j1) in *.
  unfold Spec.releaseStep. destruct (releaseFires amb j2); [|exact H2].
  intros _. apply release_effects.
Qed.

Lemma cycleJunction_normalMeansFree (deltaTime : Q) (j : Junction) :
  Spec.normalMeansFree j -> Spec.normalMeansFree (cycleJunction deltaTime j).
Proof.
  intros Hj. unfold cycleJunction.
  destruct (isUnderNormalCycle j && (0 <? length (trafficLights j))%nat)
    eqn:Hnormal; [|exact Hj].
  apply andb_prop in Hnormal as [Hnormal _].
  cbn [currentPhaseTimer set_currentPhaseTimer].
  destruct (currentPhaseTimer j - deltaTime <=? 0); [|exact Hj].
  intros _. apply lightsFree_map.
  rewrite applyJunctionPhaseState_isOverridden. apply lightsFree_map.
  exact (Hj Hnormal).
Qed.

Lemma setupJunction_lights (road : Road.t) (i : Z) (j : Junction) :
  setupJunction road i = Some j ->
  Spec.lightsFree j /\ length (trafficLights j) = 4%nat
  /\ isUnderNormalCycle j = true.
Proof.
  unfold setupJunction.
  destruct (fst (Road.getJunctionCenter road i)) as [c|]; [|discriminate].
  intros [= <-].
  match goal with |- context [applyJunctionPhaseState false ?x] =>
    pose proof (applyJunctionPhaseState_fields false x) as F;
    pose proof (applyJunctionPhaseState_isOverridden false x) as G
  end.
  cbv zeta in F. destruct F as (_ & _ & _ & _ & _ & _ & _ & _ & F1 & F2).
  cbn [trafficLights isUnderNormalCycle set_reflectors].
  split; [|split; [rewrite F2 | rewrite F1]; reflexivity].
  apply lightsFree_map. cbn [trafficLights set_reflectors]. rewrite G.
  repeat constructor.
Qed.

Lemma step_normalMeansFree `{Three} (e : event) (s : Simulation.t) :
  Spec.uniqueIds (junctions s) ->
  Forall Spec.normalMeansFree (junctions s) ->
  Forall Spec.normalMeansFree (junctions (step e s)).
Proof.
  intros Hids Hfree.
  assert (Hcycle : forall deltaTime js,
            Forall Spec.normalMeansFree js ->
            Forall Spec.normalMeansFree (manageJunctionCycles deltaTime js)).
  { intros deltaTime js Hjs. unfold manageJunctionCycles. apply Forall_map.
    eapply Forall_impl; [exact Hjs|]. intros j.
    apply cycleJunction_normalMeansFree. }
  destruct e as [clockDelta| | |kj r]; cbn [step junctions]; try exact Hfree.
  - unfold animate.
    destruct (ambulance s) as [amb|];
      [destruct (Ambulance.hasFadedOut _)|];
      cbn [junctions]; apply Hcycle; try exact Hfree.
    rewrite updateAmbulanceLogic_unique by exact Hids.
    destruct (Spec.ambulanceOnPath _); [|exact Hfree].
    apply Forall_map. eapply Forall_impl; [exact Hfree|]. intros j.
    apply junctionStep_normalMeansFree.
  - apply Forall_alter; [exact Hfree|]. intros j _ Hj. exact Hj.
Qed.

(** In every state that a run reaches from [new Simulation()], the
    junctions under normal cycle, the ones whose phases
    [manageJunctionCycles] applies, have no overridden light. *)
Lemma reachable_normalMeansFree `{Three} (cars : list ProceduralCar.t)
    (events : list event) :
  Forall Spec.normalMeansFree (junctions (run events (create cars))).
Proof.
  assert (Hgen : forall s,
            Spec.uniqueIds (junctions s) ->
            Forall Spec.normalMeansFree (junctions s) ->
            Forall Spec.normalMeansFree (junctions (run events s))).
  { induction events as [|e events IH]; intros s Hids Hfree; [exact Hfree|].
    apply (IH (step e s)).
    - apply uniqueIds_step, Hids.
    - apply step_normalMeansFree; assumption. }
  apply Hgen; [apply setupEnvironment_uniqueIds|].
  cbn [create junctions]. unfold setupEnvironment.
  apply Forall_forall. intros j Hj.
  apply list_elem_of_omap in Hj as (i & _ & Hi).
  intros _. apply (setupJunction_lights _ _ _ Hi).
Qed.

End Setup.

(** ** Operations on one light *)

Section LightOperations.

Import TrafficLight.

(** Of two calls of [setLightState] in a row with the same priority
    flag, the light keeps the colour of the second: the first call
    leaves no trace.  In particular a repeated call changes nothing. *)
Lemma setLightState_last_call_wins
    (s1 s2 : LIGHT_STATE) (priority silent1 silent2 : bool) (light : t) :
  fst (setLightState s2 priority silent2
         (fst (setLightState s1 priority silent1 light)))
  = fst (setLightState s2 priority silent2 light).
Proof.
  unfold setLightState.
  destruct priority, (isOverridden light) eqn:E; cbn; rewrite ?E; reflexivity.
Qed.

(** X1.  A priority that is set and released leaves the light free, but in
    the priority colour and with the lamp of that colour lit:
    [releasePriority] does not restore the colour that the light
    had. *)
Theorem releasePriority_keeps_priority_colour (makeGreen : bool) (light : t) :
  let light' := releasePriority (setPriority makeGreen light) in
  isOverridden light' = false
  /\ currentState light' = (if makeGreen then GREEN else RED)
  /\ lights light' = appearance (if makeGreen then GREEN else RED)
  /\ id light' = id light.
Proof. destruct makeGreen; repeat split. Qed.

(** [setPriority] takes the light whatever its state: overridden or
    not, the light ends overridden in the priority colour, and a second
    call with the same argument changes nothing. *)
Lemma setPriority_idempotent (makeGreen : bool) (light : t) :
  setPriority makeGreen (setPriority makeGreen light)
  = setPriority makeGreen light.
Proof. destruct makeGreen; reflexivity. Qed.

(** In [appearance s] exactly the lamp of [s] is at the lit
    intensity, and none is for [OFF]. *)
Lemma appearance_lit (s : LIGHT_STATE) :
  (emissiveIntensity (red (appearance s)) == onIntensity <-> s = RED)
  /\ (emissiveIntensity (yellow (appearance s)) == onIntensity <-> s = YELLOW)
  /\ (emissiveIntensity (green (appearance s)) == onIntensity <-> s = GREEN).
Proof.
  destruct s; cbn; repeat split; intros H; try reflexivity;
    try discriminate H; try (exfalso; revert H; unfold onIntensity, offIntensity;
                             intros H; apply Qeq_bool_iff in H; discriminate H).
Qed.

(** X2.  The lamps follow the colour through every method of a light: when
    the lamps of a light show its colour, they still do after
    [setLightState], blocked or not, after [setPriority] and after
    [releasePriority]; and then exactly the lamp of the current colour
    is lit. *)
Theorem lamps_follow_colour (light : t) :
  Spec.lampsAgree light ->
  (forall s priority silent,
     Spec.lampsAgree (fst (setLightState s priority silent light)))
  /\ (forall makeGreen, Spec.lampsAgree (setPriority makeGreen light))
  /\ Spec.lampsAgree (releasePriority light)
  /\ (emissiveIntensity (red (lights light)) == onIntensity
      <-> currentState light = RED)
  /\ (emissiveIntensity (yellow (lights light)) == onIntensity
      <-> currentState light = YELLOW)
  /\ (emissiveIntensity (green (lights light)) == onIntensity
      <-> currentState light = GREEN).
Proof.
  unfold Spec.lampsAgree. intros Hl. split; [|split; [|split]].
  - intros s priority silent. unfold setLightState.
    destruct (negb priority && isOverridden light); [exact Hl | reflexivity].
  - intros []; reflexivity.
  - exact Hl.
  - rewrite Hl. apply appearance_lit.
Qed.

Lemma lamps_follow_colour_witness :
  Spec.lampsAgree (setPriority true (create "J0_TL3"))
  /\ Spec.lampsAgree
       (fst (setLightState YELLOW false false
               (releasePriority (setPriority true (create "J0_TL3"))))).
Proof.
  split.
  - apply (lamps_follow_colour (create "J0_TL3")). reflexivity.
  - apply (lamps_follow_colour
             (releasePriority (setPriority true (create "J0_TL3")))).
    reflexivity.
Defined.

End LightOperations.

(** ** Preemption of one junction *)

Section Preemption.

Import Simulation.

Lemma set_trafficLights_same (j : Junction) :
  set_trafficLights (trafficLights j) j = j.
Proof. destruct j; reflexivity. Qed.

Lemma alter_fixed {A : Type} (P : A -> Prop) (f : A -> A) (l : list A) (i : nat) :
  Forall P l -> (forall x, P x -> f x = x) -> alter f i l = l.
Proof.
  intros Hl Hf. revert i.
  induction Hl as [|x l Hx Hl IH]; intros [|i]; cbn; [reflexivity..| |].
  - rewrite (Hf x Hx). reflexivity.
  - rewrite IH. reflexivity.
Qed.

Lemma setLight_held (silent : bool) (index : nat)
    (state : TrafficLight.LIGHT_STATE) (lights : list TrafficLight.t) :
  Forall (fun l => TrafficLight.isOverridden l = true) lights ->
  setLight silent index state lights = lights.
Proof.
  intros Hheld. unfold setLight. eapply alter_fixed; [exact Hheld|].
  intros l Hl. unfold TrafficLight.setLightState. rewrite Hl. reflexivity.
Qed.

(** X3.  A phase is applied to all four lights or to none: on a junction
    whose lights are all under a priority override, and on a junction
    with fewer than four lights, [applyJunctionPhaseState] changes
    nothing, and so the light cycle leaves the lights of such a
    junction as they are. *)
Theorem applyJunctionPhaseState_blocked (silent : bool) (deltaTime : Q)
    (junction : Junction) :
  Spec.lightsHeld junction \/ (length (trafficLights junction) < 4)%nat ->
  applyJunctionPhaseState silent junction = junction
  /\ trafficLights (cycleJunction deltaTime junction) = trafficLights junction.
Proof.
  intros Hblocked.
  assert (Happly : forall j, trafficLights j = trafficLights junction ->
                             applyJunctionPhaseState silent j = j
                             /\ applyJunctionPhaseState false j = j).
  { intros j Hj.
    assert (Hgen : forall b, applyJunctionPhaseState b j = j).
    { intros b. unfold applyJunctionPhaseState. rewrite Hj.
      destruct Hblocked as [Hheld|Hfew].
      - destruct (length (trafficLights junction) <? 4)%nat; [reflexivity|].
        destruct (JUNCTION_CYCLE_DEFINITION !! currentPhaseIndex j) as [def|];
          [|reflexivity].
        destruct (phase def);
          repeat rewrite (setLight_held b _ _ (trafficLights junction) Hheld);
          rewrite <- Hj; apply set_trafficLights_same.
      - apply Nat.ltb_lt in Hfew. rewrite Hfew. reflexivity. }
    split; apply Hgen. }
  split; [apply Happly; reflexivity|].
  unfold cycleJunction.
  destruct (isUnderNormalCycle junction && _); [|reflexivity].
  cbn [currentPhaseTimer set_currentPhaseTimer].
  destruct (_ <=? 0); [|reflexivity].
  match goal with |- context [applyJunctionPhaseState false ?x] =>
    destruct (Happly x eq_refl) as [_ ->]
  end.
  reflexivity.
Qed.

Lemma applyJunctionPhaseState_blocked_witness :
  applyJunctionPhaseState false
    (set_currentPhaseIndex 3 (givePriority Spec.exampleJunction))
  = set_currentPhaseIndex 3 (givePriority Spec.exampleJunction).
Proof.
  apply (applyJunctionPhaseState_blocked false 0
           (set_currentPhaseIndex 3 (givePriority Spec.exampleJunction))).
  left. repeat constructor.
Defined.

Lemma givePriority_idempotent (j : Junction) :
  givePriority (givePriority j) = givePriority j.
Proof.
  unfold givePriority.
  cbn [trafficLights set_trafficLights set_isUnderNormalCycle
       isUnderNormalCycle id center reflectors reflectorChain
       isAmbulanceApproaching hasAmbulancePassed currentPhaseIndex
       currentPhaseTimer].
  destruct (trafficLights j) as [|l0 [|l1 [|l2 [|l3 rest]]]];
    cbn [alter list_alter]; rewrite ?setPriority_idempotent; reflexivity.
Qed.

Lemma findIndex_alter_keepsId (f : Junction -> Junction) (junctionId : Z)
    (js : list Junction) : forall i : nat,
  Spec.keepsId f ->
  findIndex (fun j => (id j =? junctionId)%Z) (alter f i js)
  = findIndex (fun j => (id j =? junctionId)%Z) js.
Proof.
  intros i Hf. revert i.
  induction js as [|j js IH]; intros [|i]; cbn; try reflexivity.
  - rewrite Hf. reflexivity.
  - rewrite IH. reflexivity.
Qed.

Lemma findIndex_lookup {A : Type} (p : A -> bool) (l : list A) :
  forall i : nat, findIndex p l = Some i ->
  exists a, l !! i = Some a /\ p a = true
            /\ forall m b, (m < i)%nat -> l !! m = Some b -> p b = false.
Proof.
  induction l as [|a l IH]; intros i; cbn; [discriminate|].
  destruct (p a) eqn:Ha.
  - intros [= <-]. exists a. split; [reflexivity|]. split; [exact Ha|].
    intros m b Hm. lia.
  - destruct (findIndex p l) as [i'|]; [|discriminate]. intros [= <-].
    destruct (IH i' eq_refl) as (a' & Hl & Hp & Hfirst).
    exists a'. split; [exact Hl|]. split; [exact Hp|].
    intros [|m] b Hm Hb; [cbn in Hb; congruence|].
    apply (Hfirst m); [lia | exact Hb].
Qed.

Lemma findIndex_none {A : Type} (p : A -> bool) (l : list A) :
  findIndex p l = None <-> forall a, a ∈ l -> p a = false.
Proof.
  induction l as [|a l IH]; cbn.
  - split; [intros _ a Ha; inversion Ha | reflexivity].
  - destruct (p a) eqn:Ha.
    + split; [discriminate|]. intros Hall.
      rewrite (Hall a) in Ha by apply list_elem_of_here. discriminate.
    + destruct (findIndex p l) as [i|].
      * split; [discriminate|]. intros Hall.
        assert (Hn : Some i = None)
          by (apply IH; intros b Hb; apply Hall, list_elem_of_further, Hb).
        discriminate Hn.
      * split; [|reflexivity]. intros _ b Hb.
        apply elem_of_cons in Hb as [->|Hb]; [exact Ha|].
        apply (proj1 IH); [reflexivity | exact Hb].
Qed.

(** X4.  A preemption takes a junction of four lights whatever its lights
    showed and whether or not they were overridden: all four end under
    the override, east-bound and west-bound green, the cross traffic
    red, and the junction leaves the normal cycle.  A second preemption
    changes nothing. *)
Theorem givePriority_takes_all_lights (junction : Junction) :
  length (trafficLights junction) = 4%nat ->
  let junction' := givePriority junction in
  Spec.lightsHeld junction'
  /\ Spec.colours junction' = Spec.preemptionColours
  /\ Forall Spec.lampsAgree (trafficLights junction')
  /\ map TrafficLight.id (trafficLights junction')
     = map TrafficLight.id (trafficLights junction)
  /\ isUnderNormalCycle junction' = false
  /\ givePriority junction' = junction'.
Proof.
  intros Hlen junction'. subst junction'.
  split; [|split; [|split; [|split; [|split]]]];
    try apply givePriority_idempotent; try reflexivity;
    unfold Spec.lightsHeld, Spec.colours, givePriority;
    cbn [trafficLights set_trafficLights set_isUnderNormalCycle];
    destruct (trafficLights junction) as [|l0 [|l1 [|l2 [|l3 [|]]]]];
    try discriminate Hlen; cbn [alter list_alter];
    repeat constructor.
Qed.

Lemma givePriority_takes_all_lights_witness :
  Spec.colours
    (givePriority (applyJunctionPhaseState true
                     (set_currentPhaseIndex 3 Spec.exampleJunction)))
  = [TrafficLight.RED; TrafficLight.RED; TrafficLight.GREEN; TrafficLight.GREEN].
Proof.
  apply (givePriority_takes_all_lights
           (applyJunctionPhaseState true
              (set_currentPhaseIndex 3 Spec.exampleJunction))).
  reflexivity.
Defined.


Lemma keepsId_give_or_release (give : bool) :
  Spec.keepsId (if give then givePriority else releaseJunction).
Proof.
  destruct give; [apply keepsId_givePriority | apply keepsId_releaseJunction].
Qed.

(** X5.  [controlTrafficLightsForJunction] changes the first junction that
    has the given id and no other entry of the array: a junction of
    another id is left as it is, a junction of the same id further down
    the array as well, and for an id that no junction has the call
    does nothing.  Giving priority twice is the same as giving it
    once. *)
Theorem controlTrafficLightsForJunction_first_of_id
    (junctionId : Z) (give : bool) (js : list Junction) :
  let js' := controlTrafficLightsForJunction junctionId give js in
  length js' = length js
  /\ map id js' = map id js
  /\ (forall k j, js !! k = Some j ->
        id j <> junctionId
        \/ (exists m j0, (m < k)%nat /\ js !! m = Some j0 /\ id j0 = junctionId) ->
        js' !! k = Some j)
  /\ ((forall j, j ∈ js -> id j <> junctionId) -> js' = js)
  /\ controlTrafficLightsForJunction junctionId true
       (controlTrafficLightsForJunction junctionId true js)
     = controlTrafficLightsForJunction junctionId true js.
Proof.
  cbv zeta. unfold controlTrafficLightsForJunction.
  split; [|split; [|split; [|split]]].
  - destruct (findIndex _ js); [apply length_alter | reflexivity].
  - destruct (findIndex _ js); [|reflexivity].
    apply keepsId_alter, keepsId_give_or_release.
  - intros k j Hk Hother.
    destruct (findIndex _ js) as [i|] eqn:Hfind; [|exact Hk].
    apply findIndex_lookup in Hfind as (a & Ha & Hid & Hfirst).
    apply Z.eqb_eq in Hid.
    rewrite list_lookup_alter. destruct (decide (i = k)) as [->|Hne]; [|exact Hk].
    exfalso. destruct Hother as [Hother|(m & j0 & Hm & Hj0 & Hid0)].
    + congruence.
    + specialize (Hfirst m j0 Hm Hj0). apply Z.eqb_neq in Hfirst. congruence.
  - intros Hnone.
    assert (Hfind : findIndex (fun j => (id j =? junctionId)%Z) js = None).
    { apply findIndex_none. intros j Hj. apply Z.eqb_neq, Hnone, Hj. }
    rewrite Hfind. reflexivity.
  - destruct (findIndex _ js) as [i|] eqn:Hfind; [|rewrite Hfind; reflexivity].
    rewrite findIndex_alter_keepsId by apply keepsId_givePriority.
    rewrite Hfind, list_alter_alter_eq.
    apply list_alter_ext; [|reflexivity].
    intros j _. apply givePriority_idempotent.
Qed.


End Preemption.

(** ** What every junction of a running simulation satisfies *)

Section WellFormed.

Import Simulation.

Ltac set_free_lights :=
  repeat match goal with
  | H : TrafficLight.isOverridden ?l = false
    |- context [TrafficLight.setLightState ?s false ?b ?l] =>
      rewrite (setLightState_free s b l H)
  | |- context [TrafficLight.setLightState ?s false ?b
                  (TrafficLight.Build_t ?i ?c false ?a)] =>
      rewrite (setLightState_free s b (TrafficLight.Build_t i c false a) eq_refl)
  end.

Lemma phaseSeconds_pos (index : nat) :
  (index < length JUNCTION_CYCLE_DEFINITION)%nat -> 0 < phaseSeconds index.
Proof.
  intros Hindex. cbn [length JUNCTION_CYCLE_DEFINITION] in Hindex.
  do 6 (destruct index as [|index]; [reflexivity|]). lia.
Qed.

Lemma applyJunctionPhaseState_shows (silent : bool) (j : Junction) :
  length (trafficLights j) = 4%nat ->
  (currentPhaseIndex j < length JUNCTION_CYCLE_DEFINITION)%nat ->
  Spec.lightsFree j ->
  Spec.showsPhase (applyJunctionPhaseState silent j)
  /\ Spec.lightsFree (applyJunctionPhaseState silent j).
Proof.
  intros Hlen Hindex Hfree.
  destruct (lookup_lt_is_Some_2 _ _ Hindex) as [def Hdef].
  split.
  - exists def.
    pose proof (applyJunctionPhaseState_fields silent j) as F. cbv zeta in F.
    destruct F as (_ & _ & _ & _ & _ & _ & F & _). rewrite F. clear F.
    split; [exact Hdef|].
    unfold Spec.colours, applyJunctionPhaseState. rewrite Hlen, Hdef.
    unfold Spec.lightsFree in Hfree.
    destruct (trafficLights j) as [|l0 [|l1 [|l2 [|l3 [|]]]]];
      try discriminate Hlen.
    inversion_clear Hfree as [|? ? H0 Hfree1].
    inversion_clear Hfree1 as [|? ? H1 Hfree2].
    inversion_clear Hfree2 as [|? ? H2 Hfree3].
    inversion_clear Hfree3 as [|? ? H3 _].
    change (4 <? 4)%nat with false; cbv iota.
    destruct (phase def); unfold setLight; cbn [alter list_alter];
      set_free_lights; reflexivity.
  - apply lightsFree_map. rewrite applyJunctionPhaseState_isOverridden.
    apply lightsFree_map, Hfree.
Qed.

Lemma wellFormed_preempt (j : Junction) :
  Spec.wellFormed j -> hasAmbulancePassed j = false ->
  Spec.wellFormed (markApproaching (givePriority j)).
Proof.
  intros [Hl Hi Ht Hm Hp Hn Hpa Hc1 Hc2 Hc3] Hpassed.
  destruct (givePriority_takes_all_lights j Hl) as (G1 & G2 & _).
  constructor;
    cbn [markApproaching set_isUnderNormalCycle set_isAmbulanceApproaching
         trafficLights currentPhaseIndex currentPhaseTimer isUnderNormalCycle
         isAmbulanceApproaching hasAmbulancePassed reflectorChain reflectors
         negb]; try assumption; try reflexivity; try discriminate.
  - unfold givePriority. cbn [trafficLights set_trafficLights].
    rewrite !length_alter. exact Hl.
  - intros _. split; [exact G1 | exact G2].
  - unfold givePriority. cbn. congruence.
Qed.

Lemma chainReflector_commutes (r : nat) (j : Junction) :
  markApproaching (givePriority (chainReflector r j))
  = chainReflector r (markApproaching (givePriority j)).
Proof.
  unfold chainReflector. cbn [reflectorChain markApproaching givePriority
    set_isUnderNormalCycle set_isAmbulanceApproaching set_trafficLights].
  destruct (negb (includes (reflectorChain j) r)); reflexivity.
Qed.

Lemma wellFormed_chain (r : nat) (j : Junction) :
  Spec.wellFormed j -> isAmbulanceApproaching j = true ->
  (r < length (reflectors j))%nat -> r ∉ reflectorChain j ->
  Spec.wellFormed (chainReflector r j).
Proof.
  intros [Hl Hi Ht Hm Hp Hn Hpa Hc1 Hc2 Hc3] Happroaching Hr Hnot.
  unfold chainReflector.
  apply includes_not_elem_of in Hnot as Hinc. rewrite Hinc. cbn [negb].
  constructor;
    cbn [set_reflectorChain set_reflectors
         trafficLights currentPhaseIndex currentPhaseTimer isUnderNormalCycle
         isAmbulanceApproaching hasAmbulancePassed reflectorChain reflectors];
    try assumption.
  - apply NoDup_app. split; [exact Hc1|]. split; [|apply NoDup_singleton].
    intros x Hx Hx'. apply list_elem_of_singleton in Hx'. subst x. auto.
  - rewrite length_alter. apply Forall_app. split; [exact Hc2|].
    repeat constructor. exact Hr.
  - intros H. congruence.
Qed.

Lemma wellFormed_release (j : Junction) :
  Spec.wellFormed j -> Spec.wellFormed (markPassed (releaseJunction j)).
Proof.
  intros [Hl Hi Ht Hm Hp Hn Hpa Hc1 Hc2 Hc3].
  unfold releaseJunction.
  match goal with |- context [applyJunctionPhaseState true ?x] =>
    pose proof (applyJunctionPhaseState_fields true x) as F;
    pose proof (applyJunctionPhaseState_shows true x) as G;
    set (released := applyJunctionPhaseState true x) in *
  end.
  cbv zeta in F. destruct F as (_ & _ & F1 & _ & _ & _ & F2 & F3 & _ & F4).
  cbn in F1, F2, F3, F4. rewrite length_map in F4.
  destruct G as [G1 G2].
  { cbn. rewrite length_map. exact Hl. }
  { cbn. lia. }
  { apply lightsFree_map. cbn. rewrite map_map.
    apply Forall_map, Forall_forall. reflexivity. }
  constructor;
    cbn [markPassed set_isUnderNormalCycle set_reflectorChain
         set_hasAmbulancePassed set_isAmbulanceApproaching
         trafficLights currentPhaseIndex currentPhaseTimer isUnderNormalCycle
         isAmbulanceApproaching hasAmbulancePassed reflectorChain reflectors
         negb]; try reflexivity; try discriminate.
  - congruence.
  - rewrite F2. cbn. lia.
  - rewrite F3. reflexivity.
  - intros _. split; [exact G2 | exact G1].
  - constructor.
  - constructor.
Qed.

Lemma wellFormed_cycle (deltaTime : Q) (j : Junction) :
  Spec.wellFormed j -> Spec.wellFormed (cycleJunction deltaTime j).
Proof.
  intros Hj. pose proof Hj as [Hl Hi Ht Hm Hp Hn Hpa Hc1 Hc2 Hc3].
  unfold cycleJunction.
  destruct (isUnderNormalCycle j && (0 <? length (trafficLights j))%nat)
    eqn:Hnormal; [|exact Hj].
  apply andb_prop in Hnormal as [Hnormal _].
  assert (Happroaching : isAmbulanceApproaching j = false).
  { rewrite Hnormal in Hm. destruct (isAmbulanceApproaching j);
      [discriminate Hm | reflexivity]. }
  destruct (Hn Happroaching) as [Hfree Hshows].
  cbn [currentPhaseTimer set_currentPhaseTimer].
  destruct (currentPhaseTimer j - deltaTime <=? 0) eqn:Hdue.
  - match goal with |- context [applyJunctionPhaseState false ?x] =>
      pose proof (applyJunctionPhaseState_fields false x) as F;
      pose proof (applyJunctionPhaseState_shows false x) as G;
      set (next := applyJunctionPhaseState false x) in *
    end.
    cbv zeta in F.
    destruct F as (_ & _ & F1 & F2 & F3 & F4 & F5 & F6 & F7 & F8).
    cbn [reflectors reflectorChain isAmbulanceApproaching hasAmbulancePassed
         currentPhaseIndex currentPhaseTimer isUnderNormalCycle trafficLights
         set_currentPhaseTimer set_currentPhaseIndex] in F1, F2, F3, F4, F5,
         F6, F7, F8.
    assert (Hnext : ((currentPhaseIndex j + 1) mod length JUNCTION_CYCLE_DEFINITION
                     < length JUNCTION_CYCLE_DEFINITION)%nat)
      by (apply Nat.mod_upper_bound; cbn; lia).
    destruct G as [G1 G2]; [exact Hl | exact Hnext | exact Hfree |].
    constructor; rewrite ?F1, ?F2, ?F3, ?F4, ?F5, ?F6, ?F7, ?F8;
      try assumption.
    + apply phaseSeconds_pos, Hnext.
    + intros H. congruence.
    + intros _. split; [exact G2 | exact G1].
  - apply leb_gt in Hdue.
    constructor;
      cbn [set_currentPhaseTimer
           trafficLights currentPhaseIndex currentPhaseTimer isUnderNormalCycle
           isAmbulanceApproaching hasAmbulancePassed reflectorChain reflectors];
      assumption.
Qed.

Lemma wellFormed_timeout (r : nat) (j : Junction) :
  Spec.wellFormed j ->
  Spec.wellFormed
    (set_reflectors (alter SmartReflector.signalTimeout r (reflectors j)) j).
Proof.
  intros [Hl Hi Ht Hm Hp Hn Hpa Hc1 Hc2 Hc3].
  constructor;
    cbn [set_reflectors
         trafficLights currentPhaseIndex currentPhaseTimer isUnderNormalCycle
         isAmbulanceApproaching hasAmbulancePassed reflectorChain reflectors];
    try assumption.
  rewrite length_alter. exact Hc2.
Qed.

Lemma junctionStep_wellFormed (amb : Ambulance.t) (j : Junction) :
  Spec.wellFormed j -> Spec.wellFormed (Spec.junctionStep amb j).
Proof.
  intros Hj. unfold Spec.junctionStep.
  destruct (hasAmbulancePassed j) eqn:Hpassed; [exact Hj|]. cbv zeta.
  set (moving := ambulanceMovingTowardsJunction amb (center j)).
  assert (H1 : Spec.wellFormed (Spec.proximityStep amb moving j)).
  { unfold Spec.proximityStep.
    match goal with |- context [if ?c then _ else _] => destruct c end;
      [apply wellFormed_preempt; assumption | exact Hj]. }
  assert (Hpassed1 : hasAmbulancePassed (Spec.proximityStep amb moving j) = false).
  { rewrite (proj2 (neutral_proximityStep amb moving j)). exact Hpassed. }
  set (j1 := Spec.proximityStep amb moving j) in *.
  assert (H2 : Spec.wellFormed (Spec.reflectorStep amb moving j1)).
  { unfold Spec.reflectorStep.
    destruct ((0 <? length (reflectors j1))%nat && moving); [|exact H1].
    pose proof (scanReflectors_first (Ambulance.getPosition amb) j1
                  (reflectors j1) 0 (fun n reflector H => H)) as Hscan.
    destruct (scanReflectors _ j1 0 (reflectors j1)) as [r|]; [|exact H1].
    destruct Hscan as (_ & (reflector & Hr & Hnot & _) & _).
    apply lookup_lt_Some in Hr.
    destruct (isAmbulanceApproaching j1) eqn:Happroaching; cbn [negb].
    - apply wellFormed_chain; assumption.
    - rewrite chainReflector_commutes. apply wellFormed_chain.
      + apply wellFormed_preempt; assumption.
      + reflexivity.
      + exact Hr.
      + exact Hnot. }
  set (j2 := Spec.reflectorStep amb moving j1) in *.
  unfold Spec.releaseStep. destruct (releaseFires amb j2); [|exact H2].
  apply wellFormed_release, H2.
Qed.

Lemma setupJunction_wellFormed (road : Road.t) (i : Z) (j : Junction) :
  setupJunction road i = Some j -> Spec.wellFormed j.
Proof.
  unfold setupJunction.
  destruct (fst (Road.getJunctionCenter road i)) as [c|]; [|discriminate].
  intros [= <-].
  match goal with |- context [applyJunctionPhaseState false ?x] =>
    pose proof (applyJunctionPhaseState_fields false x) as F;
    pose proof (applyJunctionPhaseState_shows false x) as G;
    set (made := applyJunctionPhaseState false x) in *
  end.
  cbv zeta in F.
  destruct F as (_ & _ & F1 & F2 & F3 & F4 & F5 & F6 & F7 & F8).
  cbn [reflectors reflectorChain isAmbulanceApproaching hasAmbulancePassed
       currentPhaseIndex currentPhaseTimer isUnderNormalCycle trafficLights]
    in F1, F2, F3, F4, F5, F6, F7, F8.
  destruct G as [G1 G2];
    [reflexivity | cbn; lia | repeat constructor |].
  constructor;
    cbn [set_reflectors
         trafficLights currentPhaseIndex currentPhaseTimer isUnderNormalCycle
         isAmbulanceApproaching hasAmbulancePassed reflectorChain reflectors];
    rewrite ?F2, ?F3, ?F4, ?F5, ?F6, ?F7, ?F8;
    try reflexivity; try discriminate.
  - cbn. lia.
  - intros _. split; [exact G2 | exact G1].
  - constructor.
  - constructor.
Qed.

Lemma step_wellFormed `{Three} (e : event) (s : Simulation.t) :
  Spec.uniqueIds (junctions s) ->
  Forall Spec.wellFormed (junctions s) ->
  Forall Spec.wellFormed (junctions (step e s)).
Proof.
  intros Hids Hwf.
  assert (Hcycle : forall deltaTime js,
            Forall Spec.wellFormed js ->
            Forall Spec.wellFormed (manageJunctionCycles deltaTime js)).
  { intros deltaTime js Hjs. unfold manageJunctionCycles. apply Forall_map.
    eapply Forall_impl; [exact Hjs|]. intros j. apply wellFormed_cycle. }
  destruct e as [clockDelta| | |kj r]; cbn [step junctions]; try exact Hwf.
  - unfold animate.
    destruct (ambulance s) as [amb|];
      [destruct (Ambulance.hasFadedOut _)|];
      cbn [junctions]; apply Hcycle; try exact Hwf.
    rewrite updateAmbulanceLogic_unique by exact Hids.
    destruct (Spec.ambulanceOnPath _); [|exact Hwf].
    apply Forall_map. eapply Forall_impl; [exact Hwf|]. intros j.
    apply junctionStep_wellFormed.
  - apply Forall_alter; [exact Hwf|]. intros j _ Hj.
    apply wellFormed_timeout, Hj.
Qed.

Lemma run_wellFormed `{Three} (events : list event) : forall s : Simulation.t,
  Spec.uniqueIds (junctions s) ->
  Forall Spec.wellFormed (junctions s) ->
  Forall Spec.wellFormed (junctions (run events s)).
Proof.
  induction events as [|e events IH]; intros s Hids Hwf; [exact Hwf|].
  apply (IH (step e s)).
  - apply uniqueIds_step, Hids.
  - apply step_wellFormed; assumption.
Qed.

Lemma reachable_wellFormed `{Three} (cars : list ProceduralCar.t)
    (events : list event) :
  Forall Spec.wellFormed (junctions (run events (create cars))).
Proof.
  apply run_wellFormed; [apply setupEnvironment_uniqueIds|].
  cbn [create junctions]. unfold setupEnvironment.
  apply Forall_forall. intros j Hj.
  apply list_elem_of_omap in Hj as (i & _ & Hi).
  apply (setupJunction_wellFormed _ _ _ Hi).
Qed.

Lemma distinct_refs_length (n : nat) (l : list nat) :
  NoDup l -> Forall (fun r => (r < n)%nat) l -> (length l <= n)%nat.
Proof.
  intros Hdistinct Hrefs. rewrite <- (List.length_seq n 0).
  apply List.NoDup_incl_length; [apply NoDup_ListNoDup, Hdistinct|].
  intros r Hr. apply List.in_seq.
  apply list_elem_of_In in Hr. rewrite Forall_forall in Hrefs.
  specialize (Hrefs r Hr). lia.
Qed.

(** X6.  In every state that a run reaches from [new Simulation()], whatever
    the frames, activations and timeouts of the run, each junction is
    in one of two modes that its lights show.  Preempted: the junction
    is off the normal cycle, not yet passed, all its lights are under
    the override, east-bound and west-bound green and the cross traffic
    red.  Not preempted: the junction is under normal cycle, no light
    is overridden, and the lights show the colours of the current phase
    of the cycle. *)
Theorem lights_show_preemption_or_phase `{Three}
    (cars : list ProceduralCar.t) (events : list event) :
  Forall (fun j =>
            if isAmbulanceApproaching j
            then isUnderNormalCycle j = false
                 /\ hasAmbulancePassed j = false
                 /\ Spec.lightsHeld j
                 /\ Spec.colours j = Spec.preemptionColours
            else isUnderNormalCycle j = true
                 /\ Spec.lightsFree j
                 /\ Spec.showsPhase j)
    (junctions (run events (create cars))).
Proof.
  eapply Forall_impl; [apply reachable_wellFormed|].
  intros j [Hl Hi Ht Hm Hp Hn Hpa Hc1 Hc2 Hc3].
  destruct (isAmbulanceApproaching j).
  - destruct (Hp eq_refl) as [Hheld Hcolours].
    split; [exact Hm|]. split; [|split; assumption].
    destruct (hasAmbulancePassed j); [|reflexivity].
    apply Hpa. reflexivity.
  - destruct (Hn eq_refl) as [Hfree Hshows].
    split; [exact Hm|]. split; assumption.
Qed.

(** X7.  In no state that a run reaches do crossing directions have the way
    at once: at every junction, when a north-south light is green or
    yellow both east-west lights are red, and the other way round. *)
Theorem crossing_directions_never_both_open `{Three}
    (cars : list ProceduralCar.t) (events : list event) :
  Forall (fun j => Spec.conflicting j = false)
    (junctions (run events (create cars))).
Proof.
  eapply Forall_impl; [apply reachable_wellFormed|].
  intros j [Hl Hi Ht Hm Hp Hn Hpa Hc1 Hc2 Hc3].
  unfold Spec.conflicting.
  destruct (isAmbulanceApproaching j).
  - destruct (Hp eq_refl) as [_ ->]. reflexivity.
  - destruct (Hn eq_refl) as [_ (def & _ & ->)].
    destruct (phase def); reflexivity.
Qed.

(** X8.  In every state that a run reaches, the reflector chain of a
    junction holds references to reflectors of that junction, each at
    most once, so it is never longer than the row of reflectors; and it
    is empty unless the junction is preempted. *)
Theorem reflector_chain_stays_within_its_junction `{Three}
    (cars : list ProceduralCar.t) (events : list event) :
  Forall (fun j =>
            NoDup (reflectorChain j)
            /\ Forall (fun r => is_Some (reflectors j !! r)) (reflectorChain j)
            /\ (length (reflectorChain j) <= length (reflectors j))%nat
            /\ (isAmbulanceApproaching j = false -> reflectorChain j = []))
    (junctions (run events (create cars))).
Proof.
  eapply Forall_impl; [apply reachable_wellFormed|].
  intros j [Hl Hi Ht Hm Hp Hn Hpa Hc1 Hc2 Hc3].
  split; [exact Hc1|]. split; [|split; [|exact Hc3]].
  - eapply Forall_impl; [exact Hc2|]. intros r Hr.
    apply lookup_lt_is_Some_2, Hr.
  - apply distinct_refs_length; assumption.
Qed.

(** X9.  In every state that a run reaches, each junction has its four
    lights, its phase index names an entry of the cycle table, so that
    the lookups [JUNCTION_CYCLE_DEFINITION[currentPhaseIndex]] of the
    source never miss, and its phase timer is positive between
    frames. *)
Theorem cycle_position_stays_valid `{Three}
    (cars : list ProceduralCar.t) (events : list event) :
  Forall (fun j =>
            length (trafficLights j) = 4%nat
            /\ is_Some (JUNCTION_CYCLE_DEFINITION !! currentPhaseIndex j)
            /\ 0 < currentPhaseTimer j)
    (junctions (run events (create cars))).
Proof.
  eapply Forall_impl; [apply reachable_wellFormed|].
  intros j [Hl Hi Ht Hm Hp Hn Hpa Hc1 Hc2 Hc3].
  split; [exact Hl|]. split; [|exact Ht].
  apply lookup_lt_is_Some_2, Hi.
Qed.

End WellFormed.

(** ** What starts a preemption *)

Section Triggers.

Import Simulation.

Lemma reflectorStep_approaching (amb : Ambulance.t) (moving : bool) (j : Junction) :
  isAmbulanceApproaching j = true ->
  isAmbulanceApproaching (Spec.reflectorStep amb moving j) = true.
Proof.
  intros Hj. unfold Spec.reflectorStep.
  destruct ((0 <? length (reflectors j))%nat && moving); [|exact Hj].
  destruct (scanReflectors _ j 0 (reflectors j)) as [r|]; [|exact Hj].
  rewrite Hj. cbn [negb].
  rewrite (proj1 (chainReflector_flags r j)). exact Hj.
Qed.

Lemma releaseStep_stage (amb : Ambulance.t) (j : Junction) :
  isAmbulanceApproaching j = true ->
  isAmbulanceApproaching (Spec.releaseStep amb j) = true
  \/ hasAmbulancePassed (Spec.releaseStep amb j) = true.
Proof.
  intros Hj. unfold Spec.releaseStep.
  destruct (releaseFires amb j); [right; reflexivity | left; exact Hj].
Qed.

(** X10.  A junction that is neither preempted nor passed, in a frame in
    which the preemption logic runs.  If the ambulance moves towards
    the junction and is within the preemption radius, or a reflector of
    the junction can fire, the junction is preempted in this frame (and
    then possibly released in the same frame).  If the ambulance does
    not move towards the junction, or is out of the radius with no
    reflector that can fire, the frame leaves the junction exactly as
    it was. *)
Theorem preemption_starts_exactly_when_triggered
    (amb : Ambulance.t) (js : list Junction) (k : nat) (j : Junction) :
  Spec.uniqueIds js ->
  Spec.ambulanceOnPath amb = true ->
  js !! k = Some j ->
  hasAmbulancePassed j = false ->
  isAmbulanceApproaching j = false ->
  exists j',
    updateAmbulanceLogic (Some amb) js !! k = Some j'
    /\ (Spec.triggered amb j ->
        isAmbulanceApproaching j' = true \/ hasAmbulancePassed j' = true)
    /\ (Spec.quiet amb j -> j' = j).
Proof.
  intros Hids Hon Hj Hpassed Happroaching.
  rewrite updateAmbulanceLogic_unique by exact Hids. rewrite Hon.
  exists (Spec.junctionStep amb j). rewrite list_lookup_fmap, Hj.
  split; [reflexivity|].
  unfold Spec.junctionStep. rewrite Hpassed. cbv zeta.
  unfold Spec.triggered, Spec.quiet, Spec.withinPreemptionRadius.
  set (moving := ambulanceMovingTowardsJunction amb (center j)).
  pose proof (scanReflectors_first (Ambulance.getPosition amb) j
                (reflectors j) 0 (fun n reflector H => H)) as Hscan.
  split.
  - intros [Hmoving Htrigger]. apply releaseStep_stage.
    unfold Spec.proximityStep. rewrite Happroaching, Hmoving. cbn [negb andb].
    destruct (Vector3.distanceLt _ (center j) _) eqn:Hwithin.
    + apply reflectorStep_approaching. reflexivity.
    + destruct Htrigger as [Hw|(r & Hr)]; [discriminate Hw|].
      unfold Spec.reflectorStep.
      pose proof Hr as (reflector & Hlookup & _).
      apply lookup_lt_Some in Hlookup.
      assert (Hlen : (0 <? length (reflectors j))%nat = true)
        by (apply Nat.ltb_lt; lia).
      rewrite Hlen. cbn [andb].
      destruct (scanReflectors _ j 0 (reflectors j)) as [r'|].
      * rewrite Happroaching. reflexivity.
      * exfalso. apply (Hscan r); [lia | exact Hr].
  - intros Hquiet.
    assert (H1 : Spec.proximityStep amb moving j = j).
    { unfold Spec.proximityStep.
      destruct Hquiet as [->|[-> _]]; rewrite ?andb_false_r; reflexivity. }
    rewrite H1.
    assert (H2 : Spec.reflectorStep amb moving j = j).
    { unfold Spec.reflectorStep.
      destruct Hquiet as [->|[_ Hnone]]; [rewrite andb_false_r; reflexivity|].
      destruct ((0 <? length (reflectors j))%nat && moving); [|reflexivity].
      destruct (scanReflectors _ j 0 (reflectors j)) as [r|]; [|reflexivity].
      exfalso. apply (Hnone r), Hscan. }
    rewrite H2. unfold Spec.releaseStep, releaseFires.
    rewrite Happroaching. reflexivity.
Qed.

Lemma preemption_starts_exactly_when_triggered_witness :
  exists j',
    updateAmbulanceLogic (Some Spec.approachingAmbulance)
      (setupEnvironment Road.create) !! 1%nat = Some j'
    /\ (isAmbulanceApproaching j' = true \/ hasAmbulancePassed j' = true).
Proof.
  destruct (setupEnvironment Road.create !! 1%nat) as [j|] eqn:Hj;
    [|vm_compute in Hj; discriminate Hj].
  destruct (preemption_starts_exactly_when_triggered Spec.approachingAmbulance
              (setupEnvironment Road.create) 1 j)
    as (j' & Hj' & Htriggered & _).
  - apply (bool_decide_unpack _). vm_compute. exact I.
  - reflexivity.
  - exact Hj.
  - vm_compute in Hj. injection Hj as <-. reflexivity.
  - vm_compute in Hj. injection Hj as <-. reflexivity.
  - exists j'. split; [exact Hj'|]. apply Htriggered.
    vm_compute in Hj. injection Hj as <-.
    split; [vm_compute; reflexivity | left; vm_compute; reflexivity].
Defined.

End Triggers.

(** ** The life of the ambulance *)

Section AmbulanceLife.

Import Simulation.

Context `{Three}.

Lemma getAmbulancePath_length :
  length (Road.getAmbulancePath Road.create) = 11%nat.
Proof. vm_compute. reflexivity. Qed.

Lemma update_onItsPath (deltaTime : Q) (a : Ambulance.t) :
  Spec.onItsPath a ->
  Ambulance.hasFadedOut (Ambulance.update deltaTime a) = false ->
  Spec.onItsPath (Ambulance.update deltaTime a).
Proof.
  intros Ha. pose proof Ha as (Hp & Hle & Hiff & Hf & Ht).
  unfold Ambulance.update.
  rewrite Hf. destruct (Ambulance.isDeactivating a) eqn:Hd.
  - match goal with |- context [if ?c then _ else _] => destruct c end;
      [discriminate|].
    intros _. unfold Spec.onItsPath. cbn. rewrite Hd.
    repeat split; try tauto. discriminate.
  - destruct (Ambulance.path a !! Ambulance.currentPathIndex a)
      as [target|] eqn:Htarget; [|intros _; exact Ha].
    apply lookup_lt_Some in Htarget.
    destruct (negb (Ambulance.model a)); [intros _; exact Ha|].
    match goal with |- context [if ?c then _ else _] => destruct c end.
    + cbn [Ambulance.path Ambulance.currentPathIndex
           Ambulance.set_currentPathIndex].
      destruct (Nat.leb_spec (length (Ambulance.path a))
                  (S (Ambulance.currentPathIndex a))) as [Hend|Hmore];
        intros _; unfold Spec.onItsPath; cbn; rewrite ?Hd.
      * repeat split; try assumption; try lia; try discriminate.
      * repeat split; try assumption; try lia; try discriminate.
    + intros _. unfold Spec.onItsPath. cbn. rewrite Hd.
      repeat split; try assumption; tauto.
Qed.

Lemma activate_onItsPath (a : Ambulance.t) :
  Spec.onItsPath a -> Spec.onItsPath (Ambulance.activate a).
Proof.
  intros (Hp & Hle & Hiff & Hf & Ht). unfold Ambulance.activate.
  pose proof getAmbulancePath_length as Hlen. rewrite <- Hp in Hlen.
  cbn [Ambulance.path Ambulance.set_currentPathIndex
       Ambulance.set_isDeactivating Ambulance.set_hasFadedOut
       Ambulance.set_fadeOutTimer].
  destruct (Ambulance.path a) as [|p rest] eqn:Hpath; [discriminate Hlen|].
  unfold Spec.onItsPath. cbn. rewrite Hpath.
  repeat split; try assumption; try lia; try discriminate.
Qed.

Lemma step_onItsPath (e : event) (s : Simulation.t) :
  Spec.ambulanceIfAny Spec.onItsPath s ->
  Spec.ambulanceIfAny Spec.onItsPath (step e s).
Proof.
  unfold Spec.ambulanceIfAny. intros Hs.
  destruct e as [clockDelta| | |kj r]; cbn [step ambulance].
  - unfold animate. destruct (ambulance s) as [amb|]; [|exact I].
    destruct (Ambulance.hasFadedOut (Ambulance.update _ amb)) eqn:Hfaded;
      cbn [ambulance]; [exact I|].
    apply update_onItsPath; assumption.
  - destruct (ambulance s) as [amb|]; [|exact I].
    apply activate_onItsPath, Hs.
  - destruct (ambulance s) as [amb|]; [|exact I]. exact Hs.
  - exact Hs.
Qed.

(** X11.  In every state that a run reaches from [new Simulation()], the
    ambulance, as long as the simulation holds one, has the path of
    the road, a path index that is within the path and at its end
    exactly when the ambulance is deactivating, and has not faded out:
    an ambulance that completes its fade-out is dropped in the same
    frame. *)
Theorem ambulance_stays_on_its_path
    (cars : list ProceduralCar.t) (events : list event) :
  Spec.ambulanceIfAny Spec.onItsPath (run events (create cars)).
Proof.
  assert (Hgen : forall s, Spec.ambulanceIfAny Spec.onItsPath s ->
                           Spec.ambulanceIfAny Spec.onItsPath (run events s)).
  { induction events as [|e events IH]; intros s Hs; [exact Hs|].
    apply (IH (step e s)), step_onItsPath, Hs. }
  apply Hgen. unfold Spec.ambulanceIfAny, create, setupAmbulance.
  cbn [ambulance].
  pose proof getAmbulancePath_length as Hlen.
  destruct (Road.getAmbulancePath Road.create) as [|p rest] eqn:Hpath;
    [exact I|].
  unfold Spec.onItsPath. cbn [Ambulance.create Ambulance.path
    Ambulance.currentPathIndex Ambulance.isDeactivating Ambulance.hasFadedOut
    Ambulance.fadeOutTimer].
  repeat split; try lia; try discriminate.
  symmetry. exact Hpath.
Qed.

Lemma cycleJunction_samePreemption (deltaTime : Q) (j : Junction) :
  Spec.samePreemption j (cycleJunction deltaTime j).
Proof.
  unfold Spec.samePreemption, cycleJunction.
  destruct (isUnderNormalCycle j && (0 <? length (trafficLights j))%nat);
    [|repeat split; reflexivity].
  cbn [currentPhaseTimer set_currentPhaseTimer].
  destruct (currentPhaseTimer j - deltaTime <=? 0); [|repeat split; reflexivity].
  match goal with |- context [applyJunctionPhaseState false ?x] =>
    pose proof (applyJunctionPhaseState_fields false x) as F;
    pose proof (applyJunctionPhaseState_isOverridden false x) as G
  end.
  cbv zeta in F. destruct F as (_ & _ & _ & F1 & F2 & F3 & _ & _ & F4 & _).
  rewrite F1, F2, F3, F4, G. repeat split; reflexivity.
Qed.

Lemma step_without_ambulance (e : event) (s : Simulation.t)
    (before : list Junction) :
  ambulance s = None ->
  Forall2 Spec.samePreemption before (junctions s) ->
  ambulance (step e s) = None
  /\ Forall2 Spec.samePreemption before (junctions (step e s)).
Proof.
  intros Hnone Hbefore.
  destruct e as [clockDelta| | |kj r]; cbn [step ambulance junctions];
    rewrite ?Hnone; try (split; [reflexivity | exact Hbefore]).
  - unfold animate. rewrite Hnone. cbn [ambulance junctions].
    split; [reflexivity|]. unfold manageJunctionCycles.
    apply Forall2_fmap_r. eapply Forall2_impl; [exact Hbefore|].
    intros j0 j (H1 & H2 & H3 & H4 & H5).
    destruct (cycleJunction_samePreemption (Qmin clockDelta (5 / 100)) j)
      as (K1 & K2 & K3 & K4 & K5).
    unfold Spec.samePreemption, compose. rewrite K1, K2, K3, K4, K5.
    repeat split; assumption.
  - split; [reflexivity|].
    apply Forall2_alter_r; [exact Hbefore|].
    intros j0 j _ _ Hj. exact Hj.
Qed.

(** X12.  Once the simulation holds no ambulance it never holds one again,
    and from then on no junction is preempted, released or chained:
    whatever the events, the preemption flags, the reflector chain and
    the overrides of the lights of every junction stay as they were. *)
Theorem without_ambulance_preemption_is_frozen
    (events : list event) (s : Simulation.t) :
  ambulance s = None ->
  ambulance (run events s) = None
  /\ Forall2 Spec.samePreemption (junctions s) (junctions (run events s)).
Proof.
  intros Hnone.
  assert (Hgen : forall s' : Simulation.t,
            ambulance s' = None ->
            Forall2 Spec.samePreemption (junctions s) (junctions s') ->
            ambulance (run events s') = None
            /\ Forall2 Spec.samePreemption (junctions s)
                 (junctions (run events s'))).
  { induction events as [|e events IH]; intros s' Hs' Hbefore;
      [split; assumption|].
    destruct (step_without_ambulance e s' (junctions s) Hs' Hbefore)
      as [Hnone' Hbefore'].
    apply (IH (step e s') Hnone' Hbefore'). }
  apply Hgen; [exact Hnone|].
  apply Forall_Forall2_diag, Forall_forall. intros j _.
  repeat split; reflexivity.
Qed.

Lemma fade_completes (timer : Q) :
  (Qmin 1 (timer / JS.orElse Config.ambulanceFadeOutDuration 2) >=? 1)
  = (2 <=? timer).
Proof.
  change (JS.orElse Config.ambulanceFadeOutDuration 2) with 2.
  unfold JS.geb. destruct (2 <=? timer) eqn:Hdone.
  - apply leb_le in Hdone. apply leb_le, Q.min_glb; [lra|].
    apply Qle_shift_div_l; lra.
  - apply leb_gt in Hdone. apply leb_gt.
    eapply Qle_lt_trans; [apply Q.le_min_r|].
    apply Qlt_shift_div_r; lra.
Qed.


(** X13.  A frame on a simulation whose ambulance is deactivating at the end
    of its path.  The preemption logic does not run: the junctions only
    go through their light cycle.  The ambulance does not move; its
    fade-out timer grows by the capped time step, and the ambulance is
    dropped from the simulation in the frame in which the timer
    reaches the fade-out duration of two seconds. *)
Theorem fading_ambulance_is_dropped_after_two_seconds
    (clockDelta : Q) (s : Simulation.t) (a : Ambulance.t) :
  ambulance s = Some a ->
  Ambulance.isDeactivating a = true ->
  Ambulance.hasFadedOut a = false ->
  (length (Ambulance.path a) <= Ambulance.currentPathIndex a)%nat ->
  let deltaTime := Qmin clockDelta (5 / 100) in
  let s' := animate clockDelta s in
  junctions s' = manageJunctionCycles deltaTime (junctions s)
  /\ ambulance s'
     = (if 2 <=? Ambulance.fadeOutTimer a + deltaTime then None
        else Some (Ambulance.set_fadeOutTimer
                     (Ambulance.fadeOutTimer a + deltaTime) a)).
Proof.
  intros Ha Hd Hf Hend deltaTime s'. subst s'. unfold animate. rewrite Ha.
  fold deltaTime. unfold Ambulance.update. rewrite Hf, Hd.
  cbn [Ambulance.fadeOutTimer Ambulance.set_fadeOutTimer].
  rewrite fade_completes.
  destruct (2 <=? Ambulance.fadeOutTimer a + deltaTime).
  - cbn. split; reflexivity.
  - cbn [Ambulance.hasFadedOut Ambulance.set_fadeOutTimer]. rewrite Hf.
    cbn [junctions ambulance]. split; [|reflexivity].
    unfold updateAmbulanceLogic.
    cbn [Ambulance.model Ambulance.path Ambulance.currentPathIndex
         Ambulance.set_fadeOutTimer].
    apply Nat.leb_le in Hend. rewrite Hend.
    destruct (negb (Ambulance.model a) || _); reflexivity.
Qed.

(** X14.  One call of [Ambulance.update]: the path, the speed and the model
    stay; the ambulance either keeps its waypoint or passes to the next
    one, and in an update that passes to the next waypoint it does not
    move; an ambulance that is deactivating, has faded out or has no
    model yet neither moves nor changes waypoint; and as long as the
    ambulance is not deactivating the update does not depend on the
    time step, so the distance covered per second follows the frame
    rate. *)
Theorem update_moves_or_takes_next_waypoint (deltaTime : Q) (a : Ambulance.t) :
  let a' := Ambulance.update deltaTime a in
  Ambulance.path a' = Ambulance.path a
  /\ Ambulance.speed a' = Ambulance.speed a
  /\ Ambulance.model a' = Ambulance.model a
  /\ (Ambulance.currentPathIndex a' = Ambulance.currentPathIndex a
      \/ (Ambulance.currentPathIndex a' = S (Ambulance.currentPathIndex a)
          /\ Ambulance.position a' = Ambulance.position a))
  /\ (Ambulance.isDeactivating a = true \/ Ambulance.hasFadedOut a = true
      \/ Ambulance.model a = false ->
      Ambulance.position a' = Ambulance.position a
      /\ Ambulance.currentPathIndex a' = Ambulance.currentPathIndex a)
  /\ (Ambulance.isDeactivating a = false ->
      forall deltaTime', Ambulance.update deltaTime' a = a').
Proof.
  cbv zeta. unfold Ambulance.update.
  destruct (Ambulance.hasFadedOut a) eqn:Hf;
    [repeat split; auto|].
  destruct (Ambulance.isDeactivating a) eqn:Hd.
  { match goal with |- context [if ?c then _ else _] => destruct c end;
      cbn; repeat split; auto; discriminate. }
  destruct (Ambulance.path a !! Ambulance.currentPathIndex a) as [target|];
    [|repeat split; auto].
  destruct (Ambulance.model a) eqn:Hm; cbn [negb];
    [|repeat split; auto].
  match goal with |- context [if ?c then _ else _] => destruct c end.
  - cbn [Ambulance.path Ambulance.currentPathIndex
         Ambulance.set_currentPathIndex].
    destruct (length (Ambulance.path a) <=? S (Ambulance.currentPathIndex a))%nat;
      cbn; rewrite ?Hm; repeat split; auto;
      try (intuition discriminate).
  - cbn. rewrite ?Hm. repeat split; auto;
      try (intuition discriminate).
Qed.


End AmbulanceLife.

Section AmbulanceExamples.

Import Simulation.

Lemma without_ambulance_preemption_is_frozen_witness :
  ambulance (run (H := rationalThree)
               [Frame (1 / 20); ActivateAmbulance; ReflectorSignalTimeout 1 0;
                Frame (1 / 20)]
               Spec.redLightState) = None.
Proof.
  apply (without_ambulance_preemption_is_frozen (H := rationalThree)
           [Frame (1 / 20); ActivateAmbulance; ReflectorSignalTimeout 1 0;
            Frame (1 / 20)]
           Spec.redLightState).
  reflexivity.
Defined.

Lemma fading_ambulance_is_dropped_after_two_seconds_witness :
  ambulance
    (animate (H := rationalThree) (1 / 60)
       {| road := Road.create;
          junctions := setupEnvironment Road.create;
          ambulance := Some Spec.fadingAmbulance;
          proceduralCars := [] |})
  = Some (Ambulance.set_fadeOutTimer (1 / 4 + Qmin (1 / 60) (5 / 100))
            Spec.fadingAmbulance).
Proof.
  destruct (fading_ambulance_is_dropped_after_two_seconds (H := rationalThree)
              (1 / 60)
              {| road := Road.create;
                 junctions := setupEnvironment Road.create;
                 ambulance := Some Spec.fadingAmbulance;
                 proceduralCars := [] |}
              Spec.fadingAmbulance) as [_ Hambulance].
  - reflexivity.
  - reflexivity.
  - reflexivity.
  - vm_compute. reflexivity.
  - exact Hambulance.
Defined.

End AmbulanceExamples.

(** ** Tactics for the arithmetic of the source *)

(** Writes the divisions by constants as products, for [lra]. *)
Ltac constant_divisions :=
  unfold Qdiv in *;
  repeat match goal with
  | |- context [Qinv (Qmake ?n ?d)] =>
      let v := eval vm_compute in (Qinv (Qmake n d)) in
      change (Qinv (Qmake n d)) with v
  | H : context [Qinv (Qmake ?n ?d)] |- _ =>
      let v := eval vm_compute in (Qinv (Qmake n d)) in
      change (Qinv (Qmake n d)) with v in H
  end.

(** Turns the outcomes of the comparisons of the source into
    inequalities. *)
Ltac tests_to_props :=
  unfold JS.gtb, JS.geb in *;
  repeat match goal with
  | H : JS.ltb _ _ = true |- _ => apply (proj1 (ltb_lt _ _)) in H
  | H : JS.ltb _ _ = false |- _ => apply (proj1 (ltb_ge _ _)) in H
  | H : JS.leb _ _ = true |- _ => apply (proj1 (leb_le _ _)) in H
  | H : JS.leb _ _ = false |- _ => apply (proj1 (leb_gt _ _)) in H
  end.

Ltac absurd_flag :=
  match goal with
  | H : true = false |- _ => discriminate H
  | H : false = true |- _ => discriminate H
  end.

(** ** Cars on the road *)

Section CarMotion.

Import ProceduralCar.

Lemma gtb_le a b : (a >? b) = false <-> a <= b.
Proof. unfold JS.gtb. apply ltb_ge. Qed.

(** X15.  [startEvade] never sends a car off the road and never moves the car
    itself: when the lane of the car and its lateral target are within
    the road edges, so is the new target, the position is unchanged,
    and a car that starts to evade is sent away from the lane of the
    ambulance, or stays in its lane when the edge leaves no room. *)
Theorem startEvade_stays_on_the_road (ambulanceTargetLaneZ : Q) (c : t) :
  Spec.withinEdges c (initialZ c) ->
  Spec.withinEdges c (targetZ c) ->
  let c' := startEvade ambulanceTargetLaneZ c in
  Spec.withinEdges c' (targetZ c')
  /\ position c' = position c
  /\ (isEvading c = false -> isEvading c' = true ->
      (ambulanceTargetLaneZ <= initialZ c -> initialZ c <= targetZ c')
      /\ (initialZ c < ambulanceTargetLaneZ -> targetZ c' <= initialZ c)).
Proof.
  unfold Spec.withinEdges, Spec.roadEdgePositive, Spec.roadEdgeNegative.
  intros [Hi1 Hi2] [Ht1 Ht2]. cbv zeta. unfold startEvade.
  destruct (isEvading c) eqn:He; cbn [andb].
  - destruct (negb (targetZ c =? initialZ c));
      [repeat split; intros; try assumption; try reflexivity; try absurd_flag|].
    cbn [initialZ carWidth position set_isEvading].
    destruct (JS.abs _ <? _); [|cbn; repeat split; intros; try assumption; try reflexivity; try absurd_flag].
    destruct (ambulanceTargetLaneZ <=? initialZ c);
      cbn [targetZ set_targetZ];
      match goal with |- context [if ?b then _ else _] =>
        destruct b eqn:Hclamp end;
      cbn; unfold Config.carEvadeShiftZ in *; tests_to_props;
      repeat split; intros; try reflexivity; try absurd_flag;
      constant_divisions; lra.
  - cbn [initialZ carWidth position set_isEvading].
    destruct (JS.abs _ <? _); [|cbn; repeat split; intros; try assumption; try reflexivity; try absurd_flag].
    destruct (ambulanceTargetLaneZ <=? initialZ c) eqn:Hside;
      cbn [targetZ set_targetZ];
      match goal with |- context [if ?b then _ else _] =>
        destruct b eqn:Hclamp end;
      cbn; unfold Config.carEvadeShiftZ in *; tests_to_props;
      repeat split; intros; try reflexivity; constant_divisions; lra.
Qed.

Lemma startEvade_stays_on_the_road_witness :
  Spec.withinEdges Spec.evadingCar (targetZ Spec.evadingCar).
Proof.
  destruct (startEvade_stays_on_the_road (- (7 / 4))
              (Simulation.spawnCar (- (1)) (- (1)) 160 (1 / 10)))
    as [Hwithin _].
  - split; apply Qle_bool_iff; vm_compute; reflexivity.
  - split; apply Qle_bool_iff; vm_compute; reflexivity.
  - exact Hwithin.
Defined.

Ltac inner_test :=
  match goal with
  | |- context [if ?b then _ else _] =>
      lazymatch b with
      | context [if _ then _ else _] => fail
      | _ => destruct b eqn:?
      end
  end.

Ltac car_branches :=
  repeat (cbn [isStoppedForLight currentSpeed isEvading speed position
               targetZ initialZ length carWidth
               set_position set_isEvading set_targetZ set_currentSpeed
               set_isStoppedForLight set_x set_z negb andb orb
               Vector3.x Vector3.y Vector3.z] in *;
          try inner_test).

Section Frames.

Context `{Three}.

Lemma update_onTheRoad (deltaTime : Q) (c : t) :
  0 <= deltaTime -> Spec.onTheRoad c -> Spec.onTheRoad (update deltaTime c).
Proof.
  intros Hdt Hc. unfold update. cbv zeta.
  match goal with
  | |- context [if negb (isStoppedForLight c) || isEvading c then ?a else c] =>
      set (c1 := if negb (isStoppedForLight c) || isEvading c then a else c)
  end.
  assert (K1 : length c1 = length c /\ currentSpeed c1 = currentSpeed c
               /\ (Vector3.x (position c1)
                   = Vector3.x (position c) + currentSpeed c * deltaTime * 60
                   \/ Vector3.x (position c1) = Vector3.x (position c))).
  { subst c1. destruct (negb (isStoppedForLight c) || isEvading c); cbn; auto. }
  clearbody c1. destruct K1 as (L1 & V1 & X1).
  match goal with
  | |- context [if (currentSpeed c1 >? 0) && ?p then ?a else ?b] =>
      set (c2 := if (currentSpeed c1 >? 0) && p then a else b)
  end.
  assert (K2 : Spec.onTheRoad c2).
  { subst c2. unfold Spec.onTheRoad, Spec.carExtentX in *.
    rewrite L1, V1. 
    assert (Hpos : 0 < currentSpeed c -> 0 <= currentSpeed c * deltaTime * 60)
      by (intros Hv; apply Qmult_le_0_compat; [apply Qmult_le_0_compat|];
          lra).
    assert (Hneg : currentSpeed c < 0 -> currentSpeed c * deltaTime * 60 <= 0).
    { intros Hv.
      assert (0 <= (- currentSpeed c) * deltaTime * 60)
        by (apply Qmult_le_0_compat; [apply Qmult_le_0_compat|]; lra).
      lra. }
    assert (Hzero : currentSpeed c == 0 ->
                    currentSpeed c * deltaTime * 60 == 0)
      by (intros Hv; rewrite Hv; ring).
    assert (Hcases : 0 < currentSpeed c \/ currentSpeed c < 0
                     \/ currentSpeed c == 0) by lra.
    destruct Hc as [Hc1 Hc2].
    destruct (currentSpeed c >? 0) eqn:Hv1, (currentSpeed c <? 0) eqn:Hv2;
      cbn [andb];
      repeat inner_test;
      cbn [position length set_x set_position Vector3.x];
      rewrite ?L1; tests_to_props;
      destruct X1 as [X1|X1];
      repeat match goal with
      | G : context [Vector3.x (position c1)] |- _ =>
          lazymatch G with X1 => fail | _ => rewrite X1 in G end
      end;
      rewrite ?X1;
      destruct Hcases as [Hv|[Hv|Hv]];
      try specialize (Hpos Hv); try specialize (Hneg Hv);
      try specialize (Hzero Hv); split; lra. }
  clearbody c2.
  match goal with |- Spec.onTheRoad ?t =>
    assert (K : Spec.samePlace c2 t)
      by (unfold Spec.samePlace; car_branches; split; reflexivity);
    destruct K as [Kx Kl]
  end.
  unfold Spec.onTheRoad, Spec.carExtentX in *. rewrite Kx, Kl. exact K2.
Qed.

Lemma checkAndHandleTrafficLight_samePlace (junctionCenter : option Vector3.t)
    (trafficLight : option TrafficLight.t) (needsWay : bool) (c : t) :
  Spec.samePlace c
    (checkAndHandleTrafficLight junctionCenter trafficLight needsWay c).
Proof.
  unfold Spec.samePlace, checkAndHandleTrafficLight.
  destruct junctionCenter as [center|], trafficLight as [light|];
    try destruct (TrafficLight.currentState light);
    cbv zeta; car_branches; split; reflexivity.
Qed.

Lemma reactToAmbulance_samePlace (ambulancePos : option Vector3.t)
    (laneZ : Q) (needsWay : bool) (c : t) :
  Spec.samePlace c (Simulation.reactToAmbulance ambulancePos laneZ needsWay c).
Proof.
  unfold Spec.samePlace, Simulation.reactToAmbulance, startEvade, stopEvade.
  destruct ambulancePos as [pos|]; cbv zeta; car_branches; split; reflexivity.
Qed.

Lemma carTick_onTheRoad (deltaTime : Q) (ambulance : option Ambulance.t)
    (junctions : list Simulation.Junction) (c : t) :
  0 <= deltaTime -> Spec.onTheRoad c ->
  Spec.onTheRoad (Simulation.carTick deltaTime ambulance junctions c).
Proof.
  intros Hdt Hc. unfold Simulation.carTick. cbv zeta.
  match goal with |- Spec.onTheRoad (Simulation.reactToAmbulance ?p ?z ?n ?x) =>
    destruct (reactToAmbulance_samePlace p z n x) as [Kx Kl];
    assert (Hx : Spec.onTheRoad x)
  end.
  { apply update_onTheRoad; [exact Hdt|].
    destruct (Simulation.findRelevantLight c junctions) as [[j light]|];
      [|exact Hc].
    match goal with |- Spec.onTheRoad (checkAndHandleTrafficLight ?a ?b ?n c) =>
      destruct (checkAndHandleTrafficLight_samePlace a b n c) as [Cx Cl]
    end.
    unfold Spec.onTheRoad, Spec.carExtentX in *. rewrite Cx, Cl. exact Hc. }
  unfold Spec.onTheRoad, Spec.carExtentX in *. rewrite Kx, Kl. exact Hx.
Qed.

(** X16.  Cars never leave the stretch of road on which they wrap around: in
    a frame whose clock delta is not negative, every car that is within
    half the length of the road layout plus twice its own length of the
    middle of the layout is so again after the frame, whatever the
    lights and the ambulance do. *)
Theorem cars_stay_on_the_road (clockDelta : Q) (s : Simulation.t) :
  0 <= clockDelta ->
  Forall Spec.onTheRoad (Simulation.proceduralCars s) ->
  Forall Spec.onTheRoad (Simulation.proceduralCars (Simulation.animate clockDelta s)).
Proof.
  intros Hdelta Hcars.
  assert (Hdt : 0 <= Qmin clockDelta (5 / 100))
    by (apply Q.min_glb; [exact Hdelta | apply Qle_bool_iff; reflexivity]).
  unfold Simulation.animate.
  destruct (Simulation.ambulance s) as [amb|];
    [destruct (Ambulance.hasFadedOut _)|];
    cbn [Simulation.proceduralCars]; unfold Simulation.updateCarLogic;
    apply Forall_map; (eapply Forall_impl; [exact Hcars|]);
    intros c; apply carTick_onTheRoad; exact Hdt.
Qed.


Lemma update_isStoppedForLight (deltaTime : Q) (c : t) :
  isStoppedForLight (update deltaTime c) = isStoppedForLight c.
Proof. unfold update. cbv zeta. car_branches; reflexivity. Qed.

Lemma reactToAmbulance_never_stops (ambulancePos : option Vector3.t)
    (laneZ : Q) (needsWay : bool) (c : t) :
  isStoppedForLight c = false ->
  isStoppedForLight (Simulation.reactToAmbulance ambulancePos laneZ needsWay c)
  = false.
Proof.
  intros Hc.
  unfold Simulation.reactToAmbulance, startEvade, stopEvade.
  destruct ambulancePos as [pos|]; cbv zeta; car_branches;
    try reflexivity; try congruence.
Qed.

Lemma checkAndHandleTrafficLight_stops_at_red (center : Vector3.t)
    (light : TrafficLight.t) (needsWay : bool) (c : t) :
  isStoppedForLight c = false ->
  isStoppedForLight (checkAndHandleTrafficLight (Some center) (Some light)
                       needsWay c) = true ->
  (TrafficLight.currentState light = TrafficLight.RED
   \/ TrafficLight.currentState light = TrafficLight.YELLOW)
  /\ isEvading c = false
  /\ 0 < Spec.distanceAhead c center
  /\ Spec.distanceAhead c center
     < Config.carStopDistanceToJunction + length c / 2.
Proof.
  intros Hc. unfold checkAndHandleTrafficLight, Spec.distanceAhead.
  destruct (TrafficLight.currentState light) eqn:Hlight;
    cbv zeta; car_branches; try congruence; intros _;
    repeat match goal with
    | G : _ && _ = true |- _ => apply andb_prop in G as [? ?]
    end;
    tests_to_props;
    repeat split; auto;
    try match goal with
    | G : negb (isEvading c) = true |- _ =>
        destruct (isEvading c); [discriminate G | reflexivity]
    end.
Qed.

(** X17.  A car that is not stopped for a light is stopped by a frame only at
    a red or yellow light: the junction found for the car is ahead of
    it, closer than the stop distance plus half the length of the car,
    the light that faces the car is red or yellow, and the car is not
    evading. *)
Theorem cars_stop_only_at_red_or_yellow (deltaTime : Q)
    (ambulance : option Ambulance.t) (junctions : list Simulation.Junction)
    (c : t) :
  isStoppedForLight c = false ->
  isStoppedForLight (Simulation.carTick deltaTime ambulance junctions c) = true ->
  exists j light,
    Simulation.findRelevantLight c junctions = Some (j, light)
    /\ (TrafficLight.currentState light = TrafficLight.RED
        \/ TrafficLight.currentState light = TrafficLight.YELLOW)
    /\ isEvading c = false
    /\ 0 < Spec.distanceAhead c (Simulation.center j)
    /\ Spec.distanceAhead c (Simulation.center j)
       < Config.carStopDistanceToJunction + length c / 2.
Proof.
  intros Hc. unfold Simulation.carTick. cbv zeta.
  destruct (Simulation.findRelevantLight c junctions) as [[j light]|].
  - intros Hstopped. exists j, light. split; [reflexivity|].
    apply (checkAndHandleTrafficLight_stops_at_red _ _
             (Simulation.veryCloseAndNeedsWay
                (Simulation.activeAmbulancePos ambulance) c) c Hc).
    match goal with |- ?flag = true =>
      destruct flag eqn:Hflag; [reflexivity | exfalso]
    end.
    rewrite reactToAmbulance_never_stops in Hstopped; [discriminate|].
    rewrite update_isStoppedForLight. exact Hflag.
  - intros Hstopped. exfalso.
    rewrite reactToAmbulance_never_stops in Hstopped; [discriminate|].
    rewrite update_isStoppedForLight. reflexivity.
Qed.


Lemma checkAndHandleTrafficLight_goes_on_green (center : Vector3.t)
    (light : TrafficLight.t) (needsWay : bool) (c : t) :
  TrafficLight.currentState light = TrafficLight.GREEN ->
  Spec.distanceAhead c center < Config.carDetectionDistanceToJunction ->
  isStoppedForLight (checkAndHandleTrafficLight (Some center) (Some light)
                       needsWay c) = false.
Proof.
  intros Hlight. unfold checkAndHandleTrafficLight, Spec.distanceAhead.
  rewrite Hlight. cbv zeta. intros Hnear.
  car_branches; try reflexivity;
    repeat match goal with
    | G : _ && _ = false |- _ => apply andb_false_iff in G as [G|G]
    end;
    tests_to_props; lra.
Qed.

(** X18.  A car goes on green: when the light that faces the car at the
    junction found for it is green and the junction centre is less than
    the detection distance ahead, or behind, the car is not stopped
    for a light after the frame, whether or not it was before. *)
Theorem cars_go_on_green (deltaTime : Q) (ambulance : option Ambulance.t)
    (junctions : list Simulation.Junction) (c : t)
    (j : Simulation.Junction) (light : TrafficLight.t) :
  Simulation.findRelevantLight c junctions = Some (j, light) ->
  TrafficLight.currentState light = TrafficLight.GREEN ->
  Spec.distanceAhead c (Simulation.center j)
  < Config.carDetectionDistanceToJunction ->
  isStoppedForLight (Simulation.carTick deltaTime ambulance junctions c) = false.
Proof.
  intros Hfound Hlight Hnear. unfold Simulation.carTick. cbv zeta.
  rewrite Hfound. apply reactToAmbulance_never_stops.
  rewrite update_isStoppedForLight.
  apply checkAndHandleTrafficLight_goes_on_green; assumption.
Qed.


End Frames.


Lemma inLightWindow_test (c : t) (j : Simulation.Junction) :
  let distToJunctionX :=
    (Vector3.x (Simulation.center j) - Vector3.x (position c))
    * JS.sign (speed c) in
  (distToJunctionX >? - length c)
  && (distToJunctionX <? Config.carDetectionDistanceToJunction + 5) = true
  <-> Spec.inLightWindow c j.
Proof.
  cbv zeta. unfold Spec.inLightWindow, Spec.distanceAhead.
  rewrite andb_true_iff, gtb_gt, ltb_lt. reflexivity.
Qed.

(** X19.  The light of a car is looked for at one junction only, the first
    one of the array whose centre is in the window from one car length
    behind the car to the detection distance plus five ahead of it.
    The light is the east-bound light of that junction for a car that
    drives east and the west-bound light otherwise; a junction in the
    window that has fewer than four lights gives no light and hides
    the junctions after it. *)
Theorem findRelevantLight_first_junction_in_window
    (c : t) (junctions : list Simulation.Junction) :
  match Simulation.findRelevantLight c junctions with
  | Some (j, light) =>
      exists k,
        junctions !! k = Some j
        /\ Spec.inLightWindow c j
        /\ (forall m j0, (m < k)%nat -> junctions !! m = Some j0 ->
                         ~ Spec.inLightWindow c j0)
        /\ Simulation.trafficLights j !! Spec.facingLight c = Some light
  | None =>
      (forall j, j ∈ junctions -> ~ Spec.inLightWindow c j)
      \/ exists k j,
           junctions !! k = Some j
           /\ Spec.inLightWindow c j
           /\ (forall m j0, (m < k)%nat -> junctions !! m = Some j0 ->
                            ~ Spec.inLightWindow c j0)
           /\ (List.length (Simulation.trafficLights j) < 4)%nat
  end.
Proof.
  induction junctions as [|j junctions IH]; cbn [Simulation.findRelevantLight].
  - left. intros j Hj. inversion Hj.
  - pose proof (inLightWindow_test c j) as Hwindow. cbv zeta in Hwindow.
    match goal with |- context [if ?b then _ else _] =>
      destruct b eqn:Htest end.
    + clear Htest. assert (Htest := proj1 Hwindow eq_refl).
      assert (Hfirst : forall m j0, (m < 0)%nat ->
                (j :: junctions) !! m = Some j0 -> ~ Spec.inLightWindow c j0)
        by (intros m j0 Hm; lia).
      destruct (Nat.leb_spec 4 (List.length (Simulation.trafficLights j)))
        as [Hfour|Hfew].
      * fold (Spec.facingLight c).
        destruct (Simulation.trafficLights j !! Spec.facingLight c)
          as [light|] eqn:Hlight.
        -- exists 0%nat. auto.
        -- apply lookup_ge_None in Hlight. unfold Spec.facingLight in Hlight.
           destruct (JS.sign (speed c) >? 0); lia.
      * right. exists 0%nat, j. auto.
    + assert (Hout : ~ Spec.inLightWindow c j).
      { intros Hin. apply Hwindow in Hin. discriminate Hin. }
      destruct (Simulation.findRelevantLight c junctions) as [[j' light]|].
      * destruct IH as (k & Hk & Hin & Hfirst & Hlight).
        exists (S k). split; [exact Hk|]. split; [exact Hin|].
        split; [|exact Hlight].
        intros [|m] j0 Hm Hj0; [cbn in Hj0; congruence|].
        apply (Hfirst m); [lia | exact Hj0].
      * destruct IH as [Hnone|(k & j' & Hk & Hin & Hfirst & Hfew)].
        -- left. intros j0 Hj0. apply elem_of_cons in Hj0 as [->|Hj0];
             [exact Hout | apply Hnone, Hj0].
        -- right. exists (S k), j'. split; [exact Hk|]. split; [exact Hin|].
           split; [|exact Hfew].
           intros [|m] j0 Hm Hj0; [cbn in Hj0; congruence|].
           apply (Hfirst m); [lia | exact Hj0].
Qed.


End CarMotion.

Section CarMotionExamples.

Import ProceduralCar.

Lemma cars_stay_on_the_road_witness :
  Forall Spec.onTheRoad
    (Simulation.proceduralCars
       (Simulation.animate (H := rationalThree) (1 / 60) Spec.redLightState)).
Proof.
  apply (cars_stay_on_the_road (H := rationalThree) (1 / 60) Spec.redLightState).
  - apply Qle_bool_iff. reflexivity.
  - constructor; [|constructor].
    split; apply Qle_bool_iff; vm_compute; reflexivity.
Defined.

Lemma cars_stop_only_at_red_or_yellow_witness :
  exists j light,
    Simulation.findRelevantLight (Simulation.spawnCar 1 1 (- (5)) (1 / 10))
      (Simulation.junctions Spec.redLightState) = Some (j, light)
    /\ (TrafficLight.currentState light = TrafficLight.RED
        \/ TrafficLight.currentState light = TrafficLight.YELLOW).
Proof.
  destruct (cars_stop_only_at_red_or_yellow (H := rationalThree) (1 / 60) None
              (Simulation.junctions Spec.redLightState)
              (Simulation.spawnCar 1 1 (- (5)) (1 / 10)))
    as (j & light & Hfound & Hcolour & _).
  - reflexivity.
  - vm_compute. reflexivity.
  - exists j, light. split; [exact Hfound | exact Hcolour].
Defined.

Lemma cars_go_on_green_witness :
  isStoppedForLight
    (Simulation.carTick (H := rationalThree) (1 / 60) None
       (Simulation.setupEnvironment Road.create)
       (Simulation.spawnCar 1 1 (- (5)) (1 / 10))) = false.
Proof.
  destruct (Simulation.findRelevantLight
              (Simulation.spawnCar 1 1 (- (5)) (1 / 10))
              (Simulation.setupEnvironment Road.create))
    as [[j light]|] eqn:Hfound; [|vm_compute in Hfound; discriminate Hfound].
  apply (cars_go_on_green (H := rationalThree) (1 / 60) None
           (Simulation.setupEnvironment Road.create)
           (Simulation.spawnCar 1 1 (- (5)) (1 / 10)) j light Hfound).
  - vm_compute in Hfound. injection Hfound as <- <-. reflexivity.
  - vm_compute in Hfound. injection Hfound as <- <-.
    unfold Qlt. vm_compute. reflexivity.
Defined.

End CarMotionExamples.

(** ** Building placement *)

Section Buildings.

Import Simulation.

Lemma positive_overlap (a b c d : Q) :
  (Qmax 0 (Qmin b d - Qmax a c) >? 0) = true
  <-> a < b /\ a < d /\ c < b /\ c < d.
Proof.
  rewrite gtb_gt, Q.max_lt_iff. split.
  - intros [Hzero|Hpos]; [lra|].
    assert (Hlt : Qmax a c < Qmin b d) by lra.
    apply Q.max_lub_lt_iff in Hlt as [Ha Hc].
    apply Q.min_glb_lt_iff in Ha as [? ?].
    apply Q.min_glb_lt_iff in Hc as [? ?]. auto.
  - intros (Hab & Had & Hcb & Hcd). right.
    assert (Hlt : Qmax a c < Qmin b d).
    { apply Q.max_lub_lt_iff. split; apply Q.min_glb_lt_iff; auto. }
    lra.
Qed.

Lemma zone_test (posX posZ width depth : Q) (zone : Zone) :
  (Qmax 0 (Qmin (posX + width / 2) (maxX zone)
           - Qmax (posX - width / 2) (minX zone)) >? 0)
  && (Qmax 0 (Qmin (posZ + depth / 2) (maxZ zone)
              - Qmax (posZ - depth / 2) (minZ zone)) >? 0) = true
  <-> Spec.overlaps posX posZ width depth zone.
Proof.
  rewrite andb_true_iff, !positive_overlap. unfold Spec.overlaps.
  assert (Hw : posX - width / 2 < posX + width / 2 <-> 0 < width)
    by (constant_divisions; split; lra).
  assert (Hd : posZ - depth / 2 < posZ + depth / 2 <-> 0 < depth)
    by (constant_divisions; split; lra).
  rewrite Hw, Hd. reflexivity.
Qed.

(** X20.  [isPositionSafeForBuilding] accepts a position exactly when the
    footprint shares no region of positive width and depth with any
    zone of the list: footprints that only touch a zone along an edge
    are accepted, a footprint of zero or negative width or depth is
    accepted anywhere, and an empty list of zones accepts every
    position. *)
Theorem isPositionSafeForBuilding_iff_no_overlap
    (posX posZ width depth : Q) (noBuildZones : list Zone) :
  isPositionSafeForBuilding posX posZ width depth noBuildZones = true
  <-> Forall (fun zone => ~ Spec.overlaps posX posZ width depth zone)
        noBuildZones.
Proof.
  induction noBuildZones as [|zone rest IH];
    cbn [isPositionSafeForBuilding].
  - split; [constructor | reflexivity].
  - pose proof (zone_test posX posZ width depth zone) as Htest.
    match goal with |- context [if ?b then _ else _] => destruct b end.
    + split; [discriminate|]. intros Hall.
      inversion_clear Hall as [|? ? Hzone _]. exfalso.
      apply Hzone, Htest. reflexivity.
    + rewrite IH. split.
      * intros Hrest. constructor; [|exact Hrest].
        intros Hzone. apply Htest in Hzone. discriminate Hzone.
      * intros Hall. inversion_clear Hall. assumption.
Qed.

Lemma not_overlaps_clear (posX posZ width depth : Q) (zone : Zone)
    (centerX centerZ halfX halfZ : Q) :
  0 < width -> 0 < depth -> 0 < halfX -> 0 < halfZ ->
  minX zone == centerX - halfX -> maxX zone == centerX + halfX ->
  minZ zone == centerZ - halfZ -> maxZ zone == centerZ + halfZ ->
  ~ Spec.overlaps posX posZ width depth zone ->
  Spec.clearOf posX posZ width depth centerX centerZ halfX halfZ.
Proof.
  intros Hw Hd Hx Hz E1 E2 E3 E4 Hnot. unfold Spec.clearOf.
  destruct (Qlt_le_dec (centerX - halfX) (posX + width / 2)) as [H1|H1];
    [|left; exact H1].
  destruct (Qlt_le_dec (posX - width / 2) (centerX + halfX)) as [H2|H2];
    [|right; left; exact H2].
  destruct (Qlt_le_dec (centerZ - halfZ) (posZ + depth / 2)) as [H3|H3];
    [|right; right; left; exact H3].
  destruct (Qlt_le_dec (posZ - depth / 2) (centerZ + halfZ)) as [H4|H4];
    [|right; right; right; exact H4].
  exfalso. apply Hnot. unfold Spec.overlaps.
  rewrite E1, E2, E3, E4. repeat split; try assumption; lra.
Qed.

(** X21.  Every position that [isPositionSafeForBuilding] accepts for the
    zones of [getNoBuildZones] keeps a footprint of positive width and
    depth clear of the roads: outside the corridor of the east-west
    road, which reaches 8.1 units to either side of the road axis and
    214 units from the middle of the layout, and outside the
    north-south corridor of every junction of the road, 8.1 units to
    either side of the junction centre and 43 units along the
    crossing road. *)
Theorem accepted_buildings_are_clear_of_the_roads
    (road : Road.t) (posX posZ width depth : Q) :
  0 < width -> 0 < depth ->
  isPositionSafeForBuilding posX posZ width depth (getNoBuildZones road) = true ->
  Spec.clearOf posX posZ width depth 0 0
    Spec.corridorHalfLength Spec.corridorHalfWidth
  /\ Forall (fun center =>
               Spec.clearOf posX posZ width depth
                 (Vector3.x center) (Vector3.z center)
                 Spec.corridorHalfWidth Spec.crossingHalfLength)
       (Road.junctionCenters road).
Proof.
  intros Hw Hd Hsafe.
  apply isPositionSafeForBuilding_iff_no_overlap in Hsafe.
  unfold getNoBuildZones in Hsafe. cbv zeta in Hsafe.
  inversion_clear Hsafe as [|? ? Hroad Hcrossings].
  split.
  - refine (not_overlaps_clear posX posZ width depth _ 0 0
              Spec.corridorHalfLength Spec.corridorHalfWidth Hw Hd
              _ _ _ _ _ _ Hroad);
      vm_compute; reflexivity.
  - rewrite Forall_map in Hcrossings.
    eapply Forall_impl; [exact Hcrossings|]. intros center Hcrossing.
    cbv beta in Hcrossing.
    refine (not_overlaps_clear posX posZ width depth _
              (Vector3.x center) (Vector3.z center)
              Spec.corridorHalfWidth Spec.crossingHalfLength Hw Hd
              _ _ _ _ _ _ Hcrossing);
      try (vm_compute; reflexivity);
      cbn [minX maxX minZ maxZ]; unfold Qminus;
      (apply Qplus_comp; [reflexivity|]);
      try apply Qopp_comp; vm_compute; reflexivity.
Qed.

End Buildings.

Section BuildingExamples.

Import Simulation.

Lemma accepted_buildings_are_clear_of_the_roads_witness :
  Spec.clearOf 40 60 20 20 0 0 Spec.corridorHalfLength Spec.corridorHalfWidth.
Proof.
  apply (accepted_buildings_are_clear_of_the_roads Road.create 40 60 20 20).
  - reflexivity.
  - reflexivity.
  - vm_compute. reflexivity.
Defined.

End BuildingExamples.

(** ** The geometry of the road *)

Section RoadGeometry.

Import Road.

Lemma insertByX_perm (p : Vector3.t) (l : list Vector3.t) :
  insertByX p l ≡ₚ p :: l.
Proof.
  induction l as [|q l IH]; cbn [insertByX]; [reflexivity|].
  destruct (Vector3.x p <=? Vector3.x q); [reflexivity|].
  rewrite IH. apply Permutation_swap.
Qed.

Lemma insertByX_sorted (p : Vector3.t) (l : list Vector3.t) :
  Spec.sortedByX l -> Spec.sortedByX (insertByX p l).
Proof.
  induction l as [|q l IH]; cbn [insertByX Spec.sortedByX].
  - intros _. split; [constructor | exact I].
  - intros [Hq Hl]. destruct (Vector3.x p <=? Vector3.x q) eqn:Hpq.
    + apply leb_le in Hpq. cbn [Spec.sortedByX].
      split; [|split; assumption].
      constructor; [exact Hpq|].
      eapply Forall_impl; [exact Hq|]. intros r Hr. cbv beta in *. lra.
    + apply leb_gt in Hpq. cbn [Spec.sortedByX]. split; [|apply IH, Hl].
      rewrite insertByX_perm. constructor; [lra | exact Hq].
Qed.

(** X22.  The sort of [createRoadLayout] returns the points it is given, each
    as often as it was given, in ascending order of [x]. *)
Theorem sortByX_sorts (l : list Vector3.t) :
  Spec.sortedByX (sortByX l) /\ sortByX l ≡ₚ l.
Proof.
  unfold sortByX. induction l as [|p l [IH1 IH2]]; cbn [foldr].
  - split; [exact I | reflexivity].
  - split; [apply insertByX_sorted, IH1|].
    rewrite insertByX_perm, IH2. reflexivity.
Qed.

Lemma layoutCenters_length (surfaceY currentX : Q) (n : nat) :
  length (layoutCenters surfaceY currentX n) = n.
Proof.
  revert currentX. induction n as [|n IH]; intros currentX; cbn; [reflexivity|].
  rewrite IH. reflexivity.
Qed.

Lemma layoutCenters_lookup (surfaceY : Q) (n : nat) :
  forall (currentX : Q) (i : nat), (i < n)%nat ->
  exists p,
    layoutCenters surfaceY currentX n !! i = Some p
    /\ Vector3.x p == currentX + Config.roadLength + Config.junctionSize / 2
                      + inject_Z (Z.of_nat i) * Spec.junctionSpacing
    /\ Vector3.y p = surfaceY /\ Vector3.z p = 0.
Proof.
  induction n as [|n IH]; intros currentX i Hi; [lia|].
  cbn [layoutCenters]. destruct i as [|i].
  - eexists. split; [reflexivity|]. cbn. split; [ring | auto].
  - destruct (IH (currentX + Config.roadLength + Config.junctionSize) i)
      as (p & Hp & Hx & Hy & Hz); [lia|].
    exists p. split; [exact Hp|]. split; [|auto].
    rewrite Hx, Nat2Z.inj_succ. unfold Z.succ. rewrite inject_Z_plus.
    unfold Spec.junctionSpacing. ring.
Qed.

Lemma layoutCenters_in_order (surfaceY : Q) (n : nat) : forall currentX : Q,
  sortByX (layoutCenters surfaceY currentX n) = layoutCenters surfaceY currentX n.
Proof.
  unfold sortByX. induction n as [|n IH]; intros currentX; [reflexivity|].
  cbn [layoutCenters foldr]. rewrite IH.
  destruct n as [|n]; [reflexivity|]. cbn [layoutCenters insertByX Vector3.x].
  match goal with |- context [if ?b then _ else _] =>
    assert (Htest : b = true); [|rewrite Htest; reflexivity]
  end.
  apply leb_le. unfold Config.roadLength, Config.junctionSize.
  constant_divisions. lra.
Qed.

(** X23.  The junction centres of the road, as [createRoadLayout] leaves
    them: there is one for each junction of [Config]; they are on the
    road axis at the height of the road surface, in ascending order of
    [x], and evenly spaced along the road, the road layout being
    centred on the origin. *)
Theorem junction_centres_are_evenly_spaced (k : nat) :
  (k < Config.numJunctions)%nat ->
  length (junctionCenters create) = Config.numJunctions
  /\ Spec.sortedByX (junctionCenters create)
  /\ exists center,
       junctionCenters create !! k = Some center
       /\ fst (getJunctionCenter create (Z.of_nat k)) = Some center
       /\ Vector3.x center
          == (inject_Z (Z.of_nat k)
              - (inject_Z (Z.of_nat Config.numJunctions) - 1) / 2)
             * Spec.junctionSpacing
       /\ Vector3.y center = Config.roadSurfaceY
       /\ Vector3.z center = 0.
Proof.
  intros Hk. unfold create. cbn [junctionCenters].
  split; [|split].
  - rewrite layoutCenters_in_order. apply layoutCenters_length.
  - apply sortByX_sorts.
  - rewrite layoutCenters_in_order.
    match goal with |- context [layoutCenters ?y ?x ?n] =>
      destruct (layoutCenters_lookup y n x k Hk) as (p & Hp & Hx & Hy & Hz)
    end.
    exists p. split; [exact Hp|]. split; [|split; [|auto]].
    + unfold getJunctionCenter. cbn [junctionCenters].
      rewrite ?layoutCenters_in_order, layoutCenters_length.
      assert (Hin : ((0 <=? Z.of_nat k)%Z
                     && (Z.of_nat k <? Z.of_nat Config.numJunctions)%Z) = true).
      { apply andb_true_intro. split; [apply Z.leb_le | apply Z.ltb_lt]; lia. }
      rewrite Hin. cbn [fst]. rewrite Nat2Z.id. exact Hp.
    + rewrite Hx. unfold Spec.junctionSpacing, Config.roadLength,
        Config.junctionSize, Config.numJunctions.
      change (inject_Z (Z.of_nat 3)) with 3. constant_divisions. ring.
Qed.

Lemma junction_centres_are_evenly_spaced_witness :
  exists center,
    junctionCenters create !! 1%nat = Some center /\ Vector3.x center == 0.
Proof.
  destruct (junction_centres_are_evenly_spaced 1)
    as (_ & _ & center & Hcenter & _ & Hx & _).
  - vm_compute. lia.
  - exists center. split; [exact Hcenter|]. rewrite Hx. reflexivity.
Defined.


Lemma vecEquals_iff (a b : Vector3.t) :
  vecEquals a b = true
  <-> Vector3.x a == Vector3.x b /\ Vector3.y a == Vector3.y b
      /\ Vector3.z a == Vector3.z b.
Proof.
  unfold vecEquals, JS.eqb. rewrite !andb_true_iff, !Qeq_bool_iff. tauto.
Qed.

Lemma vecEquals_same (p q r : Vector3.t) :
  vecEquals p q = true -> vecEquals r q = vecEquals r p.
Proof.
  intros Hpq. apply vecEquals_iff in Hpq as (Hx & Hy & Hz).
  apply Bool.eq_iff_eq_true. rewrite !vecEquals_iff, Hx, Hy, Hz. reflexivity.
Qed.

Lemma noRepeats_cons (p : Vector3.t) (l : list Vector3.t) :
  (forall r, head l = Some r -> vecEquals r p = false) ->
  Spec.noRepeats l -> Spec.noRepeats (p :: l).
Proof.
  intros Hhead Hl [|i] a b Ha Hb.
  - cbn in Ha. injection Ha as <-. apply Hhead.
    destruct l; [discriminate Hb | exact Hb].
  - apply (Hl i); assumption.
Qed.

Lemma dropRepeats_noRepeats (l : list Vector3.t) :
  forall prev : option Vector3.t,
  Spec.noRepeats (dropRepeats prev l)
  /\ forall q r, prev = Some q -> head (dropRepeats prev l) = Some r ->
                 vecEquals r q = false.
Proof.
  induction l as [|p l IH]; intros prev; cbn [dropRepeats].
  - split; [intros i a b Ha; discriminate Ha | intros q r _ Hr; discriminate Hr].
  - destruct (IH (Some p)) as [IH1 IH2].
    assert (Hkeep : Spec.noRepeats (p :: dropRepeats (Some p) l)).
    { apply noRepeats_cons; [|exact IH1]. intros r Hr.
      apply (IH2 p r eq_refl Hr). }
    destruct prev as [q|]; [|split; [exact Hkeep | discriminate]].
    destruct (vecEquals p q) eqn:Hpq.
    + split; [exact IH1|]. intros q' r [= <-] Hr.
      rewrite (vecEquals_same p q r Hpq). apply (IH2 p r eq_refl Hr).
    + split; [exact Hkeep|]. intros q' r [= <-] [= <-]. exact Hpq.
Qed.

Lemma dropRepeats_Forall (P : Vector3.t -> Prop) (l : list Vector3.t) :
  forall prev : option Vector3.t,
  Forall P l -> Forall P (dropRepeats prev l).
Proof.
  induction l as [|p l IH]; intros prev Hl; cbn [dropRepeats];
    [constructor|].
  inversion_clear Hl as [|? ? Hp Hl'].
  destruct prev as [q|]; [destruct (vecEquals p q)|];
    try constructor; auto.
Qed.

(** X24.  The ambulance path of any road, even one without junctions: it is
    never empty, so that [setupAmbulance] always makes an ambulance,
    which stands on the first point of the path; it starts two tenths
    of a road segment before the west end of the road layout; no
    waypoint repeats the one before it; and every waypoint is in the
    lane of the ambulance, two tenths above the road surface. *)
Theorem ambulance_path_is_never_empty (road : t) :
  exists start rest,
    getAmbulancePath road = start :: rest
    /\ start
       = Vector3.mk
           (- ((inject_Z (Z.of_nat Config.numJunctions) + 1) * Config.roadLength
               + inject_Z (Z.of_nat Config.numJunctions) * Config.junctionSize)
              / 2 - Config.roadLength * (2 / 10))
           (roadSurfaceY road + 2 / 10) Config.ambulanceLaneOffsetZ
    /\ Spec.noRepeats (getAmbulancePath road)
    /\ Forall (fun p => Vector3.y p = roadSurfaceY road + 2 / 10
                        /\ Vector3.z p = Config.ambulanceLaneOffsetZ)
         (getAmbulancePath road)
    /\ exists amb,
         Simulation.setupAmbulance road = Some amb
         /\ Ambulance.path amb = getAmbulancePath road
         /\ Ambulance.position amb = start
         /\ Ambulance.currentPathIndex amb = 0%nat.
Proof.
  unfold Simulation.setupAmbulance, getAmbulancePath. cbv zeta.
  match goal with |- context [dropRepeats None ([?p] ++ ?through ++ [?e])] =>
    set (s := p); set (th := through); set (e' := e)
  end.
  assert (Hlane : Forall (fun p => Vector3.y p = roadSurfaceY road + 2 / 10
                                   /\ Vector3.z p = Config.ambulanceLaneOffsetZ)
                    ([s] ++ th ++ [e'])).
  { apply Forall_app. split; [repeat constructor|].
    apply Forall_app. split; [|repeat constructor].
    subst th. destruct (junctionCenters road) as [|c cs];
      [repeat constructor|].
    apply Forall_forall. intros p Hp.
    apply list_elem_of_In, in_flat_map in Hp as (center & _ & Hp).
    cbn in Hp. intuition (subst p; split; reflexivity). }
  destruct (dropRepeats_noRepeats ([s] ++ th ++ [e']) None) as [Hdistinct _].
  pose proof (dropRepeats_Forall _ _ None Hlane) as Hlane'.
  change ([s] ++ th ++ [e']) with (s :: (th ++ [e'])) in *.
  cbn [dropRepeats] in *.
  exists s, (dropRepeats (Some s) (th ++ [e'])).
  split; [reflexivity|]. split; [reflexivity|].
  split; [exact Hdistinct|]. split; [exact Hlane'|].
  eexists. split; [reflexivity|]. repeat split.
Qed.


(** X25.  The reflectors of the western approach of a junction, in the order
    in which [getReflectorPositions] returns them and in which the
    preemption logic scans them: there are eleven; the first is 13
    units west of the junction centre and each next one 6 units
    further out, so the row runs from the junction outwards; all are
    on the road axis of the junction, just below the road surface; and
    nothing is written to the console. *)
Theorem western_reflectors_run_outwards
    (road : t) (k : nat) (center : Vector3.t) :
  junctionCenters road !! k = Some center ->
  let result := getReflectorPositions road (Z.of_nat k) "west" in
  snd result = []
  /\ length (fst result) = 11%nat
  /\ forall i p, fst result !! i = Some p ->
       Vector3.x p == Vector3.x center - 13 - 6 * inject_Z (Z.of_nat i)
       /\ Vector3.y p = roadSurfaceY road - 425 / 10000
       /\ Vector3.z p == Vector3.z center.
Proof.
  intros Hcenter. cbv zeta. unfold getReflectorPositions.
  pose proof (lookup_lt_Some _ _ _ Hcenter) as Hk.
  assert (Hvalid : ((Z.of_nat k <? 0)%Z
                    || (Z.of_nat (length (junctionCenters road)) <=? Z.of_nat k)%Z)
                   = false).
  { apply orb_false_intro; [apply Z.ltb_ge | apply Z.leb_gt]; lia. }
  rewrite Hvalid, Nat2Z.id, Hcenter.
  change (String.eqb "west" "west") with true. cbv iota.
  change (JS.floorNat (Config.roadLength / Config.reflectorSpacing))
    with 11%nat.
  cbn [fst snd]. split; [reflexivity|]. split; [reflexivity|].
  intros i p Hp.
  cbn [reflectorLine seq map rev app] in Hp.
  do 11 (destruct i as [|i];
         [injection Hp as <-; cbn [Vector3.x Vector3.y Vector3.z];
          split; [|split; [reflexivity|]];
          unfold Config.junctionSize, Config.roadLength,
            Config.reflectorSpacing;
          cbn [Z.of_nat Pos.of_succ_nat Pos.succ inject_Z];
          constant_divisions; ring|]).
  discriminate Hp.
Qed.


End RoadGeometry.

(** ** The junctions that [setupEnvironment] makes *)

Section InitialState.

Import Simulation.

Lemma setupJunction_in_range (road : Road.t) (k : nat) (c : Vector3.t) :
  Road.junctionCenters road !! k = Some c ->
  exists j,
    setupJunction road (Z.of_nat k) = Some j
    /\ id j = Z.of_nat k /\ center j = c
    /\ reflectors j
       = map SmartReflector.create
           (fst (Road.getReflectorPositions road (Z.of_nat k) "west"))
    /\ Spec.colours j = Spec.phaseColours EW_GREEN
    /\ reflectorChain j = []
    /\ isAmbulanceApproaching j = false /\ hasAmbulancePassed j = false
    /\ isUnderNormalCycle j = true
    /\ currentPhaseIndex j = 0%nat /\ currentPhaseTimer j = phaseSeconds 0.
Proof.
  intros Hc. pose proof (lookup_lt_Some _ _ _ Hc) as Hk.
  unfold setupJunction. rewrite getJunctionCenter_in_range
    by (unfold Spec.outOfRange; lia).
  cbn [fst]. rewrite Nat2Z.id, Hc.
  eexists. split; [reflexivity|]. repeat split.
Qed.

Lemma omap_seq_lookup {A : Type} (f : nat -> option A) (n : nat) :
  forall a k : nat,
  (k < n)%nat ->
  (forall i, (a <= i <= a + k)%nat -> is_Some (f i)) ->
  omap f (seq a n) !! k = f (a + k)%nat.
Proof.
  induction n as [|n IH]; intros a k Hk Hsome; [lia|].
  cbn [seq omap list_omap].
  destruct (Hsome a) as [x Hx]; [lia|]. rewrite Hx.
  destruct k as [|k].
  - rewrite Nat.add_0_r, Hx. reflexivity.
  - change (omap f (seq (S a) n) !! k = f (a + S k)%nat).
    rewrite (IH (S a) k); [|lia|].
    + f_equal. lia.
    + intros i Hi. apply Hsome. lia.
Qed.

(** X26.  [setupEnvironment] makes one junction for each junction index of
    [Config] that has a centre on the road, at the position of its
    index in the array: the junction has the index as its id, the
    centre of that index, four lights that show the first phase of the
    cycle, east-west green, one reflector at each position of the
    western approach, an empty chain, and it is under normal cycle,
    neither preempted nor passed, with the full duration of the first
    phase on its timer. *)
Theorem setupEnvironment_makes_one_junction_per_centre
    (road : Road.t) (k : nat) (c : Vector3.t) :
  (k < Config.numJunctions)%nat ->
  Road.junctionCenters road !! k = Some c ->
  exists j,
    setupEnvironment road !! k = Some j
    /\ id j = Z.of_nat k /\ center j = c
    /\ reflectors j
       = map SmartReflector.create
           (fst (Road.getReflectorPositions road (Z.of_nat k) "west"))
    /\ Spec.colours j = Spec.phaseColours EW_GREEN
    /\ reflectorChain j = []
    /\ isAmbulanceApproaching j = false /\ hasAmbulancePassed j = false
    /\ isUnderNormalCycle j = true
    /\ currentPhaseIndex j = 0%nat /\ currentPhaseTimer j = phaseSeconds 0.
Proof.
  intros Hk Hc.
  destruct (setupJunction_in_range road k c Hc) as (j & Hj & Hrest).
  exists j. split; [|exact Hrest].
  unfold setupEnvironment.
  rewrite (omap_seq_lookup (fun i : nat => setupJunction road (Z.of_nat i))
             Config.numJunctions 0 k Hk).
  - exact Hj.
  - intros i Hi.
    destruct (lookup_lt_is_Some_2 (Road.junctionCenters road) i) as [ci Hci].
    { apply lookup_lt_Some in Hc. lia. }
    destruct (setupJunction_in_range road i ci Hci) as (ji & Hji & _).
    exists ji. exact Hji.
Qed.

Lemma setupEnvironment_makes_one_junction_per_centre_witness :
  exists j,
    setupEnvironment Road.create !! 1%nat = Some j /\ id j = 1%Z.
Proof.
  destruct (Road.junctionCenters Road.create !! 1%nat) as [c|] eqn:Hc;
    [|vm_compute in Hc; discriminate Hc].
  destruct (setupEnvironment_makes_one_junction_per_centre Road.create 1 c)
    as (j & Hj & Hid & _).
  - vm_compute. lia.
  - exact Hc.
  - exists j. split; [exact Hj | exact Hid].
Defined.

End InitialState.

(** ** The rows of reflectors *)

Section ReflectorRows.

Import Simulation.

Lemma spaced_positions (j j' : Junction) :
  map SmartReflector.position (reflectors j')
  = map SmartReflector.position (reflectors j) ->
  Spec.spaced j -> Spec.spaced j'.
Proof.
  intros Hsame Hj m n r r' Hmn Hm Hn.
  assert (Hback : forall i x, reflectors j' !! i = Some x ->
            exists y, reflectors j !! i = Some y
                      /\ SmartReflector.position y = SmartReflector.position x).
  { intros i x Hx.
    assert (Hp : map SmartReflector.position (reflectors j') !! i
                 = Some (SmartReflector.position x))
      by (rewrite list_lookup_fmap, Hx; reflexivity).
    rewrite Hsame, list_lookup_fmap in Hp.
    destruct (reflectors j !! i) as [y|]; [|discriminate Hp].
    injection Hp as Hp. exists y. auto. }
  destruct (Hback m r Hm) as (r0 & Hm0 & Pm).
  destruct (Hback n r' Hn) as (r0' & Hn0 & Pn).
  specialize (Hj m n r0 r0' Hmn Hm0 Hn0).
  unfold SmartReflector.isAmbulanceNear in *. rewrite <- Pm, <- Pn. exact Hj.
Qed.

Lemma alter_keeps_positions (f : SmartReflector.t -> SmartReflector.t)
    (r : nat) (l : list SmartReflector.t) :
  (forall x, SmartReflector.position (f x) = SmartReflector.position x) ->
  map SmartReflector.position (alter f r l) = map SmartReflector.position l.
Proof.
  intros Hf. revert r. induction l as [|x l IH]; intros [|r]; cbn;
    rewrite ?Hf, ?IH; reflexivity.
Qed.

Lemma junctionStep_positions (amb : Ambulance.t) (j : Junction) :
  map SmartReflector.position (reflectors (Spec.junctionStep amb j))
  = map SmartReflector.position (reflectors j).
Proof.
  destruct (junctionStep_sensors amb j) as [_ [-> | [r ->]]]; [reflexivity|].
  apply alter_keeps_positions. intros x. apply triggerSignal_signals.
Qed.

Lemma cycleJunction_reflectors (deltaTime : Q) (j : Junction) :
  reflectors (cycleJunction deltaTime j) = reflectors j.
Proof.
  unfold cycleJunction.
  destruct (isUnderNormalCycle j && (0 <? length (trafficLights j))%nat);
    [|reflexivity].
  cbn [currentPhaseTimer set_currentPhaseTimer].
  destruct (currentPhaseTimer j - deltaTime <=? 0); [|reflexivity].
  match goal with |- context [applyJunctionPhaseState false ?x] =>
    pose proof (applyJunctionPhaseState_fields false x) as F
  end.
  cbv zeta in F. destruct F as (_ & _ & F & _). rewrite F. reflexivity.
Qed.

Lemma step_spaced `{Three} (e : event) (s : Simulation.t) :
  Spec.uniqueIds (junctions s) ->
  Forall Spec.spaced (junctions s) ->
  Forall Spec.spaced (junctions (step e s)).
Proof.
  intros Hids Hs.
  assert (Hcycle : forall deltaTime js,
            Forall Spec.spaced js ->
            Forall Spec.spaced (manageJunctionCycles deltaTime js)).
  { intros deltaTime js Hjs. unfold manageJunctionCycles. apply Forall_map.
    eapply Forall_impl; [exact Hjs|]. intros j. apply spaced_positions.
    rewrite cycleJunction_reflectors. reflexivity. }
  destruct e as [clockDelta| | |kj r]; cbn [step junctions]; try exact Hs.
  - unfold animate.
    destruct (ambulance s) as [amb|];
      [destruct (Ambulance.hasFadedOut _)|];
      cbn [junctions]; apply Hcycle; try exact Hs.
    rewrite updateAmbulanceLogic_unique by exact Hids.
    destruct (Spec.ambulanceOnPath _); [|exact Hs].
    apply Forall_map. eapply Forall_impl; [exact Hs|]. intros j.
    apply spaced_positions, junctionStep_positions.
  - apply Forall_alter; [exact Hs|]. intros j _. apply spaced_positions.
    cbn [reflectors set_reflectors]. apply alter_keeps_positions.
    reflexivity.
Qed.

Lemma distinct_indices_apart (m n : nat) :
  m <> n ->
  1 <= (inject_Z (Z.of_nat n) - inject_Z (Z.of_nat m))
       * (inject_Z (Z.of_nat n) - inject_Z (Z.of_nat m)).
Proof.
  intros Hmn.
  assert (Hcases : inject_Z (Z.of_nat m) + 1 <= inject_Z (Z.of_nat n)
                   \/ inject_Z (Z.of_nat n) + 1 <= inject_Z (Z.of_nat m)).
  { destruct (Nat.lt_ge_cases m n) as [Hlt|Hge]; [left | right];
      change 1 with (inject_Z 1); rewrite <- inject_Z_plus;
      rewrite <- Zle_Qle; lia. }
  destruct Hcases; nra.
Qed.

Lemma setupJunction_spaced (road : Road.t) (i : Z) (j : Junction) :
  setupJunction road i = Some j -> Spec.spaced j.
Proof.
  intros Hj. destruct (setupJunction_id road i j Hj) as [_ Hin].
  unfold Spec.outOfRange in Hin.
  destruct (lookup_lt_is_Some_2 (Road.junctionCenters road) (Z.to_nat i))
    as [c Hc]; [lia|].
  destruct (setupJunction_in_range road (Z.to_nat i) c Hc)
    as (j' & Hj' & _ & _ & Hreflectors & _).
  rewrite Z2Nat.id in Hj', Hreflectors by lia.
  assert (j' = j) as -> by congruence.
  pose proof (western_reflectors_run_outwards road (Z.to_nat i) c Hc) as Hrow.
  cbv zeta in Hrow. rewrite Z2Nat.id in Hrow by lia.
  destruct Hrow as (_ & _ & Hrow).
  intros m n r r' Hmn Hm Hn. rewrite Hreflectors in Hm, Hn.
  rewrite list_lookup_fmap in Hm, Hn.
  destruct (_ !! m) as [pm|] eqn:Hpm; [|discriminate Hm].
  destruct (_ !! n) as [pn|] eqn:Hpn; [|discriminate Hn].
  injection Hm as <-. injection Hn as <-.
  destruct (Hrow m pm Hpm) as (Xm & Ym & Zm).
  destruct (Hrow n pn Hpn) as (Xn & Yn & Zn).
  unfold SmartReflector.isAmbulanceNear, Vector3.distanceLt.
  cbn [SmartReflector.position SmartReflector.create].
  apply andb_false_intro2, ltb_ge.
  unfold Vector3.distanceToSquared. rewrite Xm, Xn, Ym, Yn, Zm, Zn.
  pose proof (distinct_indices_apart m n Hmn) as Hapart.
  change (JS.orElse Config.reflectorDetectionChainRadius 3) with 4.
  match goal with |- _ <= ?e =>
    assert (E : e == 36 * ((inject_Z (Z.of_nat n) - inject_Z (Z.of_nat m))
                           * (inject_Z (Z.of_nat n) - inject_Z (Z.of_nat m))))
      by ring
  end.
  rewrite E. lra.
Qed.

Lemma run_spaced `{Three} (events : list event) : forall s : Simulation.t,
  Spec.uniqueIds (junctions s) ->
  Forall Spec.spaced (junctions s) ->
  Forall Spec.spaced (junctions (run events s)).
Proof.
  induction events as [|e events IH]; intros s Hids Hs; [exact Hs|].
  apply (IH (step e s)).
  - apply uniqueIds_step, Hids.
  - apply step_spaced; assumption.
Qed.

(** X27.  With the spacing and the chain radius of [Config], the chain never
    spreads on its own.  The reflectors of a junction are 6 units
    apart and the chain radius is 4, so in every state that a run
    reaches no reflector is near the reflector chained last, and a
    reflector that is not in the chain yet fires exactly when it
    detects the ambulance itself. *)
Theorem reflectors_fire_only_by_direct_detection `{Three}
    (cars : list ProceduralCar.t) (events : list event) :
  Forall (fun j =>
            forall ambulancePos i reflector,
              reflectors j !! i = Some reflector ->
              i ∉ reflectorChain j ->
              reflectorFires ambulancePos j reflector
              = SmartReflector.canDetectAmbulance reflector ambulancePos)
    (junctions (run events (create cars))).
Proof.
  assert (Hspaced : Forall Spec.spaced (junctions (run events (create cars)))).
  { apply run_spaced; [apply setupEnvironment_uniqueIds|].
    cbn [create junctions]. unfold setupEnvironment.
    apply Forall_forall. intros j Hj.
    apply list_elem_of_omap in Hj as (i & _ & Hi).
    apply (setupJunction_spaced _ _ _ Hi). }
  eapply Forall_impl; [exact Hspaced|].
  intros j Hj ambulancePos i reflector Hi Hnot.
  unfold reflectorFires, lastChainedPosition.
  destruct (last (reflectorChain j)) as [m|] eqn:Hlast;
    [|rewrite andb_false_r, orb_false_r; reflexivity].
  assert (Hm : m ∈ reflectorChain j).
  { apply last_Some in Hlast as [chain ->].
    apply elem_of_app. right. apply list_elem_of_here. }
  destruct (reflectors j !! m) as [chained|] eqn:Hchained;
    cbn [fmap option_fmap option_map];
    [|rewrite andb_false_r, orb_false_r; reflexivity].
  rewrite (Hj i m reflector chained); [|congruence|exact Hi|exact Hchained].
  rewrite andb_false_r, orb_false_r. reflexivity.
Qed.


End ReflectorRows.

(** ** What ends a preemption *)

Section ReleaseTrigger.

Import Simulation.

Lemma pastThreshold_releaseFires (amb : Ambulance.t) (j : Junction) :
  isAmbulanceApproaching j = true ->
  Spec.pastThreshold amb (center j) ->
  releaseFires amb j = true.
Proof.
  intros Happroaching (target & Htarget & Hpast). cbv zeta in Hpast.
  unfold releaseFires, hasPhysicallyPassedJunction, targetIsPastJunction.
  rewrite Happroaching, Htarget. cbn [andb].
  destruct Hpast as [(Hdir & Hpos & Htgt) | (Hdir & Hpos & Htgt)].
  - assert (D : (ambulanceDirectionX amb >? 0) = true) by (apply gtb_gt, Hdir).
    rewrite D. cbn [andb].
    apply gtb_gt in Hpos, Htgt. rewrite Hpos, Htgt. reflexivity.
  - assert (D1 : (ambulanceDirectionX amb >? 0) = false)
      by (apply gtb_le; lra).
    assert (D2 : (ambulanceDirectionX amb <? 0) = true) by (apply ltb_lt, Hdir).
    rewrite D1, D2. cbn [andb orb].
    apply ltb_lt in Hpos, Htgt. rewrite Hpos, Htgt. reflexivity.
Qed.

(** X28.  A preempted junction is released in the first frame of the
    preemption logic in which the ambulance and its current path target
    are both beyond the release threshold past the junction centre, in
    the direction of travel: the frame sets [hasAmbulancePassed], ends
    the preemption, empties the reflector chain and puts the junction
    back under normal cycle. *)
Theorem release_fires_once_past_threshold
    (amb : Ambulance.t) (js : list Junction) (k : nat) (j : Junction) :
  Spec.uniqueIds js ->
  Spec.ambulanceOnPath amb = true ->
  js !! k = Some j ->
  hasAmbulancePassed j = false ->
  isAmbulanceApproaching j = true ->
  Spec.pastThreshold amb (center j) ->
  exists j',
    updateAmbulanceLogic (Some amb) js !! k = Some j'
    /\ hasAmbulancePassed j' = true
    /\ isAmbulanceApproaching j' = false
    /\ isUnderNormalCycle j' = true
    /\ reflectorChain j' = []
    /\ Spec.lightsFree j'.
Proof.
  intros Hids Hon Hj Hpassed Happroaching Hpast.
  rewrite updateAmbulanceLogic_unique by exact Hids. rewrite Hon.
  exists (Spec.junctionStep amb j). rewrite list_lookup_fmap, Hj.
  split; [reflexivity|].
  unfold Spec.junctionStep. rewrite Hpassed. cbv zeta.
  set (moving := ambulanceMovingTowardsJunction amb (center j)).
  assert (H1 : Spec.proximityStep amb moving j = j).
  { unfold Spec.proximityStep. rewrite Happroaching. reflexivity. }
  rewrite H1.
  set (j2 := Spec.reflectorStep amb moving j).
  assert (H2 : isAmbulanceApproaching j2 = true)
    by (apply reflectorStep_approaching, Happroaching).
  assert (C2 : center j2 = center j)
    by (apply (neutral_reflectorStep amb moving j)).
  unfold Spec.releaseStep.
  rewrite pastThreshold_releaseFires; [|exact H2 | rewrite C2; exact Hpast].
  destruct (release_effects j2) as (E1 & _ & _ & _ & E2 & E3 & E4 & E5).
  auto.
Qed.

Lemma release_fires_once_past_threshold_witness :
  exists j',
    updateAmbulanceLogic (Some Spec.passingAmbulance)
      (junctions Spec.releaseState) !! 1%nat = Some j'
    /\ hasAmbulancePassed j' = true.
Proof.
  destruct (junctions Spec.releaseState !! 1%nat) as [j|] eqn:Hj;
    [|vm_compute in Hj; discriminate Hj].
  destruct (release_fires_once_past_threshold Spec.passingAmbulance
              (junctions Spec.releaseState) 1 j)
    as (j' & Hj' & Hpassed & _).
  - apply (bool_decide_unpack _). vm_compute. exact I.
  - reflexivity.
  - exact Hj.
  - vm_compute in Hj. injection Hj as <-. reflexivity.
  - vm_compute in Hj. injection Hj as <-. reflexivity.
  - vm_compute in Hj. injection Hj as <-.
    eexists. split; [vm_compute; reflexivity|].
    left. repeat split; unfold Qlt; vm_compute; reflexivity.
  - exists j'. split; [exact Hj' | exact Hpassed].
Defined.

End ReleaseTrigger.

(** ** Cars and the ambulance *)

Section Evasion.

Import ProceduralCar.

Context `{Three}.

(** X29.  Evasion ends with the ambulance: after a frame in which the
    ambulance is not active for the car logic, because there is none,
    it has no model yet, it is at the end of its path, it is
    deactivating or it has faded out, no car is evading. *)
Theorem cars_stop_evading_without_active_ambulance (deltaTime : Q)
    (ambulance : option Ambulance.t) (junctions : list Simulation.Junction)
    (c : t) :
  Simulation.ambulanceActive ambulance = false ->
  isEvading (Simulation.carTick deltaTime ambulance junctions c) = false.
Proof.
  intros Hinactive. unfold Simulation.carTick. cbv zeta.
  assert (Hpos : Simulation.activeAmbulancePos ambulance = None).
  { unfold Simulation.activeAmbulancePos. destruct ambulance as [amb|];
      [rewrite Hinactive|]; reflexivity. }
  rewrite Hpos.
  match goal with |- isEvading (Simulation.reactToAmbulance None ?z ?n ?x) = _ =>
    generalize x; generalize n
  end.
  intros needsWay car. unfold Simulation.reactToAmbulance, stopEvade.
  cbv zeta.
  repeat (cbn [isStoppedForLight currentSpeed isEvading speed position
               targetZ initialZ length carWidth
               set_position set_isEvading set_targetZ set_currentSpeed
               set_isStoppedForLight negb andb orb];
          try match goal with
              | |- context [if ?b then _ else _] =>
                  lazymatch b with
                  | context [if _ then _ else _] => fail
                  | _ => destruct b eqn:?
                  end
              end);
    try reflexivity; try congruence;
    repeat match goal with
    | G : negb _ && _ = true |- _ => apply andb_prop in G as [G _]
    | G : negb ?b = true |- _ => destruct b; [discriminate G | reflexivity]
    end.
Qed.

End Evasion.

Section EvasionExamples.

Import ProceduralCar.

Lemma cars_stop_evading_without_active_ambulance_witness :
  isEvading Spec.evadingCar = true
  /\ isEvading
       (Simulation.carTick (H := rationalThree) (1 / 60)
          (Some Spec.fadingAmbulance) (Simulation.setupEnvironment Road.create)
          Spec.evadingCar) = false.
Proof.
  split; [reflexivity|].
  apply (cars_stop_evading_without_active_ambulance (H := rationalThree)
           (1 / 60) (Some Spec.fadingAmbulance)).
  reflexivity.
Defined.

End EvasionExamples.

(** ** Pedestrians *)

Section Pedestrians.

Import ProceduralPedestrian.

Context `{Three} `{Trig}.

Lemma on_footpath_test (z : Q) : (JS.abs (z - z) >? 5 / 100) = false.
Proof.
  apply gtb_le. unfold JS.abs.
  assert (E : z - z == 0) by ring. rewrite E. apply Qle_bool_iff. reflexivity.
Qed.

Lemma eqb_of_eq (a b c : Q) :
  a == b -> (a =? c) = (b =? c).
Proof. intros Hab. unfold JS.eqb. rewrite Hab. reflexivity. Qed.

(** X30.  A pedestrian that walks along the road, in direction 1 or -1 at a
    speed that is not negative, in a frame whose time step is not
    negative: a pedestrian within the wrap-around distance of the
    middle of the road layout is so again after the update; a
    pedestrian that is on the line of its footpath stays on it; the
    walk animation advances with the time step and the speed; and the
    speed, the direction and the footpath do not change. *)
Theorem pedestrians_stay_along_their_footpath (deltaTime : Q) (p : t) :
  0 <= deltaTime ->
  0 <= speed p ->
  direction p == 1 \/ direction p == - (1) ->
  movementAxis p = "x" ->
  - Spec.pedestrianExtentX <= Vector3.x (position p) ->
  Vector3.x (position p) <= Spec.pedestrianExtentX ->
  let p' := update deltaTime p in
  - Spec.pedestrianExtentX <= Vector3.x (position p')
  /\ Vector3.x (position p') <= Spec.pedestrianExtentX
  /\ (Vector3.z (position p) = footpathZ p ->
      Vector3.z (position p') = footpathZ p)
  /\ walkPhase p' = walkPhase p + deltaTime * 7 * (speed p / (2 / 100))
  /\ speed p' = speed p /\ direction p' = direction p
  /\ footpathZ p' = footpathZ p.
Proof.
  intros Hdt Hspeed Hdirection Haxis Hx1 Hx2. cbv zeta. unfold update.
  rewrite Haxis. change (String.eqb "x" "x") with true. cbv iota zeta.
  fold Spec.pedestrianExtentX.
  cbn [position walkPhase speed direction footpathZ Vector3.x Vector3.z].
  assert (Hstep : 0 <= speed p * deltaTime * 60)
    by (apply Qmult_le_0_compat; [apply Qmult_le_0_compat|]; lra).
  assert (Hwrapped : forall x' : Q,
            x' = Vector3.x (position p) + speed p * direction p * deltaTime * 60 ->
            let wrapped :=
              if (x' >? Spec.pedestrianExtentX) && (direction p =? 1)
              then - Spec.pedestrianExtentX
              else if (x' <? - Spec.pedestrianExtentX)
                      && (direction p =? - (1))
              then Spec.pedestrianExtentX else x' in
            - Spec.pedestrianExtentX <= wrapped
            /\ wrapped <= Spec.pedestrianExtentX).
  { intros x' Hx'. cbv zeta.
    destruct Hdirection as [Hd|Hd];
      match type of Hd with _ == ?d =>
        assert (Hmove : speed p * direction p * deltaTime * 60
                        == d * (speed p * deltaTime * 60))
          by (rewrite Hd; ring)
      end;
      rewrite (eqb_of_eq _ _ 1 Hd), (eqb_of_eq _ _ (- (1)) Hd);
      [change (1 =? 1) with true; change (1 =? - (1)) with false
      |change (- (1) =? 1) with false; change (- (1) =? - (1)) with true];
      rewrite ?andb_true_r, ?andb_false_r;
      repeat match goal with |- context [if ?b then _ else _] =>
        destruct b eqn:? end;
      tests_to_props; subst x'; split; lra. }
  split; [apply (Hwrapped _ eq_refl)|]. split; [apply (Hwrapped _ eq_refl)|].
  split; [|repeat split].
  intros Hz. rewrite Hz, on_footpath_test. reflexivity.
Qed.

End Pedestrians.

Section PedestrianExamples.

Import ProceduralPedestrian.

Lemma pedestrians_stay_along_their_footpath_witness :
  Vector3.x
    (position
       (update (H := rationalThree) (H0 := rationalTrig) (1 / 60)
          (create (Vector3.mk 0 (1 / 10) 5) (17 / 10) 0)))
  <= Spec.pedestrianExtentX.
Proof.
  destruct (pedestrians_stay_along_their_footpath
              (H := rationalThree) (H0 := rationalTrig) (1 / 60)
              (create (Vector3.mk 0 (1 / 10) 5) (17 / 10) 0))
    as (_ & Hx & _).
  - apply Qle_bool_iff. reflexivity.
  - apply Qle_bool_iff. reflexivity.
  - left. reflexivity.
  - reflexivity.
  - apply Qle_bool_iff. vm_compute. reflexivity.
  - apply Qle_bool_iff. vm_compute. reflexivity.
  - exact Hx.
Defined.

End PedestrianExamples.

Section RoadExamples.

Import Road.

Lemma western_reflectors_run_outwards_witness :
  length (fst (getReflectorPositions create 1 "west")) = 11%nat.
Proof.
  destruct (junctionCenters create !! 1%nat) as [center|] eqn:Hcenter;
    [|vm_compute in Hcenter; discriminate Hcenter].
  apply (western_reflectors_run_outwards create 1 center Hcenter).
Defined.

End RoadExamples.
